(** * Rubric Rater: the RTF decoder, the rubric parser and the report formatter

    A shallow embedding of [src/app.py].  Python strings are sequences of
    Unicode code points, regular expressions are run by a backtracking
    matcher with the priorities of Python's [re] module, dictionaries are
    finite maps, floats are IEEE binary64 values, and exceptions are an
    explicit outcome. *)

From Stdlib Require Import ZArith List Lia Bool String Ascii.
From Stdlib Require Import Strings.Byte.
From Stdlib Require Import Floats.SpecFloat.
From stdpp Require Import gmap.
Import ListNotations.

Local Open Scope Z_scope.
Local Open Scope list_scope.

(** ** Python strings *)

Module Py.

(** A character is a code point, a [str] a sequence of them. *)
Definition char := Z.
Definition str := list char.

Definition chr_of_ascii (a : ascii) : char := Z.of_N (N_of_ascii a).

(** [lit] turns a literal of the development into a Python string. *)
Definition lit (s : string) : str := map chr_of_ascii (list_ascii_of_string s).

Definition LF : char := 10.
Definition CR : char := 13.
Definition TAB : char := 9.
Definition SPACE : char := 32.
Definition BACKSLASH : char := 92.
Definition LBRACE : char := 123.
Definition RBRACE : char := 125.
Definition EN_DASH : char := 0x2013.

Definition char_eqb (a b : char) : bool := a =? b.

Definition in_range (lo hi c : char) : bool := (lo <=? c) && (c <=? hi).

(** [str.isspace] on one character, which is also what [\s] matches in a
    [str] pattern (Unicode 14, the tables of CPython 3.11). *)
Definition is_space (c : char) : bool :=
  in_range 0x09 0x0D c || in_range 0x1C 0x20 c || (c =? 0x85) || (c =? 0xA0)
  || (c =? 0x1680) || in_range 0x2000 0x200A c || (c =? 0x2028)
  || (c =? 0x2029) || (c =? 0x202F) || (c =? 0x205F) || (c =? 0x3000).

(** The line boundaries of [str.splitlines]. *)
Definition is_linebreak (c : char) : bool :=
  in_range 0x0A 0x0D c || in_range 0x1C 0x1E c || (c =? 0x85)
  || (c =? 0x2028) || (c =? 0x2029).

(** The code points of the digit zero of every decimal digit system; the
    nine that follow each are its digits one to nine. *)
Definition decimal_zeros : list char :=
  [ 0x30; 0x660; 0x6f0; 0x7c0; 0x966; 0x9e6; 0xa66; 0xae6; 0xb66; 0xbe6;
    0xc66; 0xce6; 0xd66; 0xde6; 0xe50; 0xed0; 0xf20; 0x1040; 0x1090;
    0x17e0; 0x1810; 0x1946; 0x19d0; 0x1a80; 0x1a90; 0x1b50; 0x1bb0;
    0x1c40; 0x1c50; 0xa620; 0xa8d0; 0xa900; 0xa9d0; 0xa9f0; 0xaa50;
    0xabf0; 0xff10; 0x104a0; 0x10d30; 0x11066; 0x110f0; 0x11136; 0x111d0;
    0x112f0; 0x11450; 0x114d0; 0x11650; 0x116c0; 0x11730; 0x118e0;
    0x11950; 0x11c50; 0x11d50; 0x11da0; 0x16a60; 0x16ac0; 0x16b50;
    0x1d7ce; 0x1d7d8; 0x1d7e2; 0x1d7ec; 0x1d7f6; 0x1e140; 0x1e2f0;
    0x1e950; 0x1fbf0 ].

(** The decimal value of a character, when it has one. *)
Definition decimal_of (c : char) : option Z :=
  match find (fun z => (z <=? c) && (c <? z + 10)) decimal_zeros with
  | Some z => Some (c - z)
  | None => None
  end.

(** What [\d] matches in a [str] pattern, and what [int] and [float] read
    as a digit. *)
Definition is_decimal (c : char) : bool :=
  match decimal_of c with Some _ => true | None => false end.

Definition is_upper_AZ (c : char) : bool := in_range 65 90 c.

Fixpoint lstrip (s : str) : str :=
  match s with
  | c :: s' => if is_space c then lstrip s' else s
  | [] => []
  end.

Definition rstrip (s : str) : str := rev (lstrip (rev s)).

Definition strip (s : str) : str := rstrip (lstrip s).

(** [sep.join(parts)] *)
Fixpoint join (sep : str) (parts : list str) : str :=
  match parts with
  | [] => []
  | [x] => x
  | x :: rest => x ++ sep ++ join sep rest
  end.

(** [s.splitlines()]: [cur] is the line being read, last character first.
    A carriage return followed by a line feed is one boundary, and a final
    boundary opens no further line. *)
Fixpoint splitlines_from (cur : str) (s : str) : list str :=
  match s with
  | [] => match cur with [] => [] | _ => [rev cur] end
  | c :: s' =>
      if c =? CR then
        match s' with
        | d :: s'' =>
            if d =? LF then rev cur :: splitlines_from [] s''
            else rev cur :: splitlines_from [] s'
        | [] => [rev cur]
        end
      else if is_linebreak c then rev cur :: splitlines_from [] s'
      else splitlines_from (c :: cur) s'
  end.

Definition splitlines (s : str) : list str := splitlines_from [] s.

(** [sub in s] for a one-character [sub]. *)
Definition contains (c : char) (s : str) : bool := existsb (char_eqb c) s.

(** [s.split(sep, 1)] for a one-character [sep] that occurs in [s]. *)
Fixpoint split_once (c : char) (s : str) : str * str :=
  match s with
  | [] => ([], [])
  | x :: s' =>
      if x =? c then ([], s')
      else let '(a, b) := split_once c s' in (x :: a, b)
  end.

(** ** Exceptions *)

Inductive exc := ValueError | OverflowError | UnicodeDecodeError.

(** The outcome of a call: a value, a raised exception, or a loop that was
    cut off because its fuel ran out. *)
Inductive outcome (A : Type) :=
| Ok (a : A)
| Raise (e : exc)
| OutOfFuel.
Arguments Ok {A} a.
Arguments Raise {A} e.
Arguments OutOfFuel {A}.

Definition bind {A B} (x : outcome A) (f : A -> outcome B) : outcome B :=
  match x with
  | Ok a => f a
  | Raise e => Raise e
  | OutOfFuel => OutOfFuel
  end.

End Py.

Import Py.

Notation "x <- c1 ;; c2" := (Py.bind c1 (fun x => c2))
  (at level 100, c1 at next level, right associativity).

(** ** Regular expressions *)

Module Re.

(** The fragment of the pattern language the program uses.  [Group i r] is
    the capturing group number [i]; [Star] is greedy and [LazyStar] is its
    lazy form; [Eos] is [$] without the MULTILINE flag. *)
Inductive regex :=
| Eps
| Class (p : char -> bool)
| Cat (r1 r2 : regex)
| Or (r1 r2 : regex)
| Star (r : regex)
| LazyStar (r : regex)
| Group (i : nat) (r : regex)
| Eos.

Definition Chr (c : char) : regex := Class (char_eqb c).
Definition Plus (r : regex) : regex := Cat r (Star r).
Definition LazyPlus (r : regex) : regex := Cat r (LazyStar r).
Definition Opt (r : regex) : regex := Or r Eps.
(** [r{1,3}] *)
Definition Rep13 (r : regex) : regex := Cat r (Opt (Cat r (Opt r))).
(** [r{2}] *)
Definition Rep2 (r : regex) : regex := Cat r r.
(** [r{3,}] *)
Definition Rep3up (r : regex) : regex := Cat r (Cat r (Cat r (Star r))).

Fixpoint Word (s : str) : regex :=
  match s with
  | [] => Eps
  | c :: s' => Cat (Chr c) (Word s')
  end.

(** The groups that took part in a match, the latest first. *)
Definition caps := list (nat * str).

Fixpoint group (i : nat) (c : caps) : option str :=
  match c with
  | [] => None
  | (j, s) :: c' => if Nat.eqb i j then Some s else group i c'
  end.

(** The part of [s] that was consumed to reach its suffix [s']. *)
Definition consumed (s s' : str) : str := firstn (length s - length s') s.

(** The backtracking matcher: [run r s c k] matches [r] at the head of [s]
    and hands what is left, with the groups, to the continuation [k]; when
    [k] fails the next way of matching [r] is tried, in the order of
    Python's engine (left alternative first, greedy repetition longest
    first, lazy repetition shortest first).  A repetition goes round again
    only after its body consumed a character; no repeated body of the
    program's patterns matches the empty string. *)
Fixpoint run (r : regex) (s : str) (c : caps)
    (k : str -> caps -> option (caps * str)) {struct r} : option (caps * str) :=
  match r with
  | Eps => k s c
  | Class p =>
      match s with
      | x :: s' => if p x then k s' c else None
      | [] => None
      end
  | Cat r1 r2 => run r1 s c (fun s' c' => run r2 s' c' k)
  | Or r1 r2 =>
      match run r1 s c k with
      | Some m => Some m
      | None => run r2 s c k
      end
  | Star r1 =>
      (fix iter (n : nat) (s : str) (c : caps) {struct n} :=
         match n with
         | O => k s c
         | S n' =>
             match run r1 s c (fun s' c' =>
                     if (length s' <? length s)%nat then iter n' s' c'
                     else None) with
             | Some m => Some m
             | None => k s c
             end
         end) (length s) s c
  | LazyStar r1 =>
      (fix iter (n : nat) (s : str) (c : caps) {struct n} :=
         match n with
         | O => k s c
         | S n' =>
             match k s c with
             | Some m => Some m
             | None =>
                 run r1 s c (fun s' c' =>
                   if (length s' <? length s)%nat then iter n' s' c'
                   else None)
             end
         end) (length s) s c
  | Group i r1 => run r1 s c (fun s' c' => k s' ((i, consumed s s') :: c'))
  | Eos =>
      match s with
      | [] => k s c
      | [x] => if x =? LF then k s c else None
      | _ => None
      end
  end.

(** [re.match(r, s)]: the groups and the text left after the match. *)
Definition re_match (r : regex) (s : str) : option (caps * str) :=
  run r s [] (fun s' c => Some (c, s')).

Definition matches (r : regex) (s : str) : bool :=
  match re_match r s with Some _ => true | None => false end.

(** [re.sub(r, repl, s)] for a callable [repl] that may raise.  The scan
    goes left to right; after a match the next [skip] characters belong to
    it and are passed over.  A match of no character counts as none (the
    patterns given to [sub] all consume at least one). *)
Fixpoint sub_from (r : regex) (repl : caps -> str -> outcome str)
    (s : str) (skip : nat) {struct s} : outcome str :=
  match s with
  | [] => Ok []
  | x :: s' =>
      match skip with
      | S n => sub_from r repl s' n
      | O =>
          match re_match r s with
          | Some (c, rest) =>
              match (length s - length rest)%nat with
              | O => t <- sub_from r repl s' O ;; Ok (x :: t)
              | S n =>
                  h <- repl c (consumed s rest) ;;
                  t <- sub_from r repl s' n ;;
                  Ok (h ++ t)
              end
          | None => t <- sub_from r repl s' O ;; Ok (x :: t)
          end
      end
  end.

Definition sub (r : regex) (repl : caps -> str -> outcome str) (s : str)
  : outcome str := sub_from r repl s O.

(** [re.sub] with a constant replacement. *)
Definition sub_const (r : regex) (new : str) (s : str) : outcome str :=
  sub r (fun _ _ => Ok new) s.

End Re.

Import Re.

Notation "r1 >> r2" := (Re.Cat r1 r2) (at level 41, right associativity).

(** ** Python numbers *)

Module Num.

(** The code point of an ASCII character of the development. *)
Definition ch (a : ascii) : char := chr_of_ascii a.

(** The value of a run of decimal digits, read left to right from [acc]. *)
Fixpoint digits_value (acc : Z) (s : str) : option Z :=
  match s with
  | [] => Some acc
  | c :: s' =>
      match decimal_of c with
      | Some d => digits_value (10 * acc + d) s'
      | None => None
      end
  end.

(** The most digits [int] reads from a text: the default of the
    interpreter's [sys.get_int_max_str_digits()], which the program
    leaves as it is. *)
Definition int_max_str_digits : nat := 4300.

(** [int(s)] for an optional minus sign and digits, the only texts the
    program gives it; anything else is a ValueError here.  A text of more
    than [int_max_str_digits] digits is a ValueError too; leading zeros
    count as digits and the sign does not. *)
Definition py_int (s : str) : outcome Z :=
  match s with
  | [] => Raise ValueError
  | c :: s' =>
      if c =? ch "-" then
        match s', digits_value 0 s' with
        | _ :: _, Some v =>
            if (length s' <=? int_max_str_digits)%nat then Ok (- v)
            else Raise ValueError
        | _, _ => Raise ValueError
        end
      else
        match digits_value 0 s with
        | Some v =>
            if (length s <=? int_max_str_digits)%nat then Ok v
            else Raise ValueError
        | None => Raise ValueError
        end
  end.

(** [chr(n)]: outside the code points it is a ValueError, and outside the
    range of a C int an OverflowError. *)
Definition py_chr (n : Z) : outcome str :=
  if (0 <=? n) && (n <=? 0x10FFFF) then Ok [n]
  else if (- 2 ^ 31 <=? n) && (n <? 2 ^ 31) then Raise ValueError
  else Raise OverflowError.

(** Floats are IEEE binary64 values. *)
Definition float := spec_float.
Definition prec : Z := 53.
Definition emax : Z := 1024.

Definition fzero : float := S754_zero false.
Definition fadd : float -> float -> float := SFadd prec emax.
Definition fmul : float -> float -> float := SFmul prec emax.

(** The binary64 value nearest to [n / d] (ties to even), for [n >= 0]. *)
Definition float_of_ratio (n : Z) (d : positive) : float :=
  match n with
  | Zpos _ =>
      let '(m, e, l) := SFdiv_core_binary prec emax n 0 (Zpos d) 0 in
      binary_round_aux prec emax false m e l
  | _ => fzero
  end.

Definition float_of_Z (n : Z) : float := float_of_ratio n 1.

(** [float(s)] for an unsigned decimal numeral, with digits on at least
    one side of an optional point: the value is rounded correctly.  Signs,
    exponents, blanks and the special values, which Python reads too,
    never reach this call and are a ValueError here. *)
Definition py_float (s : str) : outcome float :=
  let '(ip, fp) := if contains (ch ".") s then split_once (ch ".") s
                   else (s, []) in
  match ip ++ fp, digits_value 0 (ip ++ fp) with
  | _ :: _, Some n =>
      Ok (float_of_ratio n (Z.to_pos (10 ^ Z.of_nat (length fp))))
  | _, _ => Raise ValueError
  end.

(** [sum(xs)] over floats (a plain left-to-right sum from zero, as in
    CPython 3.11). *)
Definition py_sum (xs : list float) : float := fold_left fadd xs fzero.

(** The decimal digits of a natural number, most significant first;
    [fuel] bounds their number. *)
Fixpoint digits_of (fuel : nat) (n : Z) (acc : str) : str :=
  match fuel with
  | O => acc
  | S fuel' =>
      if n <? 10 then (ch "0" + n) :: acc
      else digits_of fuel' (n / 10) ((ch "0" + n mod 10) :: acc)
  end.

Definition str_of_nat (n : Z) : str := digits_of (S (Z.to_nat (Z.log2 n))) n [].

Definition pow10 (k : Z) : Z := 10 ^ k.

(** [10^x <= num/den] *)
Definition le_pow10 (x num den : Z) : bool :=
  if 0 <=? x then pow10 x * den <=? num else den <=? num * pow10 (- x).

(** The largest [x] in [lo, lo + fuel] with [10^x <= num/den], given that
    [10^lo <= num/den]. *)
Fixpoint log10_from (fuel : nat) (lo num den : Z) : Z :=
  match fuel with
  | O => lo
  | S fuel' =>
      if le_pow10 (lo + 1) num den then log10_from fuel' (lo + 1) num den
      else lo
  end.

(** [num/den] rounded to an integer, ties to even. *)
Definition round_half_even (num den : Z) : Z :=
  let q := num / den in
  let r := num mod den in
  match 2 * r ?= den with
  | Lt => q
  | Gt => q + 1
  | Eq => if Z.even q then q else q + 1
  end.

Fixpoint strip_zeros_rev (s : str) : str :=
  match s with
  | c :: s' => if c =? ch "0" then strip_zeros_rev s' else s
  | [] => []
  end.

(** Trailing zeros removed. *)
Definition strip_zeros (s : str) : str := rev (strip_zeros_rev (rev s)).

Definition zeros (n : Z) : str := repeat (ch "0") (Z.to_nat n).

(** The text of the positive value [num/den] in the format [g]: six
    significant digits, correctly rounded, no trailing zeros; fixed
    notation for a decimal exponent from -4 to 5 and scientific notation
    otherwise. *)
Definition format_g_pos (num den : Z) : str :=
  let x0 := log10_from 700 (-350) num den in
  let d0 := if x0 <=? 5 then round_half_even (num * pow10 (5 - x0)) den
            else round_half_even num (den * pow10 (x0 - 5)) in
  let '(d, x) := if d0 =? 1000000 then (100000, x0 + 1) else (d0, x0) in
  let ds := strip_zeros (str_of_nat d) in
  if (x <? -4) || (6 <=? x) then
    firstn 1 ds
    ++ (match skipn 1 ds with [] => [] | t => ch "." :: t end)
    ++ [ch "e"; if x <? 0 then ch "-" else ch "+"]
    ++ (if Z.abs x <? 10 then [ch "0"] else []) ++ str_of_nat (Z.abs x)
  else if x <? 0 then
    [ch "0"; ch "."] ++ zeros (- x - 1) ++ ds
  else
    let ip := firstn (Z.to_nat (x + 1)) (ds ++ zeros (x + 1)) in
    ip ++ (match skipn (Z.to_nat (x + 1)) ds with
           | [] => []
           | t => ch "." :: t
           end).

(** [format(x, 'g')], the conversion behind [f"{x:g}"]. *)
Definition format_g (x : float) : str :=
  match x with
  | S754_zero s => (if s then [ch "-"] else []) ++ [ch "0"]
  | S754_infinity s => (if s then [ch "-"] else []) ++ lit "inf"
  | S754_nan => lit "nan"
  | S754_finite s m e =>
      (if s then [ch "-"] else [])
      ++ (if 0 <=? e then format_g_pos (Zpos m * 2 ^ e) 1
          else format_g_pos (Zpos m) (2 ^ (- e)))
  end.

End Num.

Import Num.

(** ** The data model *)

Record RubricItem := {
  code : str;
  description : str;
  max_points : float;
  details : str
}.

(** [range_details] is the field [details] of the source, whose name
    [RubricItem] has taken. *)
Record RangeBlock := {
  start_code : str;
  end_code : str;
  header : str;
  range_details : str
}.

(** ** Bytes to text *)

Definition byte_val (b : byte) : Z := Z.of_N (Byte.to_N b).

Inductive encoding := Utf8 | Cp1252 | Latin1.
Inductive errors := Strict | Ignore.

(** The upper half of code page 1252 from 0x80 to 0x9F; five bytes have
    no character. *)
Definition cp1252_high : list (option char) :=
  [ Some 0x20AC; None; Some 0x201A; Some 0x0192; Some 0x201E; Some 0x2026;
    Some 0x2020; Some 0x2021; Some 0x02C6; Some 0x2030; Some 0x0160;
    Some 0x2039; Some 0x0152; None; Some 0x017D; None;
    None; Some 0x2018; Some 0x2019; Some 0x201C; Some 0x201D; Some 0x2022;
    Some 0x2013; Some 0x2014; Some 0x02DC; Some 0x2122; Some 0x0161;
    Some 0x203A; Some 0x0153; None; Some 0x017E; Some 0x0178 ].

Definition cp1252_char (x : Z) : option char :=
  if in_range 0x80 0x9F x then nth (Z.to_nat (x - 0x80)) cp1252_high None
  else Some x.

Fixpoint decode_cp1252 (e : errors) (bs : list byte) : outcome str :=
  match bs with
  | [] => Ok []
  | b :: bs' =>
      match cp1252_char (byte_val b) with
      | Some c => t <- decode_cp1252 e bs' ;; Ok (c :: t)
      | None =>
          match e with
          | Strict => Raise UnicodeDecodeError
          | Ignore => decode_cp1252 e bs'
          end
      end
  end.

Definition decode_latin1 (bs : list byte) : outcome str :=
  Ok (map byte_val bs).

(** A continuation byte, 10xxxxxx. *)
Definition is_cont (x : Z) : bool := in_range 0x80 0xBF x.

(** What the decoder does at an ill-formed sequence: in strict mode it
    raises; otherwise the bytes before [rest] are left out and decoding
    goes on at [rest]. *)
Definition utf8_error (e : errors) (rest : outcome str) : outcome str :=
  match e with
  | Strict => Raise UnicodeDecodeError
  | Ignore => rest
  end.

(** UTF-8: shortest forms only, no surrogates, nothing above U+10FFFF. *)
Fixpoint decode_utf8 (e : errors) (bs : list byte) : outcome str :=
  match bs with
  | [] => Ok []
  | b0 :: r0 =>
      let x0 := byte_val b0 in
      if x0 <? 0x80 then t <- decode_utf8 e r0 ;; Ok (x0 :: t)
      else if in_range 0xC2 0xDF x0 then
        match r0 with
        | b1 :: r1 =>
            let x1 := byte_val b1 in
            if is_cont x1 then
              t <- decode_utf8 e r1 ;;
              Ok (((x0 - 0xC0) * 64 + (x1 - 0x80)) :: t)
            else utf8_error e (decode_utf8 e r0)
        | [] => utf8_error e (Ok [])
        end
      else if in_range 0xE0 0xEF x0 then
        match r0 with
        | b1 :: r1 =>
            let x1 := byte_val b1 in
            if is_cont x1
               && (if x0 =? 0xE0 then 0xA0 <=? x1 else true)
               && (if x0 =? 0xED then x1 <=? 0x9F else true) then
              match r1 with
              | b2 :: r2 =>
                  let x2 := byte_val b2 in
                  if is_cont x2 then
                    t <- decode_utf8 e r2 ;;
                    Ok (((x0 - 0xE0) * 4096 + (x1 - 0x80) * 64
                         + (x2 - 0x80)) :: t)
                  else utf8_error e (decode_utf8 e r1)
              | [] => utf8_error e (Ok [])
              end
            else utf8_error e (decode_utf8 e r0)
        | [] => utf8_error e (Ok [])
        end
      else if in_range 0xF0 0xF4 x0 then
        match r0 with
        | b1 :: r1 =>
            let x1 := byte_val b1 in
            if is_cont x1
               && (if x0 =? 0xF0 then 0x90 <=? x1 else true)
               && (if x0 =? 0xF4 then x1 <=? 0x8F else true) then
              match r1 with
              | b2 :: r2 =>
                  let x2 := byte_val b2 in
                  if is_cont x2 then
                    match r2 with
                    | b3 :: r3 =>
                        let x3 := byte_val b3 in
                        if is_cont x3 then
                          t <- decode_utf8 e r3 ;;
                          Ok (((x0 - 0xF0) * 262144 + (x1 - 0x80) * 4096
                               + (x2 - 0x80) * 64 + (x3 - 0x80)) :: t)
                        else utf8_error e (decode_utf8 e r2)
                    | [] => utf8_error e (Ok [])
                    end
                  else utf8_error e (decode_utf8 e r1)
              | [] => utf8_error e (Ok [])
              end
            else utf8_error e (decode_utf8 e r0)
        | [] => utf8_error e (Ok [])
        end
      else utf8_error e (decode_utf8 e r0)
  end.

(** [raw.decode(enc, errors=e)] *)
Definition decode (enc : encoding) (e : errors) (raw : list byte)
  : outcome str :=
  match enc with
  | Utf8 => decode_utf8 e raw
  | Cp1252 => decode_cp1252 e raw
  | Latin1 => decode_latin1 raw
  end.

(** The loop of [_decode_bytes] over the encodings still to try. *)
Fixpoint decode_first (encs : list encoding) (raw : list byte)
  : outcome str :=
  match encs with
  | [] => decode Utf8 Ignore raw
  | enc :: encs' =>
      match decode enc Strict raw with
      | Raise UnicodeDecodeError => decode_first encs' raw
      | r => r
      end
  end.

Definition _decode_bytes (raw : list byte) : outcome str :=
  decode_first [Utf8; Cp1252; Latin1] raw.

(** ** RTF to text *)

Definition digit : regex := Class is_decimal.
Definition nondigit : regex := Class (fun c => negb (is_decimal c)).
Definition ws : regex := Class is_space.
Definition upper : regex := Class is_upper_AZ.
(** [.] *)
Definition any : regex := Class (fun c => negb (c =? LF)).
Definition is_alpha_azAZ (c : char) : bool :=
  in_range 97 122 c || in_range 65 90 c.
Definition is_hex (c : char) : bool :=
  in_range 48 57 c || in_range 97 102 c || in_range 65 70 c.

(** [\\\r?\n] *)
Definition rtf_continuation : regex :=
  Chr BACKSLASH >> Opt (Chr CR) >> Chr LF.
(** [\\par[d]?|\\line] *)
Definition rtf_break : regex :=
  Or (Word (lit "\par") >> Opt (Chr (ch "d"))) (Word (lit "\line")).
(** [\\u(-?\d+)\??] *)
Definition rtf_unicode : regex :=
  Chr BACKSLASH >> Chr (ch "u")
  >> Group 1 (Opt (Chr (ch "-")) >> Plus digit) >> Opt (Chr (ch "?")).
(** [\\'([0-9a-fA-F]{2})] *)
Definition rtf_hex : regex :=
  Chr BACKSLASH >> Chr (ch "'") >> Group 1 (Rep2 (Class is_hex)).
(** [\\[a-zA-Z]+-?\d* ?] *)
Definition rtf_control : regex :=
  Chr BACKSLASH >> Plus (Class is_alpha_azAZ) >> Opt (Chr (ch "-"))
  >> Star digit >> Opt (Chr SPACE).
(** [[{}]] *)
Definition rtf_brace : regex :=
  Class (fun c => (c =? LBRACE) || (c =? RBRACE)).
(** [[ \t]+] *)
Definition blanks : regex :=
  Plus (Class (fun c => (c =? SPACE) || (c =? TAB))).
(** [\n{3,}] *)
Definition newlines3 : regex := Rep3up (Chr LF).

(** A group of a match; every group of the program's patterns takes part
    in every match. *)
Definition grp (i : nat) (c : caps) : str :=
  match group i c with Some s => s | None => [] end.

Definition _unicode_repl (c : caps) (_ : str) : outcome str :=
  num <- py_int (grp 1 c) ;;
  py_chr num.

Definition hex_digit_value (c : char) : Z :=
  if in_range 48 57 c then c - 48
  else if in_range 97 102 c then c - 87
  else c - 55.

(** [bytes.fromhex(hh).decode("cp1252", errors="ignore")] for two
    hexadecimal digits. *)
Definition _hex_repl (c : caps) (_ : str) : outcome str :=
  match grp 1 c with
  | [h; l] =>
      match cp1252_char (hex_digit_value h * 16 + hex_digit_value l) with
      | Some x => Ok [x]
      | None => Ok []
      end
  | _ => Raise ValueError
  end.

Definition rtf_to_text (rtf : str) : outcome str :=
  text <- sub_const rtf_continuation [LF] rtf ;;
  text <- sub_const rtf_break [LF] text ;;
  text <- sub rtf_unicode _unicode_repl text ;;
  text <- sub rtf_hex _hex_repl text ;;
  text <- sub_const rtf_control [] text ;;
  text <- sub_const rtf_brace [] text ;;
  text <- sub_const blanks [SPACE] text ;;
  text <- sub_const newlines3 [LF; LF] text ;;
  Ok (strip text).

(** ** The rubric parser *)

Definition number : regex := Plus digit >> Opt (Chr (ch ".") >> Plus digit).

(** [^([A-Z]\d{1,3}|\d+(?:\.\d+)?)\)\s*(.+?)\s*\((\d+(?:\.\d+)?)(?:\s*points?)?\)\s*$];
    [re.match] anchors every pattern at the start of the line. *)
Definition item_pattern : regex :=
  Group 1 (Or (upper >> Rep13 digit) number)
  >> Chr (ch ")") >> Star ws
  >> Group 2 (LazyPlus any)
  >> Star ws >> Chr (ch "(")
  >> Group 3 number
  >> Opt (Star ws >> Word (lit "point") >> Opt (Chr (ch "s")))
  >> Chr (ch ")") >> Star ws >> Eos.

(** [^([A-Z])\)\s*(.+)$] *)
Definition section_pattern : regex :=
  Group 1 upper >> Chr (ch ")") >> Star ws >> Group 2 (Plus any) >> Eos.

(** [[A-Z]?\d{1,3}(?:\.\d{1,3})?] *)
Definition range_code : regex :=
  Opt upper >> Rep13 digit >> Opt (Chr (ch ".") >> Rep13 digit).

(** [^(range_code)\s*[–-]\s*(range_code)\)\s*(.+)$] *)
Definition range_pattern : regex :=
  Group 1 range_code
  >> Star ws >> Class (fun c => (c =? EN_DASH) || (c =? ch "-")) >> Star ws
  >> Group 2 range_code
  >> Chr (ch ")") >> Star ws >> Group 3 (Plus any) >> Eos.

(** [^-?\s*\d+(?:\.\d+)?\s*:\s*] *)
Definition score_prefix : regex :=
  Opt (Chr (ch "-")) >> Star ws >> number >> Star ws >> Chr (ch ":")
  >> Star ws.

(** [^-?\s*(\d+(?:\.\d+)?)\s*:\s*(.+)$] *)
Definition score_line : regex :=
  Opt (Chr (ch "-")) >> Star ws >> Group 1 number >> Star ws
  >> Chr (ch ":") >> Star ws >> Group 2 (Plus any) >> Eos.

Definition is_empty {A} (s : list A) : bool :=
  match s with [] => true | _ => false end.

(** The lines of [lines] that are not the empty string. *)
Definition nonempty (lines : list str) : list str :=
  List.filter (fun l => negb (is_empty l)) lines.

Definition _extract_score_bullets (text : str) : list str * str :=
  if is_empty text then ([], [])
  else
    let '(bullets, rest_lines) :=
      fold_left
        (fun '(bullets, rest_lines) line =>
           match re_match score_line (strip line) with
           | Some (c, _) =>
               (bullets ++ [grp 1 c ++ lit ": " ++ strip (grp 2 c)],
                rest_lines)
           | None => (bullets, rest_lines ++ [line])
           end)
        (splitlines text) ([], []) in
    (bullets,
     strip (join [LF]
              (List.filter (fun l => negb (is_empty (strip l))) rest_lines))).

(** The local variables of [parse_rubric_items] that live across the
    iterations of its loop. *)
Record pstate := {
  items : list RubricItem;
  sections : gmap str str;
  range_blocks : list RangeBlock;
  inherited_scoring : gmap str (list str * str);
  preamble_lines : list str;
  seen_any_item : bool;
  pending_group_lines : list str;
  pending_group_has_scores : bool;
  active_group_bullets : list str;
  active_group_details : str
}.

Definition initial : pstate := {|
  items := [];
  sections := ∅;
  range_blocks := [];
  inherited_scoring := ∅;
  preamble_lines := [];
  seen_any_item := false;
  pending_group_lines := [];
  pending_group_has_scores := false;
  active_group_bullets := [];
  active_group_details := []
|}.

(** [detail_lines and detail_lines[-1] != ""] *)
Definition ends_nonblank (detail_lines : list str) : bool :=
  match rev detail_lines with
  | l :: _ => negb (is_empty l)
  | [] => false
  end.

(** The inner loops that read a detail body: [stop] is the test that
    breaks out.  The result is the detail lines and the lines from the
    one that stopped the loop on. *)
Fixpoint take_details (stop : str -> bool) (detail_lines : list str)
    (lines : list str) : list str * list str :=
  match lines with
  | [] => (detail_lines, [])
  | l :: rest =>
      let peek := strip l in
      if is_empty peek then
        take_details stop
          (if ends_nonblank detail_lines then detail_lines ++ [[]]
           else detail_lines) rest
      else if stop peek then (detail_lines, lines)
      else take_details stop (detail_lines ++ [peek]) rest
  end.

(** The test that ends the body of a range block. *)
Definition range_stop (peek : str) : bool :=
  matches item_pattern peek || matches section_pattern peek
  || matches range_pattern peek.

(** The test that ends the body of an item. *)
Definition item_stop (peek : str) : bool :=
  matches item_pattern peek || matches section_pattern peek.

(** ["\n".join([line for line in detail_lines if line != ""]).strip()] *)
Definition details_text (detail_lines : list str) : str :=
  strip (join [LF] (nonempty detail_lines)).

(** Forget the pending ungrouped block and the active inherited scoring. *)
Definition reset_groups (st : pstate) : pstate := {|
  items := items st;
  sections := sections st;
  range_blocks := range_blocks st;
  inherited_scoring := inherited_scoring st;
  preamble_lines := preamble_lines st;
  seen_any_item := true;
  pending_group_lines := [];
  pending_group_has_scores := false;
  active_group_bullets := [];
  active_group_details := []
|}.

(** The section branch, lines 100 to 107. *)
Definition enter_section (st : pstate) (c : caps) : pstate :=
  let st := reset_groups st in {|
  items := items st;
  sections := <[grp 1 c := strip (grp 2 c)]> (sections st);
  range_blocks := range_blocks st;
  inherited_scoring := inherited_scoring st;
  preamble_lines := preamble_lines st;
  seen_any_item := seen_any_item st;
  pending_group_lines := pending_group_lines st;
  pending_group_has_scores := pending_group_has_scores st;
  active_group_bullets := active_group_bullets st;
  active_group_details := active_group_details st
|}.

Definition starts_upper (s : str) : bool := matches upper s.

(** The end code of a range header, lines 112 to 114. *)
Definition range_end_code (start_code end_code : str) : str :=
  if starts_upper start_code && negb (starts_upper end_code)
  then firstn 1 start_code ++ end_code
  else end_code.

(** The range branch once its body is read, lines 112 to 146. *)
Definition enter_range (st : pstate) (c : caps) (detail_lines : list str)
  : pstate :=
  let start_code := grp 1 c in
  let end_code := range_end_code start_code (grp 2 c) in
  let block := {|
    start_code := start_code;
    end_code := end_code;
    header := start_code ++ [EN_DASH] ++ end_code ++ lit ") "
              ++ strip (grp 3 c);
    range_details := details_text detail_lines
  |} in
  let st := reset_groups st in {|
  items := items st;
  sections := sections st;
  range_blocks := range_blocks st ++ [block];
  inherited_scoring := inherited_scoring st;
  preamble_lines := preamble_lines st;
  seen_any_item := seen_any_item st;
  pending_group_lines := pending_group_lines st;
  pending_group_has_scores := pending_group_has_scores st;
  active_group_bullets := active_group_bullets st;
  active_group_details := active_group_details st
|}.

(** A line that is no header, lines 151 to 156. *)
Definition absorb_line (st : pstate) (line : str) : pstate :=
  if seen_any_item st then {|
    items := items st;
    sections := sections st;
    range_blocks := range_blocks st;
    inherited_scoring := inherited_scoring st;
    preamble_lines := preamble_lines st;
    seen_any_item := seen_any_item st;
    pending_group_lines := pending_group_lines st ++ [line];
    pending_group_has_scores :=
      if matches score_prefix (strip line) then true
      else pending_group_has_scores st;
    active_group_bullets := active_group_bullets st;
    active_group_details := active_group_details st
  |} else {|
    items := items st;
    sections := sections st;
    range_blocks := range_blocks st;
    inherited_scoring := inherited_scoring st;
    preamble_lines := preamble_lines st ++ [line];
    seen_any_item := seen_any_item st;
    pending_group_lines := pending_group_lines st;
    pending_group_has_scores := pending_group_has_scores st;
    active_group_bullets := active_group_bullets st;
    active_group_details := active_group_details st
  |}.

(** The item branch before its body is read, lines 161 to 168: a pending
    block with score lines becomes the active inherited scoring. *)
Definition claim_pending (st : pstate) : pstate :=
  if pending_group_has_scores st then
    let group_text := strip (join [LF] (pending_group_lines st)) in
    let '(bullets, rest) := _extract_score_bullets group_text in {|
      items := items st;
      sections := sections st;
      range_blocks := range_blocks st;
      inherited_scoring := inherited_scoring st;
      preamble_lines := preamble_lines st;
      seen_any_item := true;
      pending_group_lines := [];
      pending_group_has_scores := false;
      active_group_bullets := bullets;
      active_group_details := rest
    |}
  else {|
      items := items st;
      sections := sections st;
      range_blocks := range_blocks st;
      inherited_scoring := inherited_scoring st;
      preamble_lines := preamble_lines st;
      seen_any_item := true;
      pending_group_lines := pending_group_lines st;
      pending_group_has_scores := pending_group_has_scores st;
      active_group_bullets := active_group_bullets st;
      active_group_details := active_group_details st
    |}.

(** [items.append(item)] and the entry of [inherited_scoring], lines 184
    to 193. *)
Definition add_item (st : pstate) (item : RubricItem) : pstate := {|
  items := items st ++ [item];
  sections := sections st;
  range_blocks := range_blocks st;
  inherited_scoring :=
    if is_empty (active_group_bullets st)
       && is_empty (active_group_details st)
    then inherited_scoring st
    else <[code item := (active_group_bullets st, active_group_details st)]>
           (inherited_scoring st);
  preamble_lines := preamble_lines st;
  seen_any_item := seen_any_item st;
  pending_group_lines := pending_group_lines st;
  pending_group_has_scores := pending_group_has_scores st;
  active_group_bullets := active_group_bullets st;
  active_group_details := active_group_details st
|}.

(** The item branch once its body is read, lines 183 to 193. *)
Definition record_item (st : pstate) (c : caps) (detail_lines : list str)
  : outcome pstate :=
  points <- py_float (grp 3 c) ;;
  Ok (add_item st {|
        code := grp 1 c;
        description := strip (grp 2 c);
        max_points := points;
        details := details_text detail_lines
      |}).

(** One iteration of the [while idx < len(lines)] loop of
    [parse_rubric_items], at the line [l = lines[idx]] with [rest] the
    lines after it: the state after the iteration and the lines from the
    new [idx] on. *)
Definition iteration (st : pstate) (l : str) (rest : list str)
  : outcome (pstate * list str) :=
  let line := strip l in
  if is_empty line then Ok (st, rest)
  else
    match re_match section_pattern line, matches item_pattern line with
    | Some (c, _), false => Ok (enter_section st c, rest)
    | _, _ =>
        match re_match range_pattern line with
        | Some (c, _) =>
            let '(detail_lines, rest') := take_details range_stop [] rest in
            Ok (enter_range st c detail_lines, rest')
        | None =>
            match re_match item_pattern line with
            | None => Ok (absorb_line st line, rest)
            | Some (c, _) =>
                let st := claim_pending st in
                let '(detail_lines, rest') :=
                  take_details item_stop [] rest in
                st <- record_item st c detail_lines ;;
                Ok (st, rest')
            end
        end
    end.

(** The loop itself; [lines] is [lines[idx:]] and every iteration uses
    one unit of [fuel]. *)
Fixpoint parse_loop (fuel : nat) (st : pstate) (lines : list str)
  : outcome pstate :=
  match lines with
  | [] => Ok st
  | l :: rest =>
      match fuel with
      | O => OutOfFuel
      | S fuel' =>
          r <- iteration st l rest ;;
          parse_loop fuel' (fst r) (snd r)
      end
  end.

(** What [parse_rubric_items] returns. *)
Record parsed := {
  p_items : list RubricItem;
  p_sections : gmap str str;
  p_range_blocks : list RangeBlock;
  p_inherited_scoring : gmap str (list str * str);
  p_preamble : str
}.

Definition text_lines (text : str) : list str := map rstrip (splitlines text).

Definition result_of (st : pstate) : parsed := {|
  p_items := items st;
  p_sections := sections st;
  p_range_blocks := range_blocks st;
  p_inherited_scoring := inherited_scoring st;
  p_preamble := strip (join [LF] (preamble_lines st))
|}.

(** The loop run from [st] over [lines] with fuel for every line. *)
Definition parse_lines (st : pstate) (lines : list str) : outcome pstate :=
  parse_loop (length lines) st lines.

Definition parse_rubric_items (text : str) : outcome parsed :=
  st <- parse_lines initial (text_lines text) ;;
  Ok (result_of st).

(** ** The report *)

Definition format_output (items : list RubricItem)
    (scores : gmap str float) (explanations : gmap str str) : str :=
  let total_obtained :=
    py_sum (map (fun item => default fzero (scores !! code item)) items) in
  let total_possible := py_sum (map max_points items) in
  let lines :=
    [lit "Total: " ++ format_g total_obtained ++ lit "/"
       ++ format_g total_possible; []] in
  let lines :=
    fold_left
      (fun lines item =>
         let score := default fzero (scores !! code item) in
         let explanation := strip (default [] (explanations !! code item)) in
         let score_display :=
           format_g score ++ lit "/" ++ format_g (max_points item) in
         lines ++ [code item ++ lit ": " ++ score_display;
                   lit "Explanation: " ++ explanation;
                   []])
      items lines in
  strip (join [LF] lines) ++ [LF].

(** ** Range blocks *)

(** [re.sub(r"\D", "", s)] then [int(numeric or 0)]. *)
Definition trailing_number (s : str) : outcome Z :=
  numeric <- sub_const nondigit [] s ;;
  if is_empty numeric then Ok 0 else py_int numeric.

Definition _code_parts (code : str) : outcome (str * Z) :=
  if starts_upper code then
    n <- trailing_number (skipn 1 code) ;;
    Ok (firstn 1 code, n)
  else if contains (ch ".") code then
    let '(section, rest) := split_once (ch ".") code in
    n <- trailing_number rest ;;
    Ok (section, n)
  else
    numeric <- sub_const nondigit [] code ;;
    Ok (if is_empty numeric then code else numeric, 0).

Definition _section_key (code : str) : str :=
  if starts_upper code then firstn 1 code
  else if contains (ch ".") code then fst (split_once (ch ".") code)
  else code.

Definition str_eqb (a b : str) : bool := bool_decide (a = b).

(** [_find_range_block], with the module-level [range_blocks] it reads
    given as an argument. *)
Fixpoint _find_range_block (range_blocks : list RangeBlock) (code : str)
  : outcome (option RangeBlock) :=
  parts <- _code_parts code ;;
  let '(letter, num) := parts in
  match range_blocks with
  | [] => Ok None
  | block :: blocks' =>
      parts <- _code_parts (start_code block) ;;
      let '(start_letter, start_num) := parts in
      parts <- _code_parts (end_code block) ;;
      let '(end_letter, end_num) := parts in
      if negb (str_eqb letter start_letter) || negb (str_eqb letter end_letter)
      then _find_range_block blocks' code
      else if (start_num <=? num) && (num <=? end_num) then Ok (Some block)
      else _find_range_block blocks' code
  end.

(** ** What a match means *)

(** The declarative reading of a pattern: [M r w t c c'] says that [r]
    matches the text [w] when [t] follows it, taking the groups from [c]
    to [c']. *)
Inductive M : regex -> str -> str -> caps -> caps -> Prop :=
| M_Empty t c : M Eps [] t c c
| M_Class p x t c : p x = true -> M (Class p) [x] t c c
| M_Cat r1 r2 w1 w2 t c c1 c2 :
    M r1 w1 (w2 ++ t) c c1 -> M r2 w2 t c1 c2 ->
    M (Cat r1 r2) (w1 ++ w2) t c c2
| M_OrL r1 r2 w t c c' : M r1 w t c c' -> M (Or r1 r2) w t c c'
| M_OrR r1 r2 w t c c' : M r2 w t c c' -> M (Or r1 r2) w t c c'
| M_Star0 r t c : M (Star r) [] t c c
| M_StarS r w1 w2 t c c1 c2 :
    M r w1 (w2 ++ t) c c1 -> M (Star r) w2 t c1 c2 ->
    M (Star r) (w1 ++ w2) t c c2
| M_Lazy0 r t c : M (LazyStar r) [] t c c
| M_LazyS r w1 w2 t c c1 c2 :
    M r w1 (w2 ++ t) c c1 -> M (LazyStar r) w2 t c1 c2 ->
    M (LazyStar r) (w1 ++ w2) t c c2
| M_Group i r w t c c' : M r w t c c' -> M (Group i r) w t c ((i, w) :: c')
| M_Eos t c : t = [] \/ t = [LF] -> M Eos [] t c c.

(** A text is trimmed when it neither starts nor ends with white space. *)
Definition trimmed (s : str) : Prop :=
  (forall c t, s = c :: t -> is_space c = false)
  /\ (forall t c, s = t ++ [c] -> is_space c = false).

(** A pattern without capturing groups. *)
Fixpoint nocap (r : regex) : bool :=
  match r with
  | Eps | Class _ | Eos => true
  | Cat r1 r2 | Or r1 r2 => nocap r1 && nocap r2
  | Star r1 | LazyStar r1 => nocap r1
  | Group _ _ => false
  end.

Definition all_decimal (s : str) : Prop :=
  Forall (fun x => is_decimal x = true) s.

(** An unsigned decimal numeral: digits, then possibly a point and more
    digits, as many as one likes. *)
Definition is_numeral (tok : str) : Prop :=
  exists ip fp,
    ip <> [] /\ all_decimal ip /\ all_decimal fp
    /\ (fp = [] /\ tok = ip \/ fp <> [] /\ tok = ip ++ ch "." :: fp).

(** The characters an item code or a range code is made of. *)
Definition code_char (c : char) : bool :=
  is_upper_AZ c || is_decimal c || (c =? ch ".").

(** A range code starts with a digit, or with a capital and a digit. *)
Definition range_code_head (w : str) : Prop :=
  (exists d tl, w = d :: tl /\ is_decimal d = true)
  \/ (exists u d tl, w = u :: d :: tl /\ is_upper_AZ u = true
                     /\ is_decimal d = true).

(** ** Where a line of prose ends up *)

(** [ends_with s x]: the text [s] ends with [x]. *)
Definition ends_with {A} (s x : list A) : Prop := exists p, s = p ++ x.

(** No header pattern matches the line. *)
Definition plain (line : str) : Prop :=
  re_match section_pattern line = None
  /\ re_match range_pattern line = None
  /\ re_match item_pattern line = None.

(** ** Point values *)

(** The float is a whole number. *)
Definition is_integral (x : float) : bool :=
  match x with
  | S754_zero _ => true
  | S754_finite _ m e => (0 <=? e) || (Zpos m mod 2 ^ (- e) =? 0)
  | _ => false
  end.

(** [10 * x] is a whole number: [x] has at most one decimal place. *)
Definition one_decimal_place (x : float) : bool :=
  is_integral (fmul (float_of_Z 10) x).

(** The item comes from a header line of [lines]: its code is the first
    group of the match and its points are the float of the third, a
    decimal numeral. *)
Definition item_from_header (lines : list str) (it : RubricItem) : Prop :=
  exists l c rest,
    In l lines
    /\ re_match item_pattern (strip l) = Some (c, rest)
    /\ code it = grp 1 c
    /\ is_numeral (grp 3 c)
    /\ py_float (grp 3 c) = Ok (max_points it).

(** The range block comes from a header line of [lines]: its start code
    is the first group of the match, and when that starts with a capital
    and the second group does not, its end code is the second group with
    that capital in front. *)
Definition block_from_header (lines : list str) (b : RangeBlock) : Prop :=
  exists l c rest,
    In l lines
    /\ re_match range_pattern (strip l) = Some (c, rest)
    /\ start_code b = grp 1 c
    /\ (starts_upper (grp 1 c) = true -> starts_upper (grp 2 c) = false ->
        exists L s', grp 1 c = L :: s' /\ is_upper_AZ L = true
                     /\ end_code b = L :: grp 2 c).

(** ** Inherited scoring *)

(** The three score lines of the inherited-scoring scenario. *)
Definition score_lines : list str :=
  [lit "0: no attempt"; lit "3: partial"; lit "5: full"].

(** A section header: the section pattern matches and the item pattern
    does not. *)
Definition section_header (line : str) : Prop :=
  matches section_pattern line = true /\ matches item_pattern line = false.

(** No item is open at the end of [before]: no line of it matches the
    item pattern, or none does after one of its section header lines. *)
Definition no_open_item (before : list str) : Prop :=
  exists b1 b2,
    before = b1 ++ b2
    /\ (b1 = [] \/ exists b1' sec, b1 = b1' ++ [sec]
                                   /\ section_header (strip sec))
    /\ Forall (fun l => matches item_pattern (strip l) = false) b2.

(** ** Range containment *)

(** The code lies in the block: its key is the key of both end points and
    its number lies between theirs. *)
Definition block_contains (b : RangeBlock) (code : str) : Prop :=
  exists key num start_num end_num,
    _code_parts code = Ok (key, num)
    /\ _code_parts (start_code b) = Ok (key, start_num)
    /\ _code_parts (end_code b) = Ok (key, end_num)
    /\ start_num <= num <= end_num.

(** The text holds no more digits than [int] reads. *)
Definition few_digits (s : str) : Prop :=
  (length (List.filter is_decimal s) <= int_max_str_digits)%nat.

(** [_code_parts] returns a key and a number for the code. *)
Definition decomposes (code : str) : Prop :=
  exists key num, _code_parts code = Ok (key, num).

(** The range block of the header [A1-A3) Title]. *)
Definition block_A1_A3 : RangeBlock := {|
  start_code := lit "A1";
  end_code := lit "A3";
  header := lit "A1" ++ [EN_DASH] ++ lit "A3) Title";
  range_details := []
|}.

(** ** White space normalization *)

Definition is_blank (c : char) : bool := (c =? SPACE) || (c =? TAB).

(** Runs of spaces and tabs collapse to a single space; [in_run] tells
    that the character before was a space or a tab. *)
Fixpoint collapse_blanks (in_run : bool) (s : str) : str :=
  match s with
  | [] => []
  | c :: s' =>
      if is_blank c then
        if in_run then collapse_blanks true s'
        else SPACE :: collapse_blanks true s'
      else c :: collapse_blanks false s'
  end.

(** Runs of three or more newlines collapse to exactly two; [seen] counts
    the newlines of the run so far. *)
Fixpoint collapse_newlines (seen : nat) (s : str) : str :=
  match s with
  | [] => []
  | c :: s' =>
      if c =? LF then
        if (seen <? 2)%nat then LF :: collapse_newlines (S seen) s'
        else collapse_newlines (S seen) s'
      else c :: collapse_newlines 0 s'
  end.

(** The white space normalization of the RTF decoder. *)
Definition normalize_whitespace (s : str) : str :=
  strip (collapse_newlines 0 (collapse_blanks false s)).

(** No backslash and no brace. *)
Definition no_control_syntax (s : str) : Prop :=
  Forall (fun c => c <> BACKSLASH /\ c <> LBRACE /\ c <> RBRACE) s.

(** Already normalized: no tab, no two spaces in a row, no three newlines
    in a row, no white space at either end. *)
Definition normal_form (s : str) : Prop :=
  ~ In TAB s
  /\ (forall a b, s <> a ++ SPACE :: SPACE :: b)
  /\ (forall a b, s <> a ++ LF :: LF :: LF :: b)
  /\ trimmed s.

(** The text after its leading characters that satisfy [p]. *)
Fixpoint skip_while (p : char -> bool) (s : str) : str :=
  match s with
  | c :: s' => if p c then skip_while p s' else s
  | [] => []
  end.

(** The number of leading characters that satisfy [p]. *)
Fixpoint lead (p : char -> bool) (s : str) : nat :=
  match s with
  | c :: s' => if p c then S (lead p s') else O
  | [] => O
  end.

(** The class of the pattern [\n]. *)
Definition is_lf : char -> bool := char_eqb LF.

(** Every match of the pattern starts with a backslash. *)
Definition needs_backslash (r : regex) : Prop :=
  forall w t c c', M r w t c c' -> exists w', w = BACKSLASH :: w'.

(** ** Text back to bytes *)

(** The position of the character in the upper half of code page 1252,
    counted from [i]. *)
Fixpoint cp1252_index (c : char) (table : list (option char)) (i : Z)
  : option Z :=
  match table with
  | [] => None
  | Some d :: table' =>
      if c =? d then Some i else cp1252_index c table' (i + 1)
  | None :: table' => cp1252_index c table' (i + 1)
  end.

Definition encode_cp1252_char (c : char) : list Z :=
  match cp1252_index c cp1252_high 0x80 with
  | Some x => [x]
  | None => [c]
  end.

Definition encode_utf8_char (c : char) : list Z :=
  if c <? 0x80 then [c]
  else if c <? 0x800 then [0xC0 + c / 64; 0x80 + c mod 64]
  else if c <? 0x10000 then
    [0xE0 + c / 4096; 0x80 + (c / 64) mod 64; 0x80 + c mod 64]
  else
    [0xF0 + c / 262144; 0x80 + (c / 4096) mod 64; 0x80 + (c / 64) mod 64;
     0x80 + c mod 64].

(** [s.encode(enc)] as byte values, for a text that [enc] can encode. *)
Definition encode (enc : encoding) (s : str) : list Z :=
  match enc with
  | Utf8 => flat_map encode_utf8_char s
  | Cp1252 => flat_map encode_cp1252_char s
  | Latin1 => s
  end.

(** ** The lines of the report *)

(** The first line when every score is the maximum. *)
Definition total_line (items : list RubricItem) : str :=
  let s := format_g (py_sum (map max_points items)) in
  lit "Total: " ++ s ++ lit "/" ++ s.

(** The line of an item that got its maximum. *)
Definition item_line (item : RubricItem) : str :=
  code item ++ lit ": " ++ format_g (max_points item) ++ lit "/"
  ++ format_g (max_points item).

(** What the report holds for an item that got its maximum, from the
    newline that ends the line before its own to the newline after its
    explanation. *)
Definition item_block (explanations : gmap str str) (item : RubricItem)
  : str :=
  [LF] ++ item_line item ++ [LF] ++ lit "Explanation: "
  ++ strip (default [] (explanations !! code item)) ++ [LF].

(** ** The body of a range block *)

(** The lines of a detail body: blank, or no reason for the loop that
    reads the body to stop. *)
Definition body_lines (stop : str -> bool) (body : list str) : Prop :=
  Forall (fun l => strip l = [] \/ stop (strip l) = false) body.

(** The body ends at [rest]: at the end of the text or at a line that
    stops the loop. *)
Definition body_end (stop : str -> bool) (rest : list str) : Prop :=
  rest = []
  \/ exists l r, rest = l :: r /\ strip l <> [] /\ stop (strip l) = true.

(** The range block comes from a header line of [lines] and the body that
    follows it: its details are the non-blank lines of the body, each
    stripped, joined by single newlines. *)
Definition block_from_body (lines : list str) (b : RangeBlock) : Prop :=
  exists pre h body rest c t,
    lines = pre ++ h :: body ++ rest
    /\ re_match range_pattern (strip h) = Some (c, t)
    /\ start_code b = grp 1 c
    /\ body_lines range_stop body
    /\ body_end range_stop rest
    /\ range_details b = join [LF] (nonempty (map strip body)).

(** ** Grouping the items by section *)

(** A dictionary whose order of keys matters: the entries in the order in
    which their keys were first inserted. *)
Definition odict (V : Type) := list (str * V).

(** [d.get(k)] *)
Fixpoint odict_get {V} (d : odict V) (k : str) : option V :=
  match d with
  | [] => None
  | (k', v) :: d' => if str_eqb k' k then Some v else odict_get d' k
  end.

(** [grouped.setdefault(section, []).append(item)] *)
Fixpoint setdefault_append (grouped : odict (list RubricItem))
    (section : str) (item : RubricItem) : odict (list RubricItem) :=
  match grouped with
  | [] => [(section, [item])]
  | (k, v) :: grouped' =>
      if str_eqb k section then (k, v ++ [item]) :: grouped'
      else (k, v) :: setdefault_append grouped' section item
  end.

Definition group_items (items : list RubricItem)
  : odict (list RubricItem) :=
  fold_left
    (fun grouped item =>
       setdefault_append grouped (_section_key (code item)) item)
    items [].

(** The items of the section [k], in their order. *)
Definition items_of_section (k : str) (items : list RubricItem)
  : list RubricItem :=
  List.filter (fun it => str_eqb (_section_key (code it)) k) items.

(** The distinct elements of a list, each at its first occurrence. *)
Fixpoint distinct (l : list str) : list str :=
  match l with
  | [] => []
  | x :: l' => x :: List.filter (fun y => negb (str_eqb y x)) (distinct l')
  end.

(** The code of an item: a capital and one to three digits, or a decimal
    numeral. *)
Definition item_code (w : str) : Prop :=
  (exists u ds, w = u :: ds /\ is_upper_AZ u = true /\ ds <> []
                /\ all_decimal ds)
  \/ is_numeral w.

(** Both end points of the block are plain numbers, and not the same. *)
Definition plain_number_range (b : RangeBlock) : Prop :=
  all_decimal (start_code b) /\ all_decimal (end_code b)
  /\ start_code b <> end_code b.

(** [k in l] *)
Definition has_key (k : str) (l : list str) : bool :=
  existsb (fun y => str_eqb y k) l.

(** ** What the RTF decoder leaves *)

(** Where the scan for a unicode escape stands: nowhere, after a
    backslash, or after a backslash and the letter u. *)
Inductive escape_state := Idle | AfterBackslash | AfterBackslashU.

Definition escape_next (st : escape_state) (x : char) : escape_state :=
  if x =? BACKSLASH then AfterBackslash
  else match st with
       | AfterBackslash => if x =? ch "u" then AfterBackslashU else Idle
       | _ => Idle
       end.

(** What a unicode escape goes on with after its backslash and u. *)
Definition starts_number (x : char) : bool := (x =? ch "-") || is_decimal x.

(** No backslash and letter u is followed by a minus sign or a digit. *)
Fixpoint no_unicode_escape (st : escape_state) (s : str) : bool :=
  match s with
  | [] => true
  | x :: s' =>
      negb (match st with AfterBackslashU => starts_number x | _ => false end)
      && no_unicode_escape (escape_next st x) s'
  end.

(** No two spaces in a row; [after_space] tells that the character before
    was a space. *)
Fixpoint no_space_pair (after_space : bool) (s : str) : bool :=
  match s with
  | [] => true
  | x :: s' =>
      if x =? SPACE then negb after_space && no_space_pair true s'
      else no_space_pair false s'
  end.

(** No three newlines in a row; [seen] counts the newlines directly
    before. *)
Fixpoint no_newline_triple (seen : nat) (s : str) : bool :=
  match s with
  | [] => true
  | x :: s' =>
      if x =? LF then (seen <? 2)%nat && no_newline_triple (S seen) s'
      else no_newline_triple 0 s'
  end.

(** Neither brace. *)
Definition no_brace (c : char) : Prop := c <> LBRACE /\ c <> RBRACE.

(** ** Bytes that are, or are not, UTF-8 *)

(** A Unicode scalar value: a code point that is no surrogate. *)
Definition scalar (c : char) : Prop :=
  0 <= c <= 0x10FFFF /\ ~ (0xD800 <= c <= 0xDFFF).

(** Code page 1252 has no character for the byte. *)
Definition undefined_in_cp1252 (b : byte) : Prop :=
  cp1252_char (byte_val b) = None.

(** ** What the parser records *)

(** The item comes from a header line of [lines] and the body that
    follows it: its description is the second group of the match,
    stripped, and its details are the non-blank lines of the body, each
    stripped, joined by single newlines. *)
Definition item_from_body (lines : list str) (it : RubricItem) : Prop :=
  exists pre h body rest c t,
    lines = pre ++ h :: body ++ rest
    /\ re_match item_pattern (strip h) = Some (c, t)
    /\ code it = grp 1 c
    /\ description it = strip (grp 2 c)
    /\ body_lines item_stop body
    /\ body_end item_stop rest
    /\ details it = join [LF] (nonempty (map strip body)).

(** The section entry comes from a line of [lines] that reads, once
    stripped: a capital, a closing parenthesis, white space, the title. *)
Definition section_from_header (lines : list str) (k v : str) : Prop :=
  exists u l sp,
    k = [u] /\ is_upper_AZ u = true
    /\ In l lines
    /\ strip l = u :: ch ")" :: sp ++ v
    /\ Forall (fun x => is_space x = true) sp
    /\ v <> [] /\ trimmed v.

(** The codes of the lines that match the item pattern, in their order. *)
Definition header_codes (lines : list str) : list str :=
  flat_map (fun l => match re_match item_pattern (strip l) with
                     | Some (c, _) => [grp 1 c]
                     | None => []
                     end) lines.

(** A float that is neither negative nor a NaN. *)
Definition nonnegative (x : float) : Prop :=
  match x with
  | S754_zero s | S754_infinity s | S754_finite s _ _ => s = false
  | S754_nan => False
  end.

(** ** Score bullets *)

(** The bullet that [_extract_score_bullets] makes of a line, when the
    line matches the score pattern. *)
Definition bullet_of (line : str) : list str :=
  match re_match score_line (strip line) with
  | Some (c, _) => [grp 1 c ++ lit ": " ++ strip (grp 2 c)]
  | None => []
  end.

Definition is_score_line (line : str) : bool :=
  matches score_line (strip line).

(** A bullet reads: a decimal numeral, a colon, a space, and a text that
    is not empty and has no white space at either end. *)
Definition score_bullet (b : str) : Prop :=
  exists num desc,
    b = num ++ lit ": " ++ desc
    /\ is_numeral num /\ desc <> [] /\ trimmed desc.

(** A text without a line boundary. *)
Definition one_line (l : str) : Prop :=
  Forall (fun c => is_linebreak c = false) l.

(** ** Loading an upload *)

(** The lower-case form of a letter from A to Z. *)
Definition ascii_lower (c : char) : char :=
  if is_upper_AZ c then c + 32 else c.

(** [s.endswith(suffix)] *)
Definition endswith (s suffix : str) : bool :=
  str_eqb (skipn (length s - length suffix) s) suffix.

(** [name.lower().endswith(".rtf")].  [str.lower] gives every character
    at least one character, and only to the characters [.], [F], [R],
    [T], [f], [r] and [t] a text that ends with one of the four
    characters of the suffix, which is then that character alone (Unicode
    14): the test looks at the last four characters of [name], with
    letters in either case, and lowering A to Z decides it. *)
Definition is_rtf_name (name : str) : bool :=
  endswith (map ascii_lower name) (lit ".rtf").

(** [load_rubric_from_upload], with the bytes that [upload.read()]
    returns given as [raw]. *)
Definition load_rubric_from_upload (raw : list byte) (name : str)
  : outcome (list RubricItem) :=
  content <- _decode_bytes raw ;;
  content <- (if is_rtf_name name then rtf_to_text content else Ok content) ;;
  r <- parse_rubric_items content ;;
  Ok (p_items r).

(** ** The report for any scores *)

(** The first line of the report. *)
Definition report_total (items : list RubricItem) (scores : gmap str float)
  : str :=
  lit "Total: "
  ++ format_g (py_sum (map (fun item => default fzero (scores !! code item))
                         items))
  ++ lit "/" ++ format_g (py_sum (map max_points items)).

(** The line of an item's score. *)
Definition report_line (scores : gmap str float) (item : RubricItem) : str :=
  code item ++ lit ": " ++ format_g (default fzero (scores !! code item))
  ++ lit "/" ++ format_g (max_points item).

(** What the report holds for an item, from the newline that ends the
    line before its own to the newline after its explanation. *)
Definition report_block (scores : gmap str float)
    (explanations : gmap str str) (item : RubricItem) : str :=
  [LF] ++ report_line scores item ++ [LF] ++ lit "Explanation: "
  ++ strip (default [] (explanations !! code item)) ++ [LF].

(** * Properties *)

(** ** The matcher is sound *)

Lemma consumed_app (w t : str) : consumed (w ++ t) t = w.
Proof.
  unfold consumed. rewrite length_app.
  replace (length w + length t - length t)%nat with (length w) by lia.
  rewrite firstn_app, Nat.sub_diag, firstn_all. simpl. apply app_nil_r.
Qed.

Lemma run_sound r : forall s c k res,
  run r s c k = Some res ->
  exists w t c', s = w ++ t /\ M r w t c c' /\ k t c' = Some res.
Proof.
  induction r as [ |p|r1 IH1 r2 IH2|r1 IH1 r2 IH2|r1 IH1|r1 IH1|i r1 IH1| ];
    intros s c k res H; simpl in H.
  - exists [], s, c. repeat split; auto. constructor.
  - destruct s as [|x s']; [discriminate|].
    destruct (p x) eqn:Hp; [|discriminate].
    exists [x], s', c. repeat split; auto. now constructor.
  - apply IH1 in H as (w1 & t1 & c1 & -> & H1 & H).
    apply IH2 in H as (w2 & t & c2 & -> & H2 & H).
    exists (w1 ++ w2), t, c2. rewrite <- app_assoc. repeat split; auto.
    econstructor; eauto.
  - destruct (run r1 s c k) eqn:E.
    + injection H as ->. apply IH1 in E as (w & t & c' & -> & H1 & H).
      exists w, t, c'. repeat split; auto. now apply M_OrL.
    + apply IH2 in H as (w & t & c' & -> & H1 & H).
      exists w, t, c'. repeat split; auto. now apply M_OrR.
  - remember (length s) as n eqn:En in H. clear En. revert s c H.
    induction n as [|n IHn]; intros s c H.
    + exists [], s, c. repeat split; auto. constructor.
    + match type of H with
      | match ?X with _ => _ end = _ => destruct X eqn:E
      end.
      * injection H as ->.
        apply IH1 in E as (w1 & t1 & c1 & -> & H1 & H).
        destruct (length t1 <? length (w1 ++ t1))%nat; [|discriminate].
        apply IHn in H as (w2 & t & c2 & -> & H2 & H).
        exists (w1 ++ w2), t, c2. rewrite <- app_assoc. repeat split; auto.
        econstructor; eauto.
      * exists [], s, c. repeat split; auto. constructor.
  - remember (length s) as n eqn:En in H. clear En. revert s c H.
    induction n as [|n IHn]; intros s c H.
    + exists [], s, c. repeat split; auto. constructor.
    + destruct (k s c) eqn:Ek.
      * injection H as ->. exists [], s, c. repeat split; auto. constructor.
      * apply IH1 in H as (w1 & t1 & c1 & -> & H1 & H).
        destruct (length t1 <? length (w1 ++ t1))%nat; [|discriminate].
        apply IHn in H as (w2 & t & c2 & -> & H2 & H).
        exists (w1 ++ w2), t, c2. rewrite <- app_assoc. repeat split; auto.
        econstructor; eauto.
  - apply IH1 in H as (w & t & c' & -> & H1 & H).
    rewrite consumed_app in H.
    exists w, t, ((i, w) :: c'). repeat split; auto. now constructor.
  - destruct s as [|x [|y s']]; try discriminate.
    + exists [], [], c. repeat split; auto. constructor. auto.
    + destruct (x =? LF) eqn:E; [|discriminate].
      apply Z.eqb_eq in E as ->.
      exists [], [LF], c. repeat split; auto. constructor. auto.
Qed.

Lemma re_match_sound r s c t :
  re_match r s = Some (c, t) -> exists w, s = w ++ t /\ M r w t [] c.
Proof.
  unfold re_match. intros H.
  apply run_sound in H as (w & t' & c' & -> & H1 & H).
  injection H as -> ->. eauto.
Qed.

(** ** Stripping *)

Lemma lstrip_cons_nonspace c s : is_space c = false -> lstrip (c :: s) = c :: s.
Proof. intros H. simpl. now rewrite H. Qed.

Lemma lstrip_app_nonspace a c b :
  is_space c = false -> lstrip (a ++ c :: b) = lstrip a ++ c :: b.
Proof.
  intros H. induction a as [|x a IH]; simpl.
  - now rewrite H.
  - destruct (is_space x); auto.
Qed.

Lemma rstrip_app_nonspace x c z :
  is_space c = false -> rstrip (x ++ c :: z) = x ++ c :: rstrip z.
Proof.
  intros H. unfold rstrip.
  rewrite rev_app_distr. simpl. rewrite <- app_assoc. simpl.
  rewrite lstrip_app_nonspace by assumption.
  rewrite rev_app_distr. simpl. rewrite rev_involutive.
  now rewrite <- app_assoc.
Qed.

Lemma rstrip_snoc_nonspace x c :
  is_space c = false -> rstrip (x ++ [c]) = x ++ [c].
Proof. intros H. now rewrite rstrip_app_nonspace. Qed.

Lemma lstrip_head s c t : lstrip s = c :: t -> is_space c = false.
Proof.
  induction s as [|x s IH]; simpl; [discriminate|].
  destruct (is_space x) eqn:E; auto.
  intros [= -> ->]. assumption.
Qed.

Lemma lstrip_suffix s : exists p, s = p ++ lstrip s.
Proof.
  induction s as [|x s [p IH]]; simpl.
  - now exists [].
  - destruct (is_space x).
    + exists (x :: p). simpl. now f_equal.
    + now exists [].
Qed.

Lemma rstrip_last s t c : rstrip s = t ++ [c] -> is_space c = false.
Proof.
  unfold rstrip. intros H.
  apply (f_equal (@rev _)) in H. rewrite rev_involutive, rev_app_distr in H.
  simpl in H. eapply lstrip_head. eassumption.
Qed.

Lemma rstrip_head c s : is_space c = false -> rstrip (c :: s) = c :: rstrip s.
Proof. intros H. now apply (rstrip_app_nonspace [] c s). Qed.

Lemma strip_trimmed s : trimmed (strip s).
Proof.
  unfold strip. split.
  - intros c t H. destruct (lstrip s) as [|x y] eqn:E.
    + discriminate.
    + pose proof (lstrip_head _ _ _ E) as Hx.
      rewrite rstrip_head in H by assumption. now injection H as <- _.
  - intros t c H. eapply rstrip_last; eauto.
Qed.

Lemma strip_of_trimmed s : trimmed s -> strip s = s.
Proof.
  intros [Hh Hl]. unfold strip.
  destruct s as [|c t]; [reflexivity|].
  rewrite lstrip_cons_nonspace by (eapply Hh; eauto).
  destruct (exists_last (l := c :: t)) as (u & d & E); [discriminate|].
  rewrite E. apply rstrip_snoc_nonspace. eapply Hl; eauto.
Qed.

(** Stripping a text that ends with a trimmed, non-empty text keeps that
    ending. *)
Lemma strip_keeps_ending a x :
  x <> [] -> trimmed x -> exists p, strip (a ++ x) = p ++ x.
Proof.
  intros Hx [Hh Hl].
  destruct x as [|c t]; [congruence|].
  destruct (exists_last (l := c :: t)) as (u & d & E); [discriminate|].
  unfold strip. rewrite lstrip_app_nonspace by (eapply Hh; eauto).
  exists (lstrip a). rewrite E, app_assoc.
  apply rstrip_snoc_nonspace. eapply Hl; eauto.
Qed.

(** ** The character tables *)

Lemma decimal_of_zero c d :
  decimal_of c = Some d ->
  exists z, In z decimal_zeros /\ z <= c < z + 10 /\ d = c - z.
Proof.
  unfold decimal_of.
  match goal with
  | |- context [find ?f ?l] => destruct (find f l) as [z|] eqn:E
  end; [|discriminate].
  intros [= <-]. apply find_some in E as [Hin Hz].
  exists z. split; [assumption|]. lia.
Qed.

Lemma is_decimal_zero c :
  is_decimal c = true -> exists z, In z decimal_zeros /\ z <= c < z + 10.
Proof.
  unfold is_decimal. destruct (decimal_of c) as [d|] eqn:E; [|discriminate].
  intros _. apply decimal_of_zero in E as (z & ? & ? & ?). eauto.
Qed.

Ltac in_table H :=
  unfold decimal_zeros in H; simpl in H;
  repeat (destruct H as [H|H]; [subst|]); try contradiction.

Lemma is_decimal_range c :
  is_decimal c = true -> 48 <= c <= 57 \/ 0x660 <= c.
Proof.
  intros H. apply is_decimal_zero in H as (z & Hin & Hz).
  in_table Hin; lia.
Qed.

Lemma is_decimal_not_space c : is_decimal c = true -> is_space c = false.
Proof.
  intros H. apply is_decimal_zero in H as (z & Hin & Hz).
  unfold is_space, in_range.
  in_table Hin;
    repeat (apply orb_false_intro); try apply andb_false_iff; lia.
Qed.

Lemma is_space_range c :
  is_space c = true -> 9 <= c <= 32 \/ 0x85 <= c.
Proof. unfold is_space, in_range. lia. Qed.

(** ** Repetitions of a character class *)

Lemma M_Class_inv p w t c c' :
  M (Class p) w t c c' -> exists x, w = [x] /\ p x = true /\ c' = c.
Proof. inversion 1; subst. eauto. Qed.

Lemma M_Star_class p w t c c' :
  M (Star (Class p)) w t c c' -> Forall (fun x => p x = true) w /\ c' = c.
Proof.
  intros H. remember (Star (Class p)) as r eqn:Er.
  induction H; try discriminate.
  - auto.
  - injection Er as ->. apply M_Class_inv in H as (x & -> & Hp & ->).
    destruct (IHM2 eq_refl) as [Hf ->]. split; auto. simpl. now constructor.
Qed.

Lemma M_LazyStar_class p w t c c' :
  M (LazyStar (Class p)) w t c c' -> Forall (fun x => p x = true) w /\ c' = c.
Proof.
  intros H. remember (LazyStar (Class p)) as r eqn:Er.
  induction H; try discriminate.
  - auto.
  - injection Er as ->. apply M_Class_inv in H as (x & -> & Hp & ->).
    destruct (IHM2 eq_refl) as [Hf ->]. split; auto. simpl. now constructor.
Qed.

(** ** Taking a match apart *)

Lemma M_Cat_inv r1 r2 w t c c2 :
  M (Cat r1 r2) w t c c2 ->
  exists w1 w2 c1,
    w = w1 ++ w2 /\ M r1 w1 (w2 ++ t) c c1 /\ M r2 w2 t c1 c2.
Proof. inversion 1; subst. eauto 7. Qed.

Lemma M_Group_inv i r w t c c2 :
  M (Group i r) w t c c2 -> exists c1, c2 = (i, w) :: c1 /\ M r w t c c1.
Proof. inversion 1; subst. eauto. Qed.

Lemma M_Or_inv r1 r2 w t c c' :
  M (Or r1 r2) w t c c' -> M r1 w t c c' \/ M r2 w t c c'.
Proof. inversion 1; subst; auto. Qed.

Lemma M_Eps_inv w t c c' : M Eps w t c c' -> w = [] /\ c' = c.
Proof. inversion 1; subst; auto. Qed.

Lemma M_nocap r w t c c' : M r w t c c' -> nocap r = true -> c' = c.
Proof.
  induction 1; simpl; intros Hn; auto;
    try (apply andb_true_iff in Hn as [Hn1 Hn2]); try discriminate.
  - rewrite IHM2, IHM1; auto.
  - auto.
  - auto.
  - rewrite IHM2, IHM1; auto.
  - rewrite IHM2, IHM1; auto.
Qed.

Ltac invM :=
  repeat match goal with
  | H : M (Cat _ _) _ _ _ _ |- _ =>
      apply M_Cat_inv in H as (? & ? & ? & -> & ? & H)
  | H : M (Or _ _) _ _ _ _ |- _ => apply M_Or_inv in H as [H|H]
  | H : M (Group _ _) _ _ _ _ |- _ => apply M_Group_inv in H as (? & -> & H)
  | H : M Eps _ _ _ _ |- _ => apply M_Eps_inv in H as [-> ->]
  | H : M (Class _) _ _ _ _ |- _ => apply M_Class_inv in H as (? & -> & H & ->)
  | H : M (Star (Class _)) _ _ _ _ |- _ => apply M_Star_class in H as [H ->]
  | H : M (LazyStar (Class _)) _ _ _ _ |- _ =>
      apply M_LazyStar_class in H as [H ->]
  end.

Lemma M_number w t c c' : M number w t c c' -> is_numeral w /\ c' = c.
Proof.
  unfold number, Plus, Opt, Chr, digit. intros H. invM.
  - match goal with
    | H : char_eqb _ ?y = true |- _ => apply Z.eqb_eq in H; subst y
    end.
    split; auto.
    match goal with
    | |- is_numeral (([?a] ++ ?b) ++ [_] ++ [?d] ++ ?e) =>
        exists (a :: b), (d :: e)
    end.
    repeat split; try discriminate; try (constructor; assumption).
    right. split; [discriminate|]. now rewrite <- app_assoc.
  - split; auto.
    match goal with
    | |- is_numeral (([?a] ++ ?b) ++ []) => exists (a :: b), []
    end.
    repeat split; try discriminate; try (constructor; assumption).
    left. split; auto. now rewrite app_nil_r.
Qed.

(** ** The shape of a header line *)

Lemma all_decimal_code_char w : all_decimal w -> Forall (fun x => code_char x = true) w.
Proof.
  apply List.Forall_impl. intros x H. unfold code_char. rewrite H.
  now rewrite orb_true_r.
Qed.

Lemma is_numeral_code_chars w :
  is_numeral w -> w <> [] /\ Forall (fun x => code_char x = true) w.
Proof.
  intros (ip & fp & Hne & Hi & Hf & [[-> ->]|[_ ->]]).
  - split; auto. now apply all_decimal_code_char.
  - split; [destruct ip; discriminate|].
    apply Forall_app. split; [now apply all_decimal_code_char|].
    constructor; [reflexivity|now apply all_decimal_code_char].
Qed.

Lemma code_char_upper x : is_upper_AZ x = true -> code_char x = true.
Proof. intros H. unfold code_char. now rewrite H. Qed.

Lemma code_char_decimal x : is_decimal x = true -> code_char x = true.
Proof. intros H. unfold code_char. rewrite H. now rewrite orb_true_r. Qed.

Lemma code_char_dot x : char_eqb (ch ".") x = true -> code_char x = true.
Proof.
  intros H. apply Z.eqb_eq in H as <-. reflexivity.
Qed.

Create HintDb codes.
#[local] Hint Resolve code_char_upper code_char_decimal code_char_dot : codes.

Ltac code_chars :=
  repeat (apply Forall_app; split);
  repeat (apply Forall_cons || apply Forall_nil);
  auto with codes;
  try (eapply List.Forall_impl; [|eassumption]; simpl; auto with codes).

Lemma M_item_code w t c c' :
  M (Or (upper >> Rep13 digit) number) w t c c' ->
  w <> [] /\ Forall (fun x => code_char x = true) w /\ c' = c.
Proof.
  intros H. apply M_Or_inv in H as [H|H].
  - unfold upper, Rep13, Opt, digit in H. invM;
      (split; [discriminate|split; [code_chars|reflexivity]]).
  - apply M_number in H as [H ->].
    apply is_numeral_code_chars in H as [? ?]. auto.
Qed.

Lemma M_range_code w t c c' :
  M range_code w t c c' ->
  range_code_head w /\ Forall (fun x => code_char x = true) w /\ c' = c.
Proof.
  unfold range_code, upper, Rep13, Opt, digit, Chr. intros H. invM;
    (split; [|split; [code_chars|reflexivity]]);
    solve [ left; eexists _, _; split; [reflexivity|assumption]
          | right; eexists _, _, _; split; [reflexivity|split; assumption] ].
Qed.

Lemma item_shape line c rest :
  re_match item_pattern line = Some (c, rest) ->
  exists w1 w2 w3 tl,
    c = [(3%nat, w3); (2%nat, w2); (1%nat, w1)]
    /\ line = w1 ++ ch ")" :: tl
    /\ w1 <> [] /\ Forall (fun x => code_char x = true) w1
    /\ is_numeral w3.
Proof.
  intros H. apply re_match_sound in H as (w & -> & H).
  unfold item_pattern in H.
  apply M_Cat_inv in H as (w1 & ? & c1 & -> & H1 & H).
  apply M_Group_inv in H1 as (? & -> & H1).
  apply M_item_code in H1 as (Hne & Hk & ->).
  apply M_Cat_inv in H as (? & ? & ? & -> & Hp & H).
  apply M_Class_inv in Hp as (p & -> & Hp & ->).
  apply Z.eqb_eq in Hp as <-.
  apply M_Cat_inv in H as (? & ? & ? & -> & Hs & H).
  apply M_Star_class in Hs as [_ ->].
  apply M_Cat_inv in H as (w2 & ? & ? & -> & H2 & H).
  apply M_Group_inv in H2 as (? & -> & H2).
  apply M_nocap in H2 as ->; [|reflexivity].
  apply M_Cat_inv in H as (? & ? & ? & -> & Hs & H).
  apply M_Star_class in Hs as [_ ->].
  apply M_Cat_inv in H as (? & ? & ? & -> & Hp & H).
  apply M_Class_inv in Hp as (? & -> & _ & ->).
  apply M_Cat_inv in H as (w3 & ? & ? & -> & H3 & H).
  apply M_Group_inv in H3 as (? & -> & H3).
  apply M_number in H3 as [H3 ->].
  apply M_nocap in H as ->; [|reflexivity].
  eexists w1, w2, w3, _. split; [reflexivity|].
  split; [|auto]. rewrite <- !app_assoc. simpl. reflexivity.
Qed.

Lemma range_shape line c rest :
  re_match range_pattern line = Some (c, rest) ->
  exists w1 w2 w3 sp d tl,
    c = [(3%nat, w3); (2%nat, w2); (1%nat, w1)]
    /\ line = w1 ++ sp ++ d :: tl
    /\ range_code_head w1 /\ Forall (fun x => code_char x = true) w1
    /\ Forall (fun x => is_space x = true) sp
    /\ (d = EN_DASH \/ d = ch "-").
Proof.
  intros H. apply re_match_sound in H as (w & -> & H).
  unfold range_pattern in H.
  apply M_Cat_inv in H as (w1 & ? & c1 & -> & H1 & H).
  apply M_Group_inv in H1 as (? & -> & H1).
  apply M_range_code in H1 as (Hh & Hk & ->).
  apply M_Cat_inv in H as (sp & ? & ? & -> & Hs & H).
  apply M_Star_class in Hs as [Hs ->].
  apply M_Cat_inv in H as (? & ? & ? & -> & Hd & H).
  apply M_Class_inv in Hd as (d & -> & Hd & ->).
  apply M_Cat_inv in H as (? & ? & ? & -> & Hs' & H).
  apply M_Star_class in Hs' as [_ ->].
  apply M_Cat_inv in H as (w2 & ? & ? & -> & H2 & H).
  apply M_Group_inv in H2 as (? & -> & H2).
  apply M_range_code in H2 as (_ & _ & ->).
  apply M_Cat_inv in H as (? & ? & ? & -> & Hp & H).
  apply M_Class_inv in Hp as (? & -> & _ & ->).
  apply M_Cat_inv in H as (? & ? & ? & -> & Hs' & H).
  apply M_Star_class in Hs' as [_ ->].
  apply M_Cat_inv in H as (w3 & ? & ? & -> & H3 & H).
  apply M_Group_inv in H3 as (? & -> & H3).
  apply M_nocap in H3 as ->; [|reflexivity].
  apply M_nocap in H as ->; [|reflexivity].
  eexists w1, w2, w3, sp, d, _. split; [reflexivity|].
  split; [rewrite <- !app_assoc; simpl; reflexivity|].
  repeat split; auto.
  apply orb_true_iff in Hd as [Hd|Hd]; apply Z.eqb_eq in Hd; auto.
Qed.

Lemma section_shape line c rest :
  re_match section_pattern line = Some (c, rest) ->
  exists u w2 tl,
    c = [(2%nat, w2); (1%nat, [u])]
    /\ line = u :: ch ")" :: tl /\ is_upper_AZ u = true.
Proof.
  intros H. apply re_match_sound in H as (w & -> & H).
  unfold section_pattern in H.
  apply M_Cat_inv in H as (w1 & ? & c1 & -> & H1 & H).
  apply M_Group_inv in H1 as (? & -> & H1).
  apply M_Class_inv in H1 as (u & -> & Hu & ->).
  apply M_Cat_inv in H as (? & ? & ? & -> & Hp & H).
  apply M_Class_inv in Hp as (p & -> & Hp & ->).
  apply Z.eqb_eq in Hp as <-.
  apply M_Cat_inv in H as (? & ? & ? & -> & Hs & H).
  apply M_Star_class in Hs as [_ ->].
  apply M_Cat_inv in H as (w2 & ? & ? & -> & H2 & H).
  apply M_Group_inv in H2 as (? & -> & H2).
  apply M_nocap in H2 as ->; [|reflexivity].
  apply M_nocap in H as ->; [|reflexivity].
  eexists u, w2, _. split; [reflexivity|]. split; [|assumption].
  simpl. reflexivity.
Qed.

(** ** The header patterns exclude one another *)

Lemma upper_not_decimal u : is_upper_AZ u = true -> is_decimal u = false.
Proof.
  intros H. destruct (is_decimal u) eqn:E; auto.
  apply is_decimal_range in E. unfold is_upper_AZ, in_range in H. lia.
Qed.

Lemma range_not_section line c rest :
  re_match range_pattern line = Some (c, rest) ->
  re_match section_pattern line = None.
Proof.
  intros H. destruct (re_match section_pattern line) as [[c' rest']|] eqn:E; auto.
  exfalso.
  apply range_shape in H as (w1 & _ & _ & sp & d & tl & _ & -> & Hh & _).
  apply section_shape in E as (u & _ & tl' & _ & E & Hu).
  destruct Hh as [(x & t & -> & Hx)|(x & y & t & -> & Hx & Hy)];
    simpl in E.
  - assert (x = u) as -> by congruence.
    apply upper_not_decimal in Hu. congruence.
  - assert (y = ch ")") as -> by congruence.
    now apply is_decimal_range in Hy as [?|?].
Qed.

Lemma first_outside {A} (K : A -> bool) a x t b y u :
  a ++ x :: t = b ++ y :: u ->
  Forall (fun z => K z = true) a -> Forall (fun z => K z = true) b ->
  K x = false -> K y = false -> a = b /\ x = y.
Proof.
  revert b. induction a as [|z a IH]; intros [|z' b] E Ha Hb Hx Hy;
    simpl in E.
  - split; congruence.
  - assert (x = z') as -> by congruence.
    inversion Hb; subst. congruence.
  - assert (z = y) as -> by congruence.
    inversion Ha; subst. congruence.
  - assert (z = z') as -> by congruence.
    assert (E' : a ++ x :: t = b ++ y :: u) by congruence.
    inversion Ha; inversion Hb; subst.
    destruct (IH b E') as [-> ->]; auto.
Qed.

Lemma space_not_code_char x : is_space x = true -> code_char x = false.
Proof.
  intros H. unfold code_char.
  destruct (is_decimal x) eqn:Ed.
  - apply is_decimal_not_space in Ed. congruence.
  - apply is_space_range in H as H'.
    assert (x <> 46) by (intros ->; discriminate).
    change (ch ".") with 46.
    unfold is_upper_AZ, in_range. simpl. lia.
Qed.

Lemma item_not_range line c rest :
  re_match item_pattern line = Some (c, rest) ->
  re_match range_pattern line = None.
Proof.
  intros H. destruct (re_match range_pattern line) as [[c' rest']|] eqn:E; auto.
  exfalso.
  apply item_shape in H as (w1 & _ & _ & tl & _ & -> & _ & Hk & _).
  apply range_shape in E as (v1 & _ & _ & sp & d & tl' & _ & E & _ & Hk' & Hs & Hd).
  destruct sp as [|s sp].
  - simpl in E. apply first_outside with (K := code_char) in E as [_ E]; auto.
    + destruct Hd; subst; discriminate.
    + destruct Hd; subst; reflexivity.
  - simpl in E. apply first_outside with (K := code_char) in E as [_ E]; auto.
    + inversion Hs; subst. discriminate.
    + inversion Hs; subst. now apply space_not_code_char.
Qed.

(** ** Reading point values *)

Arguments re_match : simpl never.
Arguments matches : simpl never.

Lemma digits_value_total s : all_decimal s ->
  forall acc, exists n, digits_value acc s = Some n.
Proof.
  induction 1 as [|x s Hx _ IH]; intros acc; simpl.
  - eauto.
  - unfold is_decimal in Hx. destruct (decimal_of x); [|discriminate]. apply IH.
Qed.

Lemma all_decimal_no_dot s : all_decimal s -> contains (ch ".") s = false.
Proof.
  induction 1 as [|x s Hx _ IH]; simpl; auto.
  rewrite IH, orb_false_r. unfold char_eqb.
  destruct (ch "." =? x) eqn:E; auto.
  apply Z.eqb_eq in E as <-. discriminate.
Qed.

Lemma split_once_dot ip fp :
  all_decimal ip -> split_once (ch ".") (ip ++ ch "." :: fp) = (ip, fp).
Proof.
  induction 1 as [|x s Hx _ IH]; simpl.
  - reflexivity.
  - destruct (x =? ch ".") eqn:E.
    + apply Z.eqb_eq in E as ->. discriminate.
    + now rewrite IH.
Qed.

Lemma contains_app c a b : contains c (a ++ b) = contains c a || contains c b.
Proof. unfold contains. apply existsb_app. Qed.

(** [float] never fails on a numeral: the value is the binary64 nearest
    to [n / 10^k] for the numeral's digits [n] and its [k] decimal
    places. *)
Lemma py_float_numeral tok :
  is_numeral tok ->
  exists n k, py_float tok = Ok (float_of_ratio n (Z.to_pos (10 ^ Z.of_nat k))).
Proof.
  intros (ip & fp & Hne & Hi & Hf & [[-> ->]|[Hfp ->]]); unfold py_float.
  - rewrite all_decimal_no_dot by assumption.
    rewrite app_nil_r.
    destruct (digits_value_total ip Hi 0) as [n Hn]. rewrite Hn.
    destruct ip; [congruence|]. exists n, 0%nat. reflexivity.
  - assert (Hc : contains (ch ".") (ip ++ ch "." :: fp) = true).
    { rewrite contains_app. apply orb_true_iff. right. reflexivity. }
    rewrite Hc, split_once_dot by assumption.
    assert (Ha : all_decimal (ip ++ fp)) by (apply Forall_app; auto).
    destruct (digits_value_total _ Ha 0) as [n Hn]. rewrite Hn.
    destruct ip; [congruence|]. exists n, (length fp). reflexivity.
Qed.

Lemma grp3_item c w1 w2 w3 :
  c = [(3%nat, w3); (2%nat, w2); (1%nat, w1)] ->
  grp 1 c = w1 /\ grp 2 c = w2 /\ grp 3 c = w3.
Proof. intros ->. auto. Qed.

Lemma record_item_ok st line c r dl :
  re_match item_pattern line = Some (c, r) ->
  exists points,
    py_float (grp 3 c) = Ok points
    /\ record_item st c dl =
       Ok (add_item st {| code := grp 1 c; description := strip (grp 2 c);
                          max_points := points;
                          details := details_text dl |}).
Proof.
  intros H. apply item_shape in H as (w1 & w2 & w3 & tl & Hc & _ & _ & _ & Hn).
  apply grp3_item in Hc as (_ & _ & Hc).
  apply py_float_numeral in Hn as (n & k & Hn).
  unfold record_item. rewrite Hc, Hn.
  eexists. split; reflexivity.
Qed.

(** ** The detail loop *)

Lemma take_details_suffix stop lines : forall dl,
  exists p,
    lines = p ++ snd (take_details stop dl lines)
    /\ Forall (fun l => strip l = [] \/ stop (strip l) = false) p
    /\ (snd (take_details stop dl lines) = []
        \/ exists l r, snd (take_details stop dl lines) = l :: r
                       /\ strip l <> [] /\ stop (strip l) = true).
Proof.
  induction lines as [|l rest IH]; intros dl; simpl.
  - exists []. auto.
  - destruct (strip l) as [|x y] eqn:E; simpl.
    + destruct (IH (if ends_nonblank dl then dl ++ [[]] else dl))
        as (p & Hp & Hf & Hs).
      exists (l :: p). split; [simpl; now f_equal|].
      split; [constructor; auto|assumption].
    + destruct (stop (x :: y)) eqn:Es; simpl.
      * exists []. split; [reflexivity|]. split; [constructor|].
        right. exists l, rest. rewrite E. repeat split; auto; discriminate.
      * destruct (IH (dl ++ [x :: y])) as (p & Hp & Hf & Hs).
        exists (l :: p). split; [simpl; now f_equal|].
        split; [constructor; [right; now rewrite E|assumption]|assumption].
Qed.

Lemma take_details_length stop dl lines :
  (length (snd (take_details stop dl lines)) <= length lines)%nat.
Proof.
  destruct (take_details_suffix stop lines dl) as (p & Hp & _).
  rewrite Hp at 2. rewrite length_app. lia.
Qed.

Lemma take_details_incl stop dl lines x :
  In x (snd (take_details stop dl lines)) -> In x lines.
Proof.
  destruct (take_details_suffix stop lines dl) as (p & Hp & _).
  intros H. rewrite Hp. apply in_or_app. auto.
Qed.

(** ** One iteration *)

Lemma matches_false r s : matches r s = false <-> re_match r s = None.
Proof. unfold matches. destruct (re_match r s); split; congruence. Qed.

Lemma matches_true r s :
  matches r s = true <-> exists c t, re_match r s = Some (c, t).
Proof.
  unfold matches. destruct (re_match r s) as [[c t]|]; split; eauto;
    try congruence. intros (? & ? & ?). congruence.
Qed.

(** The five ways an iteration can go. *)
Lemma iteration_cases st l rest :
  (strip l = [] /\ iteration st l rest = Ok (st, rest))
  \/ (strip l <> [] /\ exists c r,
        re_match section_pattern (strip l) = Some (c, r)
        /\ re_match item_pattern (strip l) = None
        /\ iteration st l rest = Ok (enter_section st c, rest))
  \/ (strip l <> [] /\ exists c r,
        re_match range_pattern (strip l) = Some (c, r)
        /\ iteration st l rest =
           Ok (enter_range st c (fst (take_details range_stop [] rest)),
               snd (take_details range_stop [] rest)))
  \/ (strip l <> [] /\ exists c r,
        re_match item_pattern (strip l) = Some (c, r)
        /\ iteration st l rest =
           (st' <- record_item (claim_pending st) c
                     (fst (take_details item_stop [] rest)) ;;
            Ok (st', snd (take_details item_stop [] rest))))
  \/ (strip l <> []
      /\ re_match section_pattern (strip l) = None
      /\ re_match range_pattern (strip l) = None
      /\ re_match item_pattern (strip l) = None
      /\ iteration st l rest = Ok (absorb_line st (strip l), rest)).
Proof.
  unfold iteration.
  destruct (strip l) as [|x y] eqn:E; [left; auto|].
  right. simpl is_empty. cbv iota.
  set (line := x :: y).
  assert (Hne : line <> []) by discriminate.
  destruct (re_match item_pattern line) as [[ci ri]|] eqn:Ei.
  - assert (Hm : matches item_pattern line = true)
      by (apply matches_true; eauto).
    rewrite Hm. rewrite (item_not_range _ _ _ Ei).
    right. right. left. split; [assumption|]. exists ci, ri.
    split; [reflexivity|].
    destruct (re_match section_pattern line) as [[? ?]|];
      destruct (take_details item_stop [] rest); reflexivity.
  - assert (Hm : matches item_pattern line = false)
      by (now apply matches_false).
    rewrite Hm.
    destruct (re_match section_pattern line) as [[cs rs]|] eqn:Es.
    + left. split; [assumption|]. exists cs, rs. auto.
    + right. destruct (re_match range_pattern line) as [[cr rr]|] eqn:Er.
      * left. split; [assumption|]. exists cr, rr. split; [reflexivity|].
        destruct (take_details range_stop [] rest); reflexivity.
      * right. right. auto.
Qed.

Lemma iteration_ok st l rest :
  exists st' rest',
    iteration st l rest = Ok (st', rest')
    /\ (length rest' <= length rest)%nat
    /\ (forall x, In x rest' -> In x rest).
Proof.
  destruct (iteration_cases st l rest)
    as [[_ H]|[(_ & c & r & _ & _ & H)|[(_ & c & r & _ & H)|
        [(_ & c & r & Hi & H)|(_ & _ & _ & _ & H)]]]]; rewrite H.
  - eauto.
  - eauto.
  - eexists _, _. split; [reflexivity|].
    split; [apply take_details_length|apply take_details_incl].
  - destruct (record_item_ok (claim_pending st) _ _ _
                (fst (take_details item_stop [] rest)) Hi) as (pts & _ & ->).
    eexists _, _. split; [reflexivity|].
    split; [apply take_details_length|apply take_details_incl].
  - eauto.
Qed.

(** ** The loop *)

Lemma parse_loop_fuel f1 : forall f2 st lines,
  (length lines <= f1)%nat -> (length lines <= f2)%nat ->
  parse_loop f1 st lines = parse_loop f2 st lines.
Proof.
  induction f1 as [|f1 IH]; intros f2 st [|l rest] H1 H2; simpl in *;
    try lia; try (destruct f2; reflexivity).
  destruct f2 as [|f2]; [lia|]. simpl.
  destruct (iteration_ok st l rest) as (st' & rest' & -> & Hl & _).
  simpl. apply IH; lia.
Qed.

Lemma parse_lines_nil st : parse_lines st [] = Ok st.
Proof. reflexivity. Qed.

Lemma parse_lines_cons st l rest :
  exists st' rest',
    iteration st l rest = Ok (st', rest')
    /\ (length rest' <= length rest)%nat
    /\ (forall x, In x rest' -> In x rest)
    /\ parse_lines st (l :: rest) = parse_lines st' rest'.
Proof.
  destruct (iteration_ok st l rest) as (st' & rest' & H & Hl & Hi).
  exists st', rest'. repeat split; auto.
  unfold parse_lines. simpl. rewrite H. simpl.
  apply parse_loop_fuel; lia.
Qed.

(** The loop ends for every input, and with a state. *)
Lemma parse_lines_ok lines : forall st, exists st', parse_lines st lines = Ok st'.
Proof.
  remember (length lines) as n eqn:En.
  assert (Hn : (length lines <= n)%nat) by lia. clear En.
  revert lines Hn. induction n as [|n IH]; intros [|l rest] Hn st;
    simpl in Hn; try (eexists; reflexivity); try lia.
  destruct (parse_lines_cons st l rest) as (st1 & rest1 & _ & Hl & _ & ->).
  apply IH. lia.
Qed.

(** Induction along the iterations of the loop. *)
Lemma parse_lines_ind (P : pstate -> list str -> pstate -> Prop) :
  (forall st, P st [] st) ->
  (forall st l rest st1 rest1 st',
     iteration st l rest = Ok (st1, rest1) ->
     (forall x, In x rest1 -> In x rest) ->
     parse_lines st1 rest1 = Ok st' ->
     P st1 rest1 st' -> P st (l :: rest) st') ->
  forall lines st st', parse_lines st lines = Ok st' -> P st lines st'.
Proof.
  intros Hnil Hcons lines.
  remember (length lines) as n eqn:En.
  assert (Hn : (length lines <= n)%nat) by lia. clear En.
  revert lines Hn. induction n as [|n IH]; intros [|l rest] Hn st st' H;
    simpl in Hn; try lia.
  - rewrite parse_lines_nil in H. injection H as <-. apply Hnil.
  - rewrite parse_lines_nil in H. injection H as <-. apply Hnil.
  - destruct (parse_lines_cons st l rest) as (st1 & rest1 & Hit & Hl & Hin & E).
    rewrite E in H. eapply Hcons; eauto. apply IH; auto. lia.
Qed.

(** ** Prose lines *)

Lemma take_details_snoc stop line : 
  strip line <> [] -> stop (strip line) = false ->
  forall lines dl,
    take_details stop dl (lines ++ [line]) =
    match snd (take_details stop dl lines) with
    | [] => (fst (take_details stop dl lines) ++ [strip line], [])
    | rest => (fst (take_details stop dl lines), rest ++ [line])
    end.
Proof.
  intros Hne Hs. induction lines as [|l rest IH]; intros dl; simpl.
  - destruct (strip line) eqn:E; [congruence|]. simpl. now rewrite Hs.
  - destruct (is_empty (strip l)); [apply IH|].
    destruct (stop (strip l)); [reflexivity|apply IH].
Qed.

Lemma nonempty_app a b : nonempty (a ++ b) = nonempty a ++ nonempty b.
Proof. unfold nonempty. apply List.filter_app. Qed.

Lemma join_snoc sep a x : ends_with (join sep (a ++ [x])) x.
Proof.
  unfold ends_with.
  induction a as [|y a [p IH]]; simpl.
  - now exists [].
  - destruct (a ++ [x]) eqn:E.
    + destruct a; discriminate.
    + rewrite IH. exists (y ++ sep ++ p). now rewrite <- !app_assoc.
Qed.

Lemma details_text_snoc dl line :
  strip line <> [] -> ends_with (details_text (dl ++ [strip line])) (strip line).
Proof.
  intros Hne. unfold details_text. rewrite nonempty_app.
  assert (E : nonempty [strip line] = [strip line]).
  { simpl. destruct (strip line); [congruence|reflexivity]. }
  rewrite E.
  destruct (join_snoc [LF] (nonempty dl) (strip line)) as [p ->].
  apply strip_keeps_ending; auto. apply strip_trimmed.
Qed.

Lemma iteration_plain st l rest :
  strip l <> [] -> plain (strip l) ->
  iteration st l rest = Ok (absorb_line st (strip l), rest).
Proof.
  intros Hne (Hs & Hr & Hi).
  destruct (iteration_cases st l rest)
    as [[E _]|[(_ & c & r & E & _)|[(_ & c & r & E & _)|
        [(_ & c & r & E & _)|(_ & _ & _ & _ & H)]]]]; congruence.
Qed.

Lemma plain_not_stops x : plain x -> range_stop x = false /\ item_stop x = false.
Proof.
  intros (Hs & Hr & Hi). unfold range_stop, item_stop.
  apply matches_false in Hs, Hr, Hi. now rewrite Hs, Hr, Hi.
Qed.

(** With no header at all, every line goes to the preamble. *)
Lemma parse_lines_plain lines : forall st,
  seen_any_item st = false ->
  Forall (fun l => plain (strip l)) lines ->
  exists st',
    parse_lines st lines = Ok st'
    /\ items st' = items st /\ sections st' = sections st
    /\ range_blocks st' = range_blocks st
    /\ inherited_scoring st' = inherited_scoring st
    /\ preamble_lines st' = preamble_lines st ++ nonempty (map strip lines).
Proof.
  induction lines as [|l rest IH]; intros st Hseen Hall.
  - exists st. rewrite parse_lines_nil. simpl. rewrite app_nil_r. auto 7.
  - inversion Hall as [|? ? Hl Hrest]; subst.
    destruct (parse_lines_cons st l rest) as (st1 & r1 & Hit & _ & _ & E).
    rewrite E. clear E.
    destruct (strip l) as [|x y] eqn:El.
    + destruct (iteration_cases st l rest)
        as [[_ H]|[(N & _)|[(N & _)|[(N & _)|(N & _)]]]]; try congruence.
      rewrite H in Hit. injection Hit as <- <-.
      simpl. rewrite El. simpl. now apply IH.
    + assert (Hne : strip l <> []) by (rewrite El; discriminate).
      rewrite <- El in Hl.
      rewrite (iteration_plain st l rest Hne Hl) in Hit.
      injection Hit as <- <-.
      destruct (IH (absorb_line st (strip l))) as (st' & -> & H1 & H2 & H3 & H4 & H5);
        auto.
      { unfold absorb_line. rewrite Hseen. reflexivity. }
      exists st'. split; [reflexivity|].
      unfold absorb_line in *. rewrite Hseen in *. simpl in *.
      rewrite El in *. simpl. rewrite <- app_assoc in H5. auto 7.
Qed.

(** [parse_rubric_items] returns for every text. *)
Lemma parse_rubric_items_ok text : exists r, parse_rubric_items text = Ok r.
Proof.
  unfold parse_rubric_items.
  destruct (parse_lines_ok (text_lines text) initial) as [st ->].
  eexists. reflexivity.
Qed.

(** ** C5: the parser is total, and where prose goes *)

Ltac by_computation := vm_compute; first [reflexivity | discriminate | tauto].

(** C5, as the claim states it, fails: after a recognized item header a
    line that matches no header pattern is read into the details of that
    item; it reaches neither the preamble nor the pending ungrouped
    block. *)
Lemma prose_after_item_header_is_a_detail :
  let lines := text_lines (lit "A1) Foo (5 points)" ++ [LF] ++ lit "plain") in
  plain (lit "plain")
  /\ exists st,
       parse_lines initial lines = Ok st
       /\ seen_any_item st = true
       /\ ~ In (lit "plain") (preamble_lines st)
       /\ ~ In (lit "plain") (pending_group_lines st)
       /\ map details (items st) = [lit "plain"].
Proof.
  split; [repeat split; by_computation|].
  destruct (parse_lines_ok
              (text_lines (lit "A1) Foo (5 points)" ++ [LF] ++ lit "plain"))
              initial) as [st H].
  exists st. split; [exact H|].
  vm_compute in H. injection H as <-. simpl.
  repeat split; try by_computation; intros [].
Qed.

(** ** What an iteration records *)

Lemma claim_pending_items st : items (claim_pending st) = items st.
Proof.
  unfold claim_pending. destruct (pending_group_has_scores st); [|reflexivity].
  destruct (_extract_score_bullets _); reflexivity.
Qed.

Lemma claim_pending_range_blocks st :
  range_blocks (claim_pending st) = range_blocks st.
Proof.
  unfold claim_pending. destruct (pending_group_has_scores st); [|reflexivity].
  destruct (_extract_score_bullets _); reflexivity.
Qed.

Lemma absorb_line_items st x : items (absorb_line st x) = items st.
Proof. unfold absorb_line. now destruct (seen_any_item st). Qed.

Lemma absorb_line_range_blocks st x :
  range_blocks (absorb_line st x) = range_blocks st.
Proof. unfold absorb_line. now destruct (seen_any_item st). Qed.

(** An iteration leaves the items alone or appends the item of a header
    line. *)
Lemma iteration_items st l rest st1 rest1 :
  iteration st l rest = Ok (st1, rest1) ->
  items st1 = items st
  \/ exists c r pts dl,
       re_match item_pattern (strip l) = Some (c, r)
       /\ is_numeral (grp 3 c)
       /\ py_float (grp 3 c) = Ok pts
       /\ items st1 = items st ++
            [{| code := grp 1 c; description := strip (grp 2 c);
                max_points := pts; details := details_text dl |}].
Proof.
  intros Hit.
  destruct (iteration_cases st l rest)
    as [[_ H]|[(_ & c & r & _ & _ & H)|[(_ & c & r & _ & H)|
        [(_ & c & r & Hi & H)|(_ & _ & _ & _ & H)]]]];
    rewrite H in Hit; clear H.
  - injection Hit as <- _. auto.
  - injection Hit as <- _. auto.
  - injection Hit as <- _. auto.
  - destruct (record_item_ok (claim_pending st) _ _ _
                (fst (take_details item_stop [] rest)) Hi) as (pts & Hf & Hrec).
    rewrite Hrec in Hit. simpl in Hit. injection Hit as <- _.
    right. exists c, r, pts, (fst (take_details item_stop [] rest)).
    repeat split; auto.
    + pose proof Hi as Hs.
      apply item_shape in Hs as (w1 & w2 & w3 & tl & Hc & _ & _ & _ & Hn).
      apply grp3_item in Hc as (_ & _ & ->). assumption.
    + simpl. now rewrite claim_pending_items.
  - injection Hit as <- _. left. apply absorb_line_items.
Qed.

(** An iteration leaves the range blocks alone or appends the block of a
    range header line. *)
Lemma iteration_range_blocks st l rest st1 rest1 :
  iteration st l rest = Ok (st1, rest1) ->
  range_blocks st1 = range_blocks st
  \/ exists c r hd dl,
       re_match range_pattern (strip l) = Some (c, r)
       /\ range_blocks st1 = range_blocks st ++
            [{| start_code := grp 1 c;
                end_code := range_end_code (grp 1 c) (grp 2 c);
                header := hd; range_details := details_text dl |}].
Proof.
  intros Hit.
  destruct (iteration_cases st l rest)
    as [[_ H]|[(_ & c & r & _ & _ & H)|[(_ & c & r & Hr & H)|
        [(_ & c & r & Hi & H)|(_ & _ & _ & _ & H)]]]];
    rewrite H in Hit; clear H.
  - injection Hit as <- _. auto.
  - injection Hit as <- _. auto.
  - injection Hit as <- _. right. eexists c, r, _, _.
    split; [assumption|]. reflexivity.
  - destruct (record_item_ok (claim_pending st) _ _ _
                (fst (take_details item_stop [] rest)) Hi) as (pts & Hf & Hrec).
    rewrite Hrec in Hit. simpl in Hit. injection Hit as <- _.
    left. simpl. apply claim_pending_range_blocks.
  - injection Hit as <- _. left. apply absorb_line_range_blocks.
Qed.

Lemma starts_upper_spec s :
  starts_upper s = true <-> exists L s', s = L :: s' /\ is_upper_AZ L = true.
Proof.
  unfold starts_upper, matches, re_match, upper. simpl.
  destruct s as [|x s'].
  - split; [discriminate|]. intros (? & ? & ? & _). discriminate.
  - destruct (is_upper_AZ x) eqn:E.
    + split; eauto.
    + split; [discriminate|]. intros (? & ? & [= -> ->] & ?). congruence.
Qed.

Lemma range_end_code_letter s e :
  starts_upper s = true -> starts_upper e = false ->
  exists L s', s = L :: s' /\ is_upper_AZ L = true
               /\ range_end_code s e = L :: e.
Proof.
  intros Hs He. unfold range_end_code. rewrite Hs, He. simpl.
  apply starts_upper_spec in Hs as (L & s' & -> & HL). eauto.
Qed.

Lemma items_from_headers all lines st st' :
  parse_lines st lines = Ok st' ->
  (forall x, In x lines -> In x all) ->
  Forall (item_from_header all) (items st) ->
  Forall (item_from_header all) (items st').
Proof.
  intros H. revert lines st st' H.
  apply (parse_lines_ind (fun st lines st' =>
    (forall x, In x lines -> In x all) ->
    Forall (item_from_header all) (items st) ->
    Forall (item_from_header all) (items st'))).
  - auto.
  - intros st l rest st1 rest1 st' Hit Hin _ IH Hall Hst.
    apply IH; [intros x Hx; apply Hall; right; auto|].
    apply iteration_items in Hit as [->|(c & r & pts & dl & Hm & Hn & Hf & ->)];
      [assumption|].
    apply Forall_app. split; [assumption|]. constructor; [|constructor].
    exists l, c, r. simpl. split; [apply Hall; now left|]. auto.
Qed.

Lemma blocks_from_headers all lines st st' :
  parse_lines st lines = Ok st' ->
  (forall x, In x lines -> In x all) ->
  Forall (block_from_header all) (range_blocks st) ->
  Forall (block_from_header all) (range_blocks st').
Proof.
  intros H. revert lines st st' H.
  apply (parse_lines_ind (fun st lines st' =>
    (forall x, In x lines -> In x all) ->
    Forall (block_from_header all) (range_blocks st) ->
    Forall (block_from_header all) (range_blocks st'))).
  - auto.
  - intros st l rest st1 rest1 st' Hit Hin _ IH Hall Hst.
    apply IH; [intros x Hx; apply Hall; right; auto|].
    apply iteration_range_blocks in Hit as [->|(c & r & hd & dl & Hm & ->)];
      [assumption|].
    apply Forall_app. split; [assumption|]. constructor; [|constructor].
    exists l, c, r. simpl. split; [apply Hall; now left|].
    split; [assumption|]. split; [reflexivity|].
    apply range_end_code_letter.
Qed.

(** The loop only ever appends to the range blocks. *)
Lemma range_blocks_grow lines st st' :
  parse_lines st lines = Ok st' ->
  exists more, range_blocks st' = range_blocks st ++ more.
Proof.
  revert lines st st'.
  apply (parse_lines_ind (fun st lines st' =>
    exists more, range_blocks st' = range_blocks st ++ more)).
  - intros st. exists []. now rewrite app_nil_r.
  - intros st l rest st1 rest1 st' Hit _ _ [more ->].
    apply iteration_range_blocks in Hit as [->|(c & r & hd & dl & Hm & ->)].
    + eauto.
    + rewrite <- app_assoc. eauto.
Qed.

(** ** C3: point values *)

(** C3, as the claim states it, fails: a header whose point value has
    two decimal places is accepted as an item with that value, and ten
    times the value is not a whole number. *)
Lemma quarter_points_are_accepted :
  exists r it,
    parse_rubric_items (lit "A1) Foo (2.25 points)") = Ok r
    /\ p_items r = [it]
    /\ code it = lit "A1"
    /\ format_g (max_points it) = lit "2.25"
    /\ one_decimal_place (max_points it) = false.
Proof.
  destruct (parse_rubric_items_ok (lit "A1) Foo (2.25 points)"))
    as [r H].
  exists r. vm_compute in H. injection H as <-.
  eexists. split; [by_computation|]. split; [reflexivity|].
  repeat split; by_computation.
Qed.

(** C3 (amended): every item [parse_rubric_items] produces comes from a
    header line, and its [max_points] is the float of the parenthesized
    token of that line, an unsigned decimal numeral: digits, then
    possibly a point and one or more digits, with no bound on the number
    of decimal places. *)
Theorem max_points_is_a_decimal_numeral text :
  exists r,
    parse_rubric_items text = Ok r
    /\ Forall (item_from_header (text_lines text)) (p_items r).
Proof.
  unfold parse_rubric_items.
  destruct (parse_lines_ok (text_lines text) initial) as [st H].
  rewrite H. eexists. split; [reflexivity|]. simpl.
  eapply items_from_headers; eauto.
Qed.

(** ** C7: the end code of a range inherits the letter of its start *)

(** C7: every range block [parse_rubric_items] records comes from a line
    that matches the range-header pattern, and when the matched start
    code begins with a capital letter and the matched end code does not,
    the block's end code is that letter followed by the matched end code.
    A range header at the top of the text is recorded so, and the line
    [A1-3) Title] gives the block from [A1] to [A3]. *)
Theorem range_end_code_inherits_letter :
  (forall text,
     exists r,
       parse_rubric_items text = Ok r
       /\ Forall (block_from_header (text_lines text)) (p_range_blocks r))
  /\ (forall text l rest c t,
        text_lines text = l :: rest ->
        re_match range_pattern (strip l) = Some (c, t) ->
        starts_upper (grp 1 c) = true -> starts_upper (grp 2 c) = false ->
        exists r b bs L s',
          parse_rubric_items text = Ok r
          /\ p_range_blocks r = b :: bs
          /\ grp 1 c = L :: s' /\ is_upper_AZ L = true
          /\ start_code b = L :: s' /\ end_code b = L :: grp 2 c)
  /\ (exists r b,
        parse_rubric_items (lit "A1-3) Title") = Ok r
        /\ p_range_blocks r = [b]
        /\ start_code b = lit "A1" /\ end_code b = lit "A3").
Proof.
  split; [|split].
  - intros text. unfold parse_rubric_items.
    destruct (parse_lines_ok (text_lines text) initial) as [st H].
    rewrite H. eexists. split; [reflexivity|]. simpl.
    eapply blocks_from_headers; eauto.
  - intros text l rest c t Hl Hm Hs He.
    unfold parse_rubric_items. rewrite Hl.
    destruct (parse_lines_cons initial l rest) as (st1 & r1 & Hit & _ & _ & E).
    rewrite E. clear E.
    destruct (parse_lines_ok r1 st1) as [st' H]. rewrite H.
    apply range_blocks_grow in H as [more H].
    assert (Hne : strip l <> []).
    { apply range_shape in Hm as (? & ? & ? & ? & ? & ? & _ & E & Hh & _).
      rewrite E. destruct Hh as [(? & ? & -> & _)|(? & ? & ? & -> & _)];
        discriminate. }
    destruct (iteration_cases initial l rest)
      as [[N _]|[(_ & c' & r & N & _)|[(_ & c' & r & Hr & H')|
          [(_ & c' & r & N & _)|(_ & _ & N & _)]]]]; try congruence.
    + apply range_not_section in Hm. congruence.
    + rewrite H' in Hit. injection Hit as <- _. simpl in H.
      assert (c' = c) as -> by congruence.
      destruct (range_end_code_letter _ _ Hs He) as (L & s' & E1 & HL & E2).
      eexists _, _, more, L, s'. split; [reflexivity|].
      simpl. split; [exact H|]. simpl. rewrite E2. auto.
    + apply item_not_range in N. congruence.
  - destruct (parse_rubric_items_ok (lit "A1-3) Title")) as [r H].
    exists r. vm_compute in H. injection H as <-.
    eexists. repeat split.
Qed.

Lemma range_end_code_inherits_letter_witness :
  exists r b bs L s',
    parse_rubric_items (lit "B2 - 14) Style" ++ [LF] ++ lit "shared notes")
      = Ok r
    /\ p_range_blocks r = b :: bs
    /\ lit "B2" = L :: s' /\ is_upper_AZ L = true
    /\ start_code b = L :: s' /\ end_code b = L :: lit "14".
Proof.
  destruct range_end_code_inherits_letter as (_ & H & _).
  apply (H (lit "B2 - 14) Style" ++ [LF] ++ lit "shared notes")
           (lit "B2 - 14) Style") [lit "shared notes"]
           [(3%nat, lit "Style"); (2%nat, lit "14"); (1%nat, lit "B2")] []);
    vm_compute; reflexivity.
Defined.

(** ** C4: the details of a range block *)

Lemma nonempty_snoc_blank dl : nonempty (dl ++ [[]]) = nonempty dl.
Proof. rewrite nonempty_app. simpl. apply app_nil_r. Qed.

Lemma take_details_all stop body :
  Forall (fun l => strip l = [] \/ stop (strip l) = false) body ->
  forall dl,
    snd (take_details stop dl body) = []
    /\ nonempty (fst (take_details stop dl body))
       = nonempty dl ++ nonempty (map strip body).
Proof.
  induction 1 as [|l body Hl _ IH]; intros dl; simpl.
  - now rewrite app_nil_r.
  - destruct (strip l) as [|x y] eqn:E; simpl.
    + destruct (IH (if ends_nonblank dl then dl ++ [[]] else dl)) as [E1 E2].
      split; [exact E1|]. etransitivity; [exact E2|].
      destruct (ends_nonblank dl); [now rewrite nonempty_snoc_blank|reflexivity].
    + destruct Hl as [Hl|Hl]; [discriminate|]. rewrite Hl.
      destruct (IH (dl ++ [x :: y])) as [E1 E2].
      split; [exact E1|]. etransitivity; [exact E2|].
      rewrite nonempty_app. simpl. now rewrite <- app_assoc.
Qed.

Lemma nonempty_strip_trimmed lines :
  Forall (fun x => x <> [] /\ trimmed x) (nonempty (map strip lines)).
Proof.
  induction lines as [|l lines IH]; simpl; [constructor|].
  destruct (strip l) eqn:E; simpl; [assumption|].
  constructor; [|assumption]. rewrite <- E. split.
  - rewrite E. discriminate.
  - apply strip_trimmed.
Qed.

Lemma join_trimmed sep xs :
  Forall (fun x => x <> [] /\ trimmed x) xs -> trimmed (join sep xs).
Proof.
  intros H. split.
  - intros c t E. destruct H as [|x xs' [Hne [Hh _]] _]; [discriminate|].
    destruct x as [|d x']; [congruence|].
    assert (c = d) as ->
      by (simpl in E; destruct xs'; simpl in E; congruence).
    now apply (Hh d x').
  - intros t c E.
    destruct (exists_last (l := xs)) as (ys & y & ->).
    { intros ->. destruct t; discriminate. }
    apply Forall_app in H as [_ Hy]. inversion Hy as [|? ? [Hne [_ Hl]] _]; subst.
    destruct (join_snoc sep ys y) as [p Hp].
    pose proof (eq_trans (eq_sym Hp) E) as E'.
    destruct (exists_last Hne) as (u & d & ->).
    rewrite app_assoc in E'. apply app_inj_tail in E' as [_ <-].
    eapply Hl. reflexivity.
Qed.

Lemma details_text_all stop body :
  Forall (fun l => strip l = [] \/ stop (strip l) = false) body ->
  details_text (fst (take_details stop [] body))
  = join [LF] (nonempty (map strip body)).
Proof.
  intros H. unfold details_text.
  destruct (take_details_all stop body H []) as [_ ->]. simpl.
  apply strip_of_trimmed, join_trimmed, nonempty_strip_trimmed.
Qed.

Lemma range_match_nonempty line c t :
  re_match range_pattern line = Some (c, t) -> line <> [].
Proof.
  intros H. apply range_shape in H as (? & ? & ? & ? & ? & ? & _ & E & Hh & _).
  rewrite E. destruct Hh as [(? & ? & -> & _)|(? & ? & ? & -> & _)];
    discriminate.
Qed.

Lemma item_match_nonempty line c t :
  re_match item_pattern line = Some (c, t) -> line <> [].
Proof.
  intros H. apply item_shape in H as (w1 & ? & ? & ? & _ & -> & _).
  destruct w1; discriminate.
Qed.

Lemma section_match_nonempty line c t :
  re_match section_pattern line = Some (c, t) -> line <> [].
Proof.
  intros H. apply section_shape in H as (? & ? & ? & _ & -> & _). discriminate.
Qed.

(** What an iteration does at a range header. *)
Lemma iteration_range st l rest c t :
  re_match range_pattern (strip l) = Some (c, t) ->
  iteration st l rest =
  Ok (enter_range st c (fst (take_details range_stop [] rest)),
      snd (take_details range_stop [] rest)).
Proof.
  intros Hm. pose proof (range_match_nonempty _ _ _ Hm) as Hne.
  destruct (iteration_cases st l rest)
    as [[N _]|[(_ & c' & r & N & _)|[(_ & c' & r & Hr & H')|
        [(_ & c' & r & N & _)|(_ & _ & N & _)]]]].
  - contradiction.
  - apply range_not_section in Hm. congruence.
  - assert (c' = c) as -> by congruence. exact H'.
  - apply item_not_range in N. congruence.
  - congruence.
Qed.

(** C4, as the claim states it, fails: the blank lines between [foo] and
    [bar] leave no blank separator in the stored details. *)
Lemma range_details_keep_no_blank_line :
  exists r b,
    parse_rubric_items
      (lit "A1-A3) Title" ++ [LF] ++ lit "foo" ++ [LF; LF; LF] ++ lit "bar")
      = Ok r
    /\ p_range_blocks r = [b]
    /\ range_details b = lit "foo" ++ [LF] ++ lit "bar"
    /\ range_details b <> lit "foo" ++ [LF; LF] ++ lit "bar".
Proof.
  match goal with
  | |- exists r b, parse_rubric_items ?t = _ /\ _ =>
      destruct (parse_rubric_items_ok t) as [r H]
  end.
  exists r. vm_compute in H. injection H as <-.
  eexists. repeat split. by_computation.
Qed.

Lemma take_details_body stop body rest :
  body_lines stop body -> body_end stop rest ->
  forall dl,
    take_details stop dl (body ++ rest)
    = (fst (take_details stop dl body), rest).
Proof.
  intros Hb Hr. induction Hb as [|l body Hl _ IH]; intros dl.
  - destruct Hr as [->|(l & r & -> & Hne & Hs)]; [reflexivity|].
    simpl. destruct (strip l); [contradiction|]. simpl. now rewrite Hs.
  - simpl. destruct (strip l) as [|x y] eqn:E; simpl.
    + apply IH.
    + destruct Hl as [Hl|Hl]; [discriminate|]. rewrite Hl. apply IH.
Qed.

(** The detail loop reads exactly a body, and stops at its end. *)
Lemma take_details_reads_body stop rest :
  exists body rest1,
    rest = body ++ rest1
    /\ body_lines stop body /\ body_end stop rest1
    /\ take_details stop [] rest = (fst (take_details stop [] body), rest1).
Proof.
  destruct (take_details_suffix stop rest []) as (p & Hp & Hf & He).
  exists p, (snd (take_details stop [] rest)).
  split; [assumption|]. split; [assumption|]. split; [assumption|].
  rewrite Hp at 1. now apply take_details_body.
Qed.

(** An iteration leaves the range blocks alone or appends the block of a
    range header and of the body after it; the lines it leaves are a
    suffix of those it was given. *)
Lemma iteration_range_body st l rest st1 rest1 :
  iteration st l rest = Ok (st1, rest1) ->
  exists body,
    rest = body ++ rest1
    /\ (range_blocks st1 = range_blocks st
        \/ exists c t b,
             re_match range_pattern (strip l) = Some (c, t)
             /\ body_lines range_stop body /\ body_end range_stop rest1
             /\ start_code b = grp 1 c
             /\ range_details b = join [LF] (nonempty (map strip body))
             /\ range_blocks st1 = range_blocks st ++ [b]).
Proof.
  intros Hit.
  destruct (iteration_cases st l rest)
    as [[_ H]|[(_ & c & r & _ & _ & H)|[(_ & c & r & Hr & H)|
        [(_ & c & r & Hi & H)|(_ & _ & _ & _ & H)]]]];
    rewrite H in Hit; clear H.
  - injection Hit as <- <-. exists []. auto.
  - injection Hit as <- <-. exists []. auto.
  - destruct (take_details_reads_body range_stop rest)
      as (body & rest' & E & Hb & He & Htd).
    rewrite Htd in Hit. injection Hit as <- <-.
    exists body. split; [assumption|]. right.
    exists c, r,
      {| start_code := grp 1 c;
         end_code := range_end_code (grp 1 c) (grp 2 c);
         header := grp 1 c ++ [EN_DASH]
                   ++ range_end_code (grp 1 c) (grp 2 c) ++ lit ") "
                   ++ strip (grp 3 c);
         range_details :=
           details_text (fst (take_details range_stop [] body)) |}.
    split; [assumption|]. split; [assumption|].
    split; [assumption|]. split; [reflexivity|].
    split; [|reflexivity]. simpl. now apply details_text_all.
  - destruct (record_item_ok (claim_pending st) _ _ _
                (fst (take_details item_stop [] rest)) Hi) as (pts & _ & Hrec).
    rewrite Hrec in Hit. simpl in Hit. injection Hit as <- <-.
    destruct (take_details_suffix item_stop rest []) as (p & Hp & _).
    exists p. split; [assumption|]. left. simpl.
    apply claim_pending_range_blocks.
  - injection Hit as <- <-. exists []. split; [reflexivity|].
    left. apply absorb_line_range_blocks.
Qed.

Lemma blocks_from_bodies all lines st st' :
  parse_lines st lines = Ok st' ->
  forall pre,
    all = pre ++ lines ->
    Forall (block_from_body all) (range_blocks st) ->
    Forall (block_from_body all) (range_blocks st').
Proof.
  intros H. revert lines st st' H.
  apply (parse_lines_ind (fun st lines st' =>
    forall pre, all = pre ++ lines ->
    Forall (block_from_body all) (range_blocks st) ->
    Forall (block_from_body all) (range_blocks st'))).
  - auto.
  - intros st l rest st1 rest1 st' Hit _ _ IH pre Hall Hst.
    apply iteration_range_body in Hit as (body & Hrest & Hblocks).
    apply (IH (pre ++ l :: body)).
    { rewrite Hall, Hrest, <- app_assoc. reflexivity. }
    destruct Hblocks as [->|(c & t & b & Hm & Hb & He & Hs & Hd & ->)];
      [assumption|].
    apply Forall_app. split; [assumption|]. constructor; [|constructor].
    exists pre, l, body, rest1, c, t. rewrite Hall, Hrest. auto 7.
Qed.

(** C4 (amended): every range block [parse_rubric_items] records comes
    from a range header line and the detail body after it, the lines up
    to the next header line or the end of the text, and its details are
    the non-blank lines of that body, each stripped, joined by single
    newlines: the runs of blank lines leave no blank line in the stored
    details.  A range header at the top of the text is recorded so. *)
Theorem range_details_are_the_nonblank_lines :
  (forall text,
     exists r,
       parse_rubric_items text = Ok r
       /\ Forall (block_from_body (text_lines text)) (p_range_blocks r))
  /\ (forall text h body rest c t,
        text_lines text = h :: body ++ rest ->
        re_match range_pattern (strip h) = Some (c, t) ->
        body_lines range_stop body -> body_end range_stop rest ->
        exists r b bs,
          parse_rubric_items text = Ok r
          /\ p_range_blocks r = b :: bs
          /\ range_details b = join [LF] (nonempty (map strip body))).
Proof.
  split.
  - intros text. unfold parse_rubric_items.
    destruct (parse_lines_ok (text_lines text) initial) as [st H].
    rewrite H. eexists. split; [reflexivity|]. simpl.
    apply (blocks_from_bodies _ _ _ _ H []); [reflexivity|constructor].
  - intros text h body rest c t Hl Hm Hb Hr.
    unfold parse_rubric_items. rewrite Hl.
    destruct (parse_lines_cons initial h (body ++ rest))
      as (st1 & r1 & Hit & _ & _ & E).
    rewrite E. clear E.
    rewrite (iteration_range _ _ _ _ _ Hm) in Hit.
    rewrite (take_details_body range_stop body rest Hb Hr) in Hit.
    injection Hit as <- <-.
    match goal with
    | |- context [parse_lines ?s rest] =>
        destruct (parse_lines_ok rest s) as [st' H]
    end.
    rewrite H. apply range_blocks_grow in H as [more H].
    eexists _, _, more. split; [reflexivity|].
    simpl. split; [exact H|]. simpl. now apply details_text_all.
Qed.

(** A use of C4: blank runs inside the body, an item header after it. *)
Lemma range_details_are_the_nonblank_lines_witness :
  exists r b bs,
    parse_rubric_items
      (join [LF] [lit "A1-A3) Title"; lit " foo "; []; []; lit "bar"; [];
                  lit "A1) Thesis (5 points)"; lit "detail"])
      = Ok r
    /\ p_range_blocks r = b :: bs
    /\ range_details b
       = join [LF] (nonempty (map strip [lit " foo"; []; []; lit "bar"; []])).
Proof.
  apply (proj2 range_details_are_the_nonblank_lines _ (lit "A1-A3) Title")
           [lit " foo"; []; []; lit "bar"; []]
           [lit "A1) Thesis (5 points)"; lit "detail"]
           [(3%nat, lit "Title"); (2%nat, lit "A3"); (1%nat, lit "A1")] []).
  - vm_compute. reflexivity.
  - vm_compute. reflexivity.
  - repeat (constructor; [vm_compute; auto|]). constructor.
  - right. eexists _, _. split; [reflexivity|].
    split; vm_compute; [discriminate|reflexivity].
Defined.

(** ** C9: inherited scoring *)

Lemma take_details_app_stop stop sec tail :
  strip sec <> [] -> stop (strip sec) = true ->
  forall p dl,
    snd (take_details stop dl (p ++ sec :: tail))
    = snd (take_details stop dl p) ++ sec :: tail.
Proof.
  intros Hne Hs. induction p as [|l p IH]; intros dl; simpl.
  - destruct (strip sec); [contradiction|]. simpl. now rewrite Hs.
  - destruct (is_empty (strip l)); [apply IH|].
    destruct (stop (strip l)); [reflexivity|apply IH].
Qed.

(** The lines an iteration leaves are those after its line, or what the
    detail loop left of them. *)
Lemma iteration_rest st l rest st1 rest1 :
  iteration st l rest = Ok (st1, rest1) ->
  rest1 = rest
  \/ rest1 = snd (take_details range_stop [] rest)
  \/ rest1 = snd (take_details item_stop [] rest).
Proof.
  intros Hit.
  destruct (iteration_cases st l rest)
    as [[_ H]|[(_ & c & r & _ & _ & H)|[(_ & c & r & _ & H)|
        [(_ & c & r & Hi & H)|(_ & _ & _ & _ & H)]]]];
    rewrite H in Hit; clear H.
  - injection Hit as _ <-. auto.
  - injection Hit as _ <-. auto.
  - injection Hit as _ <-. auto.
  - destruct (record_item_ok (claim_pending st) _ _ _
                (fst (take_details item_stop [] rest)) Hi) as (pts & _ & Hrec).
    rewrite Hrec in Hit. simpl in Hit. injection Hit as _ <-. auto.
  - injection Hit as _ <-. auto.
Qed.

(** Whatever comes before it, a section header line is reached by the
    loop. *)
Lemma parse_lines_reaches_section sec tail :
  strip sec <> [] -> matches section_pattern (strip sec) = true ->
  forall pre st,
    exists st', parse_lines st (pre ++ sec :: tail)
                = parse_lines st' (sec :: tail).
Proof.
  intros Hne Hs pre.
  assert (Hrs : range_stop (strip sec) = true).
  { unfold range_stop. rewrite Hs. now rewrite orb_true_r. }
  assert (His : item_stop (strip sec) = true).
  { unfold item_stop. rewrite Hs. now rewrite orb_true_r. }
  remember (length pre) as n eqn:En.
  assert (Hn : (length pre <= n)%nat) by lia. clear En.
  revert pre Hn.
  induction n as [|n IH]; intros [|l p] Hn st; simpl in Hn; try lia;
    try (now exists st).
  simpl app.
  destruct (parse_lines_cons st l (p ++ sec :: tail))
    as (st1 & r1 & Hit & _ & _ & ->).
  apply iteration_rest in Hit as [->|[->| ->]].
  - apply IH. lia.
  - rewrite take_details_app_stop by assumption.
    apply IH. pose proof (take_details_length range_stop [] p). lia.
  - rewrite take_details_app_stop by assumption.
    apply IH. pose proof (take_details_length item_stop [] p). lia.
Qed.

(** What an iteration does at a section header. *)
Lemma iteration_section st l rest :
  section_header (strip l) ->
  exists c t,
    re_match section_pattern (strip l) = Some (c, t)
    /\ iteration st l rest = Ok (enter_section st c, rest).
Proof.
  intros [Hs Hi]. apply matches_true in Hs as (c & t & Hs).
  apply matches_false in Hi.
  destruct (iteration_cases st l rest)
    as [[N _]|[(_ & c' & r & Hs' & _ & H)|[(_ & c' & r & N & _)|
        [(_ & c' & r & N & _)|(_ & N & _)]]]].
  - apply section_match_nonempty in Hs. contradiction.
  - exists c', r. auto.
  - apply range_not_section in N. congruence.
  - congruence.
  - congruence.
Qed.

(** What an iteration does at an item header. *)
Lemma iteration_item st l rest c t :
  re_match item_pattern (strip l) = Some (c, t) ->
  exists pts,
    py_float (grp 3 c) = Ok pts
    /\ iteration st l rest =
       Ok (add_item (claim_pending st)
             {| code := grp 1 c; description := strip (grp 2 c);
                max_points := pts;
                details := details_text
                             (fst (take_details item_stop [] rest)) |},
           snd (take_details item_stop [] rest)).
Proof.
  intros Hm.
  destruct (record_item_ok (claim_pending st) _ _ _
              (fst (take_details item_stop [] rest)) Hm) as (pts & Hf & Hrec).
  exists pts. split; [assumption|].
  destruct (iteration_cases st l rest)
    as [[N _]|[(_ & c' & r & _ & N & _)|[(_ & c' & r & N & _)|
        [(_ & c' & r & Hi & H)|(_ & _ & _ & N & _)]]]].
  - apply item_match_nonempty in Hm. contradiction.
  - congruence.
  - apply item_not_range in Hm. congruence.
  - assert (c' = c) as -> by congruence. rewrite H, Hrec. reflexivity.
  - congruence.
Qed.

Lemma item_match_stops line c t :
  re_match item_pattern line = Some (c, t) -> item_stop line = true.
Proof.
  intros H. unfold item_stop.
  assert (E : matches item_pattern line = true) by (apply matches_true; eauto).
  now rewrite E.
Qed.


Lemma claim_pending_inherited st :
  inherited_scoring (claim_pending st) = inherited_scoring st.
Proof.
  unfold claim_pending. destruct (pending_group_has_scores st); [|reflexivity].
  destruct (_extract_score_bullets _); reflexivity.
Qed.



Lemma absorb_line_seen st x :
  seen_any_item st = true ->
  seen_any_item (absorb_line st x) = true
  /\ pending_group_lines (absorb_line st x) = pending_group_lines st ++ [x]
  /\ pending_group_has_scores (absorb_line st x)
     = (if matches score_prefix (strip x) then true
        else pending_group_has_scores st).
Proof. intros H. unfold absorb_line. rewrite H. auto. Qed.

(** ** Cutting the text at a header line *)

Lemma take_details_app_stop_fst stop sec tail :
  strip sec <> [] -> stop (strip sec) = true ->
  forall p dl,
    fst (take_details stop dl (p ++ sec :: tail))
    = fst (take_details stop dl p).
Proof.
  intros Hne Hs. induction p as [|l p IH]; intros dl; simpl.
  - destruct (strip sec); [contradiction|]. simpl. now rewrite Hs.
  - destruct (is_empty (strip l)); [apply IH|].
    destruct (stop (strip l)); [reflexivity|apply IH].
Qed.

Lemma iteration_blank st l rest :
  strip l = [] -> iteration st l rest = Ok (st, rest).
Proof.
  intros E.
  destruct (iteration_cases st l rest)
    as [[_ H]|[(N & _)|[(N & _)|[(N & _)|(N & _)]]]]; congruence.
Qed.

Lemma parse_lines_step st l rest st1 rest1 :
  iteration st l rest = Ok (st1, rest1) ->
  parse_lines st (l :: rest) = parse_lines st1 rest1.
Proof.
  intros H. destruct (parse_lines_cons st l rest) as (s & r & Hit & _ & _ & ->).
  rewrite H in Hit. injection Hit as <- <-. reflexivity.
Qed.

(** The loop comes to every line [h] at which both detail loops stop,
    and to a line at which the loop of a range block stops when no item
    header stands before it; the state it is in then does not depend on
    [h] and what follows. *)
Lemma parse_lines_split h :
  strip h <> [] -> range_stop (strip h) = true ->
  forall n pre st,
    (length pre <= n)%nat ->
    item_stop (strip h) = true
    \/ Forall (fun l => matches item_pattern (strip l) = false) pre ->
    exists st',
      parse_lines st pre = Ok st'
      /\ forall tail,
           parse_lines st (pre ++ h :: tail) = parse_lines st' (h :: tail).
Proof.
  intros Hne Hrs. induction n as [|n IH]; intros [|l p] st Hn Hcond;
    cbn [length] in Hn; try lia;
    try (exists st; split; [apply parse_lines_nil|reflexivity]).
  assert (Hp : item_stop (strip h) = true
               \/ Forall (fun l => matches item_pattern (strip l) = false) p).
  { destruct Hcond as [H|H]; [left; exact H|right].
    apply List.Forall_cons_iff in H as [_ H]. exact H. }
  assert (Hsuffix : forall stop,
            item_stop (strip h) = true
            \/ Forall (fun l => matches item_pattern (strip l) = false)
                      (snd (take_details stop [] p))).
  { intros stop. destruct Hp as [H|H]; [left; exact H|right].
    destruct (take_details_suffix stop p []) as (q & Hq & _).
    rewrite Hq in H. apply Forall_app in H as [_ H]. exact H. }
  cbn [app].
  destruct (iteration_cases st l p)
    as [[El _]|[(_ & c & r & Hs & Hi & _)|[(_ & c & r & Hr & _)|
        [(_ & c & r & Hi & _)|(Hl & H1 & H2 & H3 & _)]]]].
  - destruct (IH p st ltac:(lia) Hp) as (st' & Hst' & Htail).
    exists st'. split.
    + rewrite (parse_lines_step _ _ _ _ _ (iteration_blank st l p El)).
      exact Hst'.
    + intros tail.
      rewrite (parse_lines_step _ _ _ _ _ (iteration_blank st l _ El)).
      apply Htail.
  - assert (Hsec : section_header (strip l)).
    { split; [apply matches_true; eauto|apply matches_false, Hi]. }
    destruct (IH p (enter_section st c) ltac:(lia) Hp)
      as (st' & Hst' & Htail).
    exists st'. split.
    + destruct (iteration_section st l p Hsec) as (c' & t' & Hc' & E).
      assert (c' = c) as -> by congruence.
      rewrite (parse_lines_step _ _ _ _ _ E). exact Hst'.
    + intros tail.
      destruct (iteration_section st l (p ++ h :: tail) Hsec)
        as (c' & t' & Hc' & E).
      assert (c' = c) as -> by congruence.
      rewrite (parse_lines_step _ _ _ _ _ E). apply Htail.
  - pose proof (take_details_length range_stop [] p) as Hlen.
    destruct (IH (snd (take_details range_stop [] p))
                (enter_range st c (fst (take_details range_stop [] p)))
                ltac:(lia) (Hsuffix range_stop)) as (st' & Hst' & Htail).
    exists st'. split.
    + rewrite (parse_lines_step _ _ _ _ _ (iteration_range st l p c r Hr)).
      exact Hst'.
    + intros tail.
      rewrite (parse_lines_step _ _ _ _ _
                 (iteration_range st l (p ++ h :: tail) c r Hr)).
      rewrite take_details_app_stop_fst, take_details_app_stop
        by assumption.
      apply Htail.
  - assert (His : item_stop (strip h) = true).
    { destruct Hcond as [H|H]; [exact H|].
      apply List.Forall_cons_iff in H as [H _].
      apply matches_false in H. congruence. }
    pose proof (take_details_length item_stop [] p) as Hlen.
    destruct (iteration_item st l p c r Hi) as (pts & Hf & E).
    match type of E with
    | _ = Ok (?s1, _) =>
        destruct (IH (snd (take_details item_stop [] p)) s1
                    ltac:(lia) (Hsuffix item_stop)) as (st' & Hst' & Htail)
    end.
    exists st'. split.
    + rewrite (parse_lines_step _ _ _ _ _ E). exact Hst'.
    + intros tail.
      destruct (iteration_item st l (p ++ h :: tail) c r Hi)
        as (pts' & Hf' & E').
      assert (pts' = pts) as -> by congruence.
      rewrite (parse_lines_step _ _ _ _ _ E').
      rewrite take_details_app_stop_fst, take_details_app_stop
        by assumption.
      apply Htail.
  - assert (Hpl : plain (strip l)) by (repeat split; assumption).
    destruct (IH p (absorb_line st (strip l)) ltac:(lia) Hp)
      as (st' & Hst' & Htail).
    exists st'. split.
    + rewrite (parse_lines_step _ _ _ _ _ (iteration_plain st l p Hl Hpl)).
      exact Hst'.
    + intros tail.
      rewrite (parse_lines_step _ _ _ _ _ (iteration_plain st l _ Hl Hpl)).
      apply Htail.
Qed.

Lemma section_header_stops s :
  section_header (strip s) ->
  strip s <> [] /\ range_stop (strip s) = true /\ item_stop (strip s) = true.
Proof.
  intros [Hs _]. split; [|split].
  - apply matches_true in Hs as (c & t & Hs).
    eapply section_match_nonempty, Hs.
  - unfold range_stop. rewrite Hs. rewrite orb_true_r. reflexivity.
  - unfold item_stop. rewrite Hs. apply orb_true_r.
Qed.





(** ** C5: where a line of prose ends up *)

(** After a header, lines that match no pattern reach the loop one by
    one and go to the pending ungrouped block. *)
Lemma parse_lines_plain_seen body : forall st,
  seen_any_item st = true ->
  Forall (fun l => plain (strip l)) body ->
  exists st',
    parse_lines st body = Ok st'
    /\ pending_group_lines st'
       = pending_group_lines st ++ nonempty (map strip body)
    /\ preamble_lines st' = preamble_lines st
    /\ items st' = items st
    /\ range_blocks st' = range_blocks st.
Proof.
  induction body as [|l body IH]; intros st Hseen Hall.
  - exists st. rewrite parse_lines_nil.
    cbn [map nonempty List.filter]. rewrite app_nil_r. auto.
  - apply List.Forall_cons_iff in Hall as [Hl Hbody].
    cbn [map nonempty List.filter]. fold (nonempty (map strip body)).
    destruct (strip l) as [|x y] eqn:El.
    + rewrite (parse_lines_step _ _ _ _ _ (iteration_blank st l body El)).
      cbn [is_empty negb]. apply IH; assumption.
    + assert (Hne : strip l <> []) by (rewrite El; discriminate).
      rewrite <- El in *.
      rewrite (parse_lines_step _ _ _ _ _
                 (iteration_plain st l body Hne Hl)).
      destruct (absorb_line_seen st (strip l) Hseen) as (Hs1 & Hp1 & _).
      destruct (IH (absorb_line st (strip l)) Hs1 Hbody)
        as (st' & -> & H1 & H2 & H3 & H4).
      exists st'. split; [reflexivity|].
      rewrite H1, H2, H3, H4, Hp1, absorb_line_items,
        absorb_line_range_blocks.
      rewrite El. cbn [is_empty negb]. rewrite <- app_assoc.
      split; [reflexivity|]. split; [|auto].
      unfold absorb_line. rewrite Hseen. reflexivity.
Qed.

(** The loop comes to a range header before which no item is open. *)
Lemma parse_lines_reaches_range before h :
  no_open_item before ->
  strip h <> [] -> range_stop (strip h) = true ->
  exists st0,
    forall tail,
      parse_lines initial (before ++ h :: tail) = parse_lines st0 (h :: tail).
Proof.
  intros (b1 & b2 & -> & Hb1 & Hb2) Hne Hrs.
  destruct Hb1 as [->|(b1' & sec & -> & Hsec)].
  - destruct (parse_lines_split h Hne Hrs (length b2) b2 initial (le_n _)
                (or_intror Hb2)) as (st0 & _ & Hcut).
    exists st0. exact Hcut.
  - destruct (section_header_stops sec Hsec) as (Hsne & Hsr & Hsi).
    destruct (parse_lines_split sec Hsne Hsr (length b1') b1' initial
                (le_n _) (or_introl Hsi)) as (sA & _ & HcutA).
    assert (Hall : Forall (fun l => matches item_pattern (strip l) = false)
                          (sec :: b2)).
    { constructor; [apply Hsec|exact Hb2]. }
    destruct (parse_lines_split h Hne Hrs (length (sec :: b2)) (sec :: b2)
                sA (le_n _) (or_intror Hall)) as (sB & _ & HcutB).
    exists sB. intros tail.
    rewrite <- !app_assoc. cbn [app].
    rewrite HcutA. exact (HcutB tail).
Qed.

Lemma item_header_stops l c t :
  re_match item_pattern (strip l) = Some (c, t) ->
  strip l <> [] /\ range_stop (strip l) = true /\ item_stop (strip l) = true.
Proof.
  intros H. split; [eapply item_match_nonempty, H|].
  assert (Hm : matches item_pattern (strip l) = true)
    by (apply matches_true; eauto).
  unfold range_stop, item_stop. rewrite Hm. split; reflexivity.
Qed.

Lemma range_header_stops l c t :
  re_match range_pattern (strip l) = Some (c, t) ->
  strip l <> [] /\ range_stop (strip l) = true.
Proof.
  intros H. split; [eapply range_match_nonempty, H|].
  assert (Hm : matches range_pattern (strip l) = true)
    by (apply matches_true; eauto).
  unfold range_stop. rewrite Hm. apply orb_true_r.
Qed.

(** C5 (amended): [parse_rubric_items] returns for every text and never
    raises, and a line that matches none of the three header patterns
    goes where the header line before it sends it.  With no header line
    before them such lines are the preamble.  After a section header
    they are the pending ungrouped block, and nothing else changes.
    After an item header the lines up to the next item or section header
    are the details of that item, lines that match the range pattern
    among them, and neither the pending block nor the preamble changes.
    After a range header before which no item is open, the lines up to
    the next header are the details of that range block.  A text none of
    whose lines matches a header pattern yields no items, no sections,
    no range blocks, no inherited scoring, and its non-blank lines,
    stripped, as the preamble. *)
Theorem parse_rubric_items_total :
  (forall text, exists r, parse_rubric_items text = Ok r)
  /\ (forall lines,
        Forall (fun l => plain (strip l)) lines ->
        exists st,
          parse_lines initial lines = Ok st
          /\ preamble_lines st = nonempty (map strip lines)
          /\ pending_group_lines st = []
          /\ items st = [] /\ range_blocks st = [])
  /\ (forall before sec body,
        section_header (strip sec) ->
        Forall (fun l => plain (strip l)) body ->
        exists st1 st,
          parse_lines initial (before ++ [sec]) = Ok st1
          /\ parse_lines initial (before ++ sec :: body) = Ok st
          /\ pending_group_lines st = nonempty (map strip body)
          /\ preamble_lines st = preamble_lines st1
          /\ items st = items st1
          /\ range_blocks st = range_blocks st1)
  /\ (forall before hdr body c t,
        re_match item_pattern (strip hdr) = Some (c, t) ->
        body_lines item_stop body ->
        exists st1 st its it1 it,
          parse_lines initial (before ++ [hdr]) = Ok st1
          /\ parse_lines initial (before ++ hdr :: body) = Ok st
          /\ items st1 = its ++ [it1]
          /\ items st = its ++ [it]
          /\ code it = grp 1 c
          /\ details it = join [LF] (nonempty (map strip body))
          /\ pending_group_lines st = pending_group_lines st1
          /\ preamble_lines st = preamble_lines st1
          /\ range_blocks st = range_blocks st1)
  /\ (forall before hdr body c t,
        re_match range_pattern (strip hdr) = Some (c, t) ->
        no_open_item before ->
        body_lines range_stop body ->
        exists st1 st bs b1 b,
          parse_lines initial (before ++ [hdr]) = Ok st1
          /\ parse_lines initial (before ++ hdr :: body) = Ok st
          /\ range_blocks st1 = bs ++ [b1]
          /\ range_blocks st = bs ++ [b]
          /\ start_code b = grp 1 c
          /\ range_details b = join [LF] (nonempty (map strip body))
          /\ pending_group_lines st = pending_group_lines st1
          /\ preamble_lines st = preamble_lines st1
          /\ items st = items st1)
  /\ (forall text,
        Forall (fun l => plain (strip l)) (text_lines text) ->
        exists r,
          parse_rubric_items text = Ok r
          /\ p_items r = [] /\ p_sections r = ∅ /\ p_range_blocks r = []
          /\ p_inherited_scoring r = ∅
          /\ p_preamble r =
             strip (join [LF] (nonempty (map strip (text_lines text))))).
Proof.
  split; [|split; [|split; [|split; [|split]]]].
  - apply parse_rubric_items_ok.
  - intros lines Hall.
    assert (Hpend : forall lines st,
              Forall (fun l => plain (strip l)) lines ->
              seen_any_item st = false ->
              forall st', parse_lines st lines = Ok st' ->
              pending_group_lines st' = pending_group_lines st).
    { clear. induction lines as [|l lines IH]; intros st Hall Hseen st' H.
      - rewrite parse_lines_nil in H. injection H as <-. reflexivity.
      - apply List.Forall_cons_iff in Hall as [Hl Hall].
        destruct (strip l) as [|x y] eqn:El.
        + rewrite (parse_lines_step _ _ _ _ _
                     (iteration_blank st l lines El)) in H.
          exact (IH _ Hall Hseen _ H).
        + assert (Hne : strip l <> []) by (rewrite El; discriminate).
          rewrite <- El in *.
          rewrite (parse_lines_step _ _ _ _ _
                     (iteration_plain st l lines Hne Hl)) in H.
          assert (Hs1 : seen_any_item (absorb_line st (strip l)) = false)
            by (unfold absorb_line; rewrite Hseen; reflexivity).
          rewrite (IH (absorb_line st (strip l)) Hall Hs1 _ H).
          unfold absorb_line. rewrite Hseen. reflexivity. }
    destruct (parse_lines_plain lines initial eq_refl Hall)
      as (st & Hst & H1 & _ & H3 & _ & H5).
    exists st. split; [exact Hst|]. split; [exact H5|].
    split; [exact (Hpend lines initial Hall eq_refl st Hst)|].
    split; assumption.
  - intros before sec body Hsec Hbody.
    destruct (section_header_stops sec Hsec) as (Hsne & Hsr & Hsi).
    destruct (parse_lines_split sec Hsne Hsr (length before) before initial
                (le_n _) (or_introl Hsi)) as (st0 & _ & Hcut).
    destruct (iteration_section st0 sec [] Hsec) as (c & t & Hc & E1).
    destruct (iteration_section st0 sec body Hsec) as (c' & t' & Hc' & E2).
    assert (c' = c) as -> by congruence.
    destruct (parse_lines_plain_seen body (enter_section st0 c) eq_refl Hbody)
      as (st & Hst & H1 & H2 & H3 & H4).
    exists (enter_section st0 c), st.
    rewrite !Hcut, (parse_lines_step _ _ _ _ _ E1),
      (parse_lines_step _ _ _ _ _ E2), parse_lines_nil.
    split; [reflexivity|]. split; [exact Hst|]. auto.
  - intros before hdr body c t Hm Hbody.
    destruct (item_header_stops hdr c t Hm) as (Hne & Hrs & His).
    destruct (parse_lines_split hdr Hne Hrs (length before) before initial
                (le_n _) (or_introl His)) as (st0 & _ & Hcut).
    destruct (iteration_item st0 hdr [] c t Hm) as (pts & Hf & E1).
    destruct (iteration_item st0 hdr body c t Hm) as (pts' & Hf' & E2).
    assert (pts' = pts) as -> by congruence.
    destruct (take_details_all item_stop body Hbody []) as [Hsnd _].
    rewrite Hsnd in E2.
    rewrite (details_text_all item_stop body Hbody) in E2.
    eexists _, _, (items (claim_pending st0)), _, _.
    rewrite !Hcut, (parse_lines_step _ _ _ _ _ E1),
      (parse_lines_step _ _ _ _ _ E2).
    cbn [take_details snd]. rewrite !parse_lines_nil.
    split; [reflexivity|]. split; [reflexivity|].
    split; [reflexivity|]. split; [reflexivity|].
    split; [reflexivity|]. split; [reflexivity|]. auto.
  - intros before hdr body c t Hm Hopen Hbody.
    destruct (range_header_stops hdr c t Hm) as (Hne & Hrs).
    destruct (parse_lines_reaches_range before hdr Hopen Hne Hrs)
      as (st0 & Hcut).
    pose proof (iteration_range st0 hdr [] c t Hm) as E1.
    pose proof (iteration_range st0 hdr body c t Hm) as E2.
    destruct (take_details_all range_stop body Hbody []) as [Hsnd _].
    rewrite Hsnd in E2.
    eexists _, _, (range_blocks st0), _, _.
    rewrite !Hcut, (parse_lines_step _ _ _ _ _ E1),
      (parse_lines_step _ _ _ _ _ E2).
    cbn [take_details snd]. rewrite !parse_lines_nil.
    split; [reflexivity|]. split; [reflexivity|].
    split; [reflexivity|]. split; [reflexivity|].
    split; [reflexivity|].
    split; [apply (details_text_all range_stop body Hbody)|]. auto.
  - intros text Hall. unfold parse_rubric_items.
    destruct (parse_lines_plain (text_lines text) initial eq_refl Hall)
      as (st & -> & H1 & H2 & H3 & H4 & H5).
    eexists. split; [reflexivity|]. unfold result_of. simpl.
    rewrite H1, H2, H3, H4, H5. auto 7.
Qed.

Lemma parse_rubric_items_total_witness :
  (exists st,
     parse_lines initial [lit "Intro "; []; lit " read twice"] = Ok st
     /\ preamble_lines st = [lit "Intro"; lit "read twice"]
     /\ pending_group_lines st = [])
  /\ (exists st,
        parse_lines initial
          ([lit "Intro"] ++ lit "A) Clarity" :: [lit "some prose"; lit "0: x"])
          = Ok st
        /\ pending_group_lines st = [lit "some prose"; lit "0: x"]
        /\ preamble_lines st = [lit "Intro"])
  /\ (exists st its it,
        parse_lines initial
          ([lit "A) Clarity"] ++ lit "A1) Thesis (5 points)"
             :: [lit "note"; lit "A2-A3) Shared"]) = Ok st
        /\ items st = its ++ [it]
        /\ details it = lit "note" ++ [LF] ++ lit "A2-A3) Shared"
        /\ pending_group_lines st = [])
  /\ (exists st bs b,
        parse_lines initial
          ([lit "A) Clarity"; lit "prose"] ++ lit "A1-A3) Shared"
             :: [lit "note"]) = Ok st
        /\ range_blocks st = bs ++ [b]
        /\ range_details b = lit "note"
        /\ pending_group_lines st = [])
  /\ (exists r,
        parse_rubric_items (lit "Intro text.") = Ok r
        /\ p_items r = [] /\ p_sections r = ∅ /\ p_range_blocks r = []
        /\ p_inherited_scoring r = ∅
        /\ p_preamble r =
           strip (join [LF]
                    (nonempty (map strip (text_lines (lit "Intro text.")))))).
Proof.
  destruct parse_rubric_items_total as (_ & H2 & H3 & H4 & H5 & H6).
  split; [|split; [|split; [|split]]].
  - destruct (H2 [lit "Intro "; []; lit " read twice"])
      as (st & Hst & Hp & Hq & _).
    { repeat (constructor; [repeat split; vm_compute; reflexivity|]).
      constructor. }
    exists st. split; [exact Hst|]. split; [exact Hp|exact Hq].
  - destruct (H3 [lit "Intro"] (lit "A) Clarity")
                [lit "some prose"; lit "0: x"])
      as (st1 & st & Hst1 & Hst & Hp & Hq & _).
    { split; vm_compute; reflexivity. }
    { repeat (constructor; [repeat split; vm_compute; reflexivity|]).
      constructor. }
    exists st. split; [exact Hst|]. split; [exact Hp|].
    rewrite Hq. vm_compute in Hst1. injection Hst1 as <-. reflexivity.
  - destruct (H4 [lit "A) Clarity"] (lit "A1) Thesis (5 points)")
                [lit "note"; lit "A2-A3) Shared"]
                [(3%nat, lit "5"); (2%nat, lit "Thesis"); (1%nat, lit "A1")]
                [])
      as (st1 & st & its & it1 & it & Hst1 & Hst & _ & Hi & _ & Hd & Hp & _).
    { vm_compute. reflexivity. }
    { repeat (constructor; [right; vm_compute; reflexivity|]).
      constructor. }
    exists st, its, it. split; [exact Hst|]. split; [exact Hi|].
    split; [exact Hd|].
    rewrite Hp. vm_compute in Hst1. injection Hst1 as <-. reflexivity.
  - destruct (H5 [lit "A) Clarity"; lit "prose"] (lit "A1-A3) Shared")
                [lit "note"]
                [(3%nat, lit "Shared"); (2%nat, lit "A3"); (1%nat, lit "A1")]
                [])
      as (st1 & st & bs & b1 & b & Hst1 & Hst & _ & Hb & _ & Hd & Hp & _).
    { vm_compute. reflexivity. }
    { exists [lit "A) Clarity"], [lit "prose"]. split; [reflexivity|].
      split.
      - right. exists [], (lit "A) Clarity"). split; [reflexivity|].
        split; vm_compute; reflexivity.
      - repeat (constructor; [vm_compute; reflexivity|]). constructor. }
    { repeat (constructor; [right; vm_compute; reflexivity|]).
      constructor. }
    exists st, bs, b. split; [exact Hst|]. split; [exact Hb|].
    split; [exact Hd|].
    rewrite Hp. vm_compute in Hst1. injection Hst1 as <-. reflexivity.
  - apply H6. repeat constructor; vm_compute; reflexivity.
Defined.

(** ** C2: unicode escapes *)

(** C2 fails on the code: the pattern of the unicode escape accepts a
    minus sign, and [chr] then raises on the negative number.  RTF
    writers emit the code points from 32768 on as negative numbers. *)
Lemma negative_unicode_escape_raises :
  rtf_to_text (lit "{\rtf1 caf\u-3913?}") = Raise ValueError
  /\ rtf_to_text (lit "\u-1") = Raise ValueError
  /\ rtf_to_text (lit "\u" ++ lit "1114112") = Raise ValueError
  /\ rtf_to_text (lit "\u233?") = Ok [233].
Proof. repeat split; vm_compute; reflexivity. Qed.

(** ** C6: range containment *)

Lemma sub_from_class p (repl : caps -> str -> outcome str) s :
  (forall c w, repl c w = Ok []) ->
  sub_from (Class p) repl s 0 = Ok (List.filter (fun x => negb (p x)) s).
Proof.
  intros Hr. induction s as [|x s IH]; simpl; [reflexivity|].
  unfold re_match. simpl. destruct (p x) eqn:E; simpl.
  - replace (S (length s) - length s)%nat with 1%nat by lia.
    rewrite Hr. simpl. rewrite IH. reflexivity.
  - rewrite IH. reflexivity.
Qed.

Lemma sub_const_nondigit s :
  sub_const nondigit [] s = Ok (List.filter is_decimal s).
Proof.
  unfold sub_const, sub, nondigit. rewrite sub_from_class by reflexivity.
  f_equal. apply List.filter_ext. intros x. apply negb_involutive.
Qed.

Lemma filter_all_decimal s : all_decimal (List.filter is_decimal s).
Proof.
  induction s as [|x s IH]; simpl; [constructor|].
  destruct (is_decimal x) eqn:E; [constructor|]; assumption.
Qed.

Lemma decimal_not_minus c : is_decimal c = true -> (c =? ch "-") = false.
Proof.
  intros H. destruct (c =? ch "-") eqn:E; [|reflexivity].
  apply Z.eqb_eq in E. subst c. discriminate.
Qed.

(** [int] on a run of digits: a value up to the limit on their number,
    a ValueError beyond it. *)
Lemma py_int_digits s :
  s <> [] -> all_decimal s ->
  ((length s <= int_max_str_digits)%nat /\ exists n, py_int s = Ok n)
  \/ ((int_max_str_digits < length s)%nat /\ py_int s = Raise ValueError).
Proof.
  intros Hne Ha. destruct s as [|c s']; [congruence|]. unfold py_int.
  assert (Hc : (c =? ch "-") = false).
  { apply decimal_not_minus. apply List.Forall_cons_iff in Ha as [Hc _].
    exact Hc. }
  rewrite Hc. destruct (digits_value_total _ Ha 0) as [n ->].
  destruct (Nat.leb_spec (length (c :: s')) int_max_str_digits).
  - left. split; [assumption|]. eauto.
  - right. split; [assumption|reflexivity].
Qed.

Lemma trailing_number_outcome s :
  (few_digits s /\ exists n, trailing_number s = Ok n)
  \/ (~ few_digits s /\ trailing_number s = Raise ValueError).
Proof.
  unfold trailing_number, few_digits. rewrite sub_const_nondigit.
  cbn [bind]. pose proof (filter_all_decimal s) as Ha.
  destruct (List.filter is_decimal s) as [|c l] eqn:E.
  - left. split; [cbn [length]; lia|]. exists 0. reflexivity.
  - change (is_empty (c :: l)) with false. cbv iota.
    destruct (py_int_digits (c :: l)) as [[Hl Hn]|[Hl Hr]];
      [discriminate|exact Ha| |].
    + left. split; assumption.
    + right. split; [lia|exact Hr].
Qed.

Lemma trailing_number_ok s :
  few_digits s -> exists n, trailing_number s = Ok n.
Proof.
  intros H. destruct (trailing_number_outcome s) as [[_ Hn]|[N _]];
    [exact Hn|contradiction].
Qed.

Lemma few_digits_app a b : few_digits (a ++ b) -> few_digits b.
Proof.
  unfold few_digits. rewrite List.filter_app, length_app. lia.
Qed.

Lemma split_once_spec c s :
  contains c s = true ->
  s = fst (split_once c s) ++ c :: snd (split_once c s)
  /\ contains c (fst (split_once c s)) = false.
Proof.
  unfold contains. induction s as [|x s IH]; [discriminate|].
  cbn [existsb split_once]. unfold char_eqb at 1. rewrite Z.eqb_sym.
  destruct (x =? c) eqn:E.
  - intros _. apply Z.eqb_eq in E. subst. split; reflexivity.
  - cbn [orb]. intros H. destruct (IH H) as [H1 H2].
    destruct (split_once c s) as [a b]. cbn [fst snd] in *. split.
    + cbn [app]. f_equal. exact H1.
    + cbn [existsb]. unfold char_eqb at 1. rewrite Z.eqb_sym, E. exact H2.
Qed.

(** [_code_parts] returns or raises a ValueError, and it returns on a
    code of few digits. *)
Lemma _code_parts_outcome code :
  decomposes code
  \/ (~ few_digits code /\ _code_parts code = Raise ValueError).
Proof.
  unfold decomposes, _code_parts. destruct (starts_upper code).
  - destruct (trailing_number_outcome (skipn 1 code)) as [[_ [n ->]]|[N ->]].
    + left. cbn [bind]. eauto.
    + right. split; [|reflexivity]. intros H. apply N.
      apply (few_digits_app (firstn 1 code)). rewrite firstn_skipn. exact H.
  - destruct (contains (ch ".") code) eqn:C.
    + destruct (split_once_spec _ _ C) as [E _].
      destruct (split_once (ch ".") code) as [section rest].
      cbn [fst snd] in E.
      destruct (trailing_number_outcome rest) as [[_ [n ->]]|[N ->]].
      * left. cbn [bind]. eauto.
      * right. split; [|reflexivity]. intros H. apply N.
        apply (few_digits_app (section ++ [ch "."])).
        rewrite <- app_assoc. cbn [app]. rewrite <- E. exact H.
    + left. rewrite sub_const_nondigit. cbn [bind]. eauto.
Qed.

Lemma _code_parts_ok code : few_digits code -> decomposes code.
Proof.
  intros H. destruct (_code_parts_outcome code) as [Hd|[N _]];
    [exact Hd|contradiction].
Qed.

Lemma str_eqb_eq a b : str_eqb a b = true <-> a = b.
Proof. unfold str_eqb. apply bool_decide_eq_true. Qed.

(** One round of the loop of [_find_range_block]. *)
Lemma _find_range_block_cons b blocks code key num skey snum ekey enum :
  _code_parts code = Ok (key, num) ->
  _code_parts (start_code b) = Ok (skey, snum) ->
  _code_parts (end_code b) = Ok (ekey, enum) ->
  (key = skey /\ key = ekey /\ snum <= num <= enum
   /\ _find_range_block (b :: blocks) code = Ok (Some b))
  \/ (~ (key = skey /\ key = ekey /\ snum <= num <= enum)
      /\ _find_range_block (b :: blocks) code
         = _find_range_block blocks code).
Proof.
  intros Hc Hs He. simpl. rewrite Hc, Hs, He. simpl.
  destruct (str_eqb key skey) eqn:E1; simpl.
  - destruct (str_eqb key ekey) eqn:E2; simpl.
    + apply str_eqb_eq in E1, E2.
      destruct (snum <=? num) eqn:E3; simpl.
      * destruct (num <=? enum) eqn:E4; simpl.
        -- left. repeat split; auto; lia.
        -- right. split; [lia|]. destruct blocks; simpl; now rewrite Hc.
      * right. split; [lia|]. destruct blocks; simpl; now rewrite Hc.
    + right. split.
      * intros (_ & N & _). apply str_eqb_eq in N. congruence.
      * destruct blocks; simpl; now rewrite Hc.
  - right. split.
    + intros (N & _). apply str_eqb_eq in N. congruence.
    + destruct blocks; simpl; now rewrite Hc.
Qed.

Lemma _find_range_block_nil code key num :
  _code_parts code = Ok (key, num) -> _find_range_block [] code = Ok None.
Proof. intros H. cbn [_find_range_block]. rewrite H. reflexivity. Qed.

Lemma block_contains_iff b code key num skey snum ekey enum :
  _code_parts code = Ok (key, num) ->
  _code_parts (start_code b) = Ok (skey, snum) ->
  _code_parts (end_code b) = Ok (ekey, enum) ->
  block_contains b code
  <-> key = skey /\ key = ekey /\ snum <= num <= enum.
Proof.
  intros Hc Hs He. unfold block_contains. split.
  - intros (k & n & sn & en & H1 & H2 & H3 & H4).
    rewrite Hc in H1. rewrite Hs in H2. rewrite He in H3.
    injection H1 as <- <-. injection H2 as <- <-. injection H3 as <- <-.
    auto.
  - intros (<- & <- & H). exists key, num, snum, enum. auto.
Qed.

Lemma find_first_block blocks code b :
  decomposes code ->
  Forall (fun b' => decomposes (start_code b') /\ decomposes (end_code b'))
         blocks ->
  (_find_range_block blocks code = Ok (Some b)
   <-> exists before after,
         blocks = before ++ b :: after
         /\ block_contains b code
         /\ Forall (fun b' => ~ block_contains b' code) before).
Proof.
  intros (key & num & Hc) Hall.
  induction Hall as [|b0 blocks [(skey & snum & Hs) (ekey & enum & He)] _ IH].
  - rewrite (_find_range_block_nil _ _ _ Hc). split; [discriminate|].
    intros (before & after & E & _). destruct before; discriminate.
  - pose proof (block_contains_iff b0 code _ _ _ _ _ _ Hc Hs He) as Hiff.
    destruct (_find_range_block_cons b0 blocks code _ _ _ _ _ _ Hc Hs He)
      as [(H1 & H2 & H3 & ->)|(Hn & ->)].
    + split.
      * intros [= <-]. exists [], blocks. repeat split; auto.
        apply Hiff. auto.
      * intros (before & after & E & Hb & Hf).
        destruct before as [|x before]; simpl in E.
        -- congruence.
        -- injection E as <- _. apply List.Forall_cons_iff in Hf as [Hf _].
           exfalso. apply Hf, Hiff. auto.
    + rewrite IH. split.
      * intros (before & after & -> & Hb & Hf).
        exists (b0 :: before), after. repeat split; auto.
        constructor; [|assumption]. now rewrite Hiff.
      * intros (before & after & E & Hb & Hf).
        destruct before as [|x before]; simpl in E.
        -- injection E as -> _. exfalso. apply Hn, Hiff. assumption.
        -- injection E as <- ->.
           apply List.Forall_cons_iff in Hf as [_ Hf]. eauto.
Qed.

Lemma find_no_block blocks code :
  decomposes code ->
  Forall (fun b' => decomposes (start_code b') /\ decomposes (end_code b'))
         blocks ->
  (_find_range_block blocks code = Ok None
   <-> Forall (fun b' => ~ block_contains b' code) blocks).
Proof.
  intros (key & num & Hc) Hall.
  induction Hall as [|b0 blocks [(skey & snum & Hs) (ekey & enum & He)] _ IH].
  - rewrite (_find_range_block_nil _ _ _ Hc). split; auto.
  - pose proof (block_contains_iff b0 code _ _ _ _ _ _ Hc Hs He) as Hiff.
    destruct (_find_range_block_cons b0 blocks code _ _ _ _ _ _ Hc Hs He)
      as [(H1 & H2 & H3 & ->)|(Hn & ->)].
    + split; [discriminate|]. intros Hf.
      apply List.Forall_cons_iff in Hf as [Hf _].
      exfalso. apply Hf, Hiff. auto.
    + rewrite IH. split.
      * intros Hf. constructor; [|assumption]. now rewrite Hiff.
      * intros Hf. now apply List.Forall_cons_iff in Hf as [_ Hf].
Qed.

(** C6: for a code and a block that [_code_parts] decomposes,
    [_find_range_block] finds the block exactly when the key of the code
    is the key of the block's start code and of its end code and the
    number of the code lies between their numbers, both included.  Over
    a list of such blocks it returns the first block in which the code
    lies, and nothing when the code lies in none.  [_code_parts]
    decomposes every code of at most 4300 digits; on more, [int] raises a
    ValueError and [_find_range_block] with it.  For the block from [A1]
    to [A3], the codes [A1], [A2] and [A3] lie in it and [A4] and [B1] do
    not. *)
Theorem range_containment :
  (forall b code key num skey snum ekey enum,
     _code_parts code = Ok (key, num) ->
     _code_parts (start_code b) = Ok (skey, snum) ->
     _code_parts (end_code b) = Ok (ekey, enum) ->
     (_find_range_block [b] code = Ok (Some b)
      <-> key = skey /\ key = ekey /\ snum <= num <= enum)
     /\ (_find_range_block [b] code = Ok None
         <-> ~ (key = skey /\ key = ekey /\ snum <= num <= enum)))
  /\ (forall blocks code,
        decomposes code ->
        Forall (fun b' => decomposes (start_code b')
                          /\ decomposes (end_code b')) blocks ->
        (forall b,
           _find_range_block blocks code = Ok (Some b)
           <-> exists before after,
                 blocks = before ++ b :: after
                 /\ block_contains b code
                 /\ Forall (fun b' => ~ block_contains b' code) before)
        /\ (_find_range_block blocks code = Ok None
            <-> Forall (fun b' => ~ block_contains b' code) blocks))
  /\ (forall code, few_digits code -> decomposes code)
  /\ (_find_range_block [block_A1_A3] (lit "A1") = Ok (Some block_A1_A3)
      /\ _find_range_block [block_A1_A3] (lit "A2") = Ok (Some block_A1_A3)
      /\ _find_range_block [block_A1_A3] (lit "A3") = Ok (Some block_A1_A3)
      /\ _find_range_block [block_A1_A3] (lit "A4") = Ok None
      /\ _find_range_block [block_A1_A3] (lit "B1") = Ok None)
  /\ _find_range_block [block_A1_A3] (ch "A" :: repeat (ch "1") 4301)
     = Raise ValueError.
Proof.
  split; [|split; [|split; [|split]]].
  - intros b code key num skey snum ekey enum Hc Hs He.
    destruct (_find_range_block_cons b [] code _ _ _ _ _ _ Hc Hs He)
      as [(H1 & H2 & H3 & ->)|(Hn & ->)].
    + split.
      * split; [intros _; auto|intros _; reflexivity].
      * split; [discriminate|]. intros N. exfalso. apply N. auto.
    + rewrite (_find_range_block_nil _ _ _ Hc). split.
      * split; [discriminate|]. intros H. contradiction.
      * split; [intros _; exact Hn|intros _; reflexivity].
  - intros blocks code Hc Hall. split.
    + intros b. apply find_first_block; assumption.
    + apply find_no_block; assumption.
  - apply _code_parts_ok.
  - repeat split; vm_compute; reflexivity.
  - vm_compute. reflexivity.
Qed.

(** ** C8: text without control syntax *)

Lemma run_star_class_cons p x s c k :
  run (Star (Class p)) (x :: s) c k =
  if p x then
    match run (Star (Class p)) s c k with
    | Some m => Some m
    | None => k (x :: s) c
    end
  else k (x :: s) c.
Proof.
  simpl. destruct (p x); [|reflexivity].
  assert (E : (length s <? S (length s))%nat = true)
    by (apply Nat.ltb_lt; lia).
  rewrite E. reflexivity.
Qed.

(** A greedy repetition of a class in front of a continuation that
    accepts takes all the leading characters of the class. *)
Lemma run_star_class_greedy p s c :
  run (Star (Class p)) s c (fun s' c' => Some (c', s'))
  = Some (c, skip_while p s).
Proof.
  induction s as [|x s IH].
  - reflexivity.
  - rewrite run_star_class_cons. cbn [skip_while].
    destruct (p x); [|reflexivity]. now rewrite IH.
Qed.

Lemma skip_while_length p s : (length (skip_while p s) <= length s)%nat.
Proof.
  induction s as [|y s IH]; simpl; [lia|]. destruct (p y); simpl; lia.
Qed.

Lemma length_skip_while p s :
  (length s - length (skip_while p s))%nat = lead p s.
Proof.
  induction s as [|x s IH]; simpl; [reflexivity|].
  destruct (p x); simpl; [|lia].
  rewrite <- IH. pose proof (skip_while_length p s). lia.
Qed.

Lemma re_match_blanks x s :
  re_match blanks (x :: s) =
  if is_blank x then Some ([], skip_while is_blank s) else None.
Proof.
  change ((if is_blank x
           then run (Star (Class is_blank)) s [] (fun s' c => Some (c, s'))
           else None)
          = if is_blank x then Some ([], skip_while is_blank s) else None).
  now rewrite run_star_class_greedy.
Qed.

Lemma sub_blanks s :
  sub_from blanks (fun _ _ => Ok [SPACE]) s 0 = Ok (collapse_blanks false s)
  /\ sub_from blanks (fun _ _ => Ok [SPACE]) s (lead is_blank s)
     = Ok (collapse_blanks true s).
Proof.
  induction s as [|x s [IH0 IH1]]; [split; reflexivity|].
  assert (H0 : sub_from blanks (fun _ _ => Ok [SPACE]) (x :: s) 0
               = Ok (collapse_blanks false (x :: s))).
  { cbn [sub_from]. rewrite re_match_blanks. simpl collapse_blanks.
    destruct (is_blank x).
    - replace (length (x :: s) - length (skip_while is_blank s))%nat
        with (S (lead is_blank s)).
      + rewrite IH1. reflexivity.
      + rewrite <- length_skip_while. simpl.
        pose proof (skip_while_length is_blank s). lia.
    - rewrite IH0. reflexivity. }
  split; [exact H0|].
  simpl lead. simpl collapse_blanks. destruct (is_blank x) eqn:E.
  - cbn [sub_from]. exact IH1.
  - simpl collapse_blanks in H0. rewrite E in H0. exact H0.
Qed.

Lemma re_match_newlines3 s :
  re_match newlines3 s =
  match s with
  | a :: b :: c :: s' =>
      if is_lf a && is_lf b && is_lf c
      then Some ([], skip_while is_lf s') else None
  | _ => None
  end.
Proof.
  destruct s as [|a [|b [|c s']]].
  - reflexivity.
  - unfold re_match. simpl.
    repeat match goal with
           | |- context [if ?b then _ else _] => destruct b
           end; reflexivity.
  - unfold re_match. simpl.
    repeat match goal with
           | |- context [if ?b then _ else _] => destruct b
           end; reflexivity.
  - change ((if is_lf a then if is_lf b then if is_lf c
              then run (Star (Class is_lf)) s' [] (fun s' c => Some (c, s'))
              else None else None else None)
            = if is_lf a && is_lf b && is_lf c
              then Some ([], skip_while is_lf s') else None).
    rewrite run_star_class_greedy.
    destruct (is_lf a), (is_lf b), (is_lf c); reflexivity.
Qed.

Lemma re_match_newlines3_other x s :
  is_lf x = false -> re_match newlines3 (x :: s) = None.
Proof.
  intros E. rewrite re_match_newlines3.
  destruct s as [|b [|c s']]; try reflexivity. now rewrite E.
Qed.

Lemma is_lf_eqb c : is_lf c = (c =? LF).
Proof. unfold is_lf, char_eqb. apply Z.eqb_sym. Qed.

Lemma collapse_newlines_late n m s :
  (2 <= n)%nat -> (2 <= m)%nat ->
  collapse_newlines n s = collapse_newlines m s.
Proof.
  revert n m. induction s as [|x s IH]; intros n m Hn Hm; simpl; auto.
  destruct (x =? LF); [|reflexivity].
  assert (En : (n <? 2)%nat = false) by (apply Nat.ltb_ge; lia).
  assert (Em : (m <? 2)%nat = false) by (apply Nat.ltb_ge; lia).
  rewrite En, Em. apply IH; lia.
Qed.

Lemma sub_newlines s :
  let f := sub_from newlines3 (fun _ _ => Ok [LF; LF]) in
  (forall n, (n + lead is_lf s <= 2)%nat -> f s O = Ok (collapse_newlines n s))
  /\ ((3 <= lead is_lf s)%nat -> f s O = Ok (collapse_newlines 0 s))
  /\ (forall n, (2 <= n)%nat ->
        f s (lead is_lf s) = Ok (collapse_newlines n s)).
Proof.
  induction s as [|x s (IHa & IHb & IHc)]; [repeat split; reflexivity|].
  intros f.
  assert (Hplain : is_lf x = false ->
            forall n, f (x :: s) O = Ok (collapse_newlines n (x :: s))).
  { intros E n. unfold f. cbn [sub_from].
    rewrite re_match_newlines3_other by assumption.
    simpl collapse_newlines. rewrite <- is_lf_eqb, E.
    assert (Hs : f s O = Ok (collapse_newlines 0 s)).
    { destruct (Nat.le_gt_cases (lead is_lf s) 2).
      - apply IHa. lia.
      - apply IHb. lia. }
    unfold f in Hs. rewrite Hs. reflexivity. }
  destruct (is_lf x) eqn:E.
  - assert (x = LF) as ->.
    { rewrite is_lf_eqb in E. now apply Z.eqb_eq in E. }
    simpl lead. rewrite ?E. split; [|split].
    + intros n Hn. unfold f. cbn [sub_from].
      assert (Hno : re_match newlines3 (LF :: s) = None).
      { rewrite re_match_newlines3.
        destruct s as [|b [|c s']]; try reflexivity.
        simpl in Hn. destruct (is_lf b) eqn:Eb.
        - destruct (is_lf c) eqn:Ec; [lia|]. now rewrite andb_false_r.
        - now rewrite andb_false_r. }
      rewrite Hno. simpl collapse_newlines.
      assert (En : (n <? 2)%nat = true) by (apply Nat.ltb_lt; lia).
      rewrite En. rewrite (IHa (S n)) by lia. reflexivity.
    + intros Hn. unfold f. cbn [sub_from]. rewrite re_match_newlines3.
      destruct s as [|b [|c s']]; simpl in Hn; try lia.
      * destruct (is_lf b); simpl in Hn; lia.
      * destruct (is_lf b) eqn:Eb; [|lia].
        destruct (is_lf c) eqn:Ec; [|lia].
        assert (b = LF) as -> by (rewrite is_lf_eqb in Eb; now apply Z.eqb_eq).
        assert (c = LF) as -> by (rewrite is_lf_eqb in Ec; now apply Z.eqb_eq).
        replace (is_lf LF) with true by reflexivity. simpl andb. cbv iota.
        replace (length (LF :: LF :: LF :: s')
                 - length (skip_while is_lf s'))%nat
          with (S (lead is_lf (LF :: LF :: s'))).
        2:{ simpl. rewrite <- length_skip_while.
            pose proof (skip_while_length is_lf s'). lia. }
        rewrite (IHc 2%nat) by lia. simpl. do 3 f_equal.
        apply collapse_newlines_late; lia.
    + intros n Hn. unfold f. cbn [sub_from].
      rewrite (IHc (S n)) by lia. simpl collapse_newlines.
      assert (En : (n <? 2)%nat = false) by (apply Nat.ltb_ge; lia).
      now rewrite En.
  - simpl lead. rewrite E. split; [|split].
    + intros n _. now apply Hplain.
    + lia.
    + intros n _. now apply Hplain.
Qed.

Lemma sub_from_no_match r repl s :
  (forall x t, In x s -> re_match r (x :: t) = None) ->
  sub_from r repl s 0 = Ok s.
Proof.
  induction s as [|x s IH]; intros H; simpl; [reflexivity|].
  rewrite (H x s) by now left.
  rewrite IH; [reflexivity|]. intros y t Hy. apply H. now right.
Qed.

Lemma needs_backslash_chr r : needs_backslash (Chr BACKSLASH >> r).
Proof.
  intros w t c c' H. apply M_Cat_inv in H as (w1 & w2 & c1 & -> & H1 & _).
  apply M_Class_inv in H1 as (x & -> & Hx & _).
  apply Z.eqb_eq in Hx as <-. eauto.
Qed.

Lemma needs_backslash_cat r1 r2 :
  needs_backslash r1 -> needs_backslash (r1 >> r2).
Proof.
  intros H1 w t c c' H. apply M_Cat_inv in H as (w1 & w2 & c1 & -> & H & _).
  apply H1 in H as [w' ->]. eauto.
Qed.

Lemma needs_backslash_or r1 r2 :
  needs_backslash r1 -> needs_backslash r2 -> needs_backslash (Or r1 r2).
Proof. intros H1 H2 w t c c' H. apply M_Or_inv in H as [H|H]; eauto. Qed.

Lemma re_match_needs_backslash r x t :
  needs_backslash r -> x <> BACKSLASH -> re_match r (x :: t) = None.
Proof.
  intros Hr Hx. destruct (re_match r (x :: t)) as [[c rest]|] eqn:E; auto.
  apply re_match_sound in E as (w & E & H). apply Hr in H as [w' ->].
  simpl in E. congruence.
Qed.

Lemma rtf_patterns_need_backslash :
  needs_backslash rtf_continuation /\ needs_backslash rtf_break
  /\ needs_backslash rtf_unicode /\ needs_backslash rtf_hex
  /\ needs_backslash rtf_control.
Proof.
  repeat split; try apply needs_backslash_chr.
  apply needs_backslash_or.
  - apply needs_backslash_cat. exact (needs_backslash_chr (Word (lit "par"))).
  - exact (needs_backslash_chr (Word (lit "line"))).
Qed.

Lemma re_match_class_other p x t :
  p x = false -> re_match (Class p) (x :: t) = None.
Proof. intros H. unfold re_match. simpl. now rewrite H. Qed.

Lemma sub_const_no_backslash r new s :
  needs_backslash r -> no_control_syntax s -> sub_const r new s = Ok s.
Proof.
  intros Hr Hs. apply sub_from_no_match. intros x t Hx.
  apply re_match_needs_backslash; [assumption|].
  unfold no_control_syntax in Hs. rewrite List.Forall_forall in Hs.
  now apply Hs.
Qed.

Lemma sub_no_backslash r repl s :
  needs_backslash r -> no_control_syntax s -> sub r repl s = Ok s.
Proof.
  intros Hr Hs. apply sub_from_no_match. intros x t Hx.
  apply re_match_needs_backslash; [assumption|].
  unfold no_control_syntax in Hs. rewrite List.Forall_forall in Hs.
  now apply Hs.
Qed.

Lemma sub_const_no_brace s :
  no_control_syntax s -> sub_const rtf_brace [] s = Ok s.
Proof.
  intros Hs. apply sub_from_no_match. intros x t Hx.
  apply re_match_class_other.
  unfold no_control_syntax in Hs. rewrite List.Forall_forall in Hs.
  destruct (Hs x Hx) as (_ & H1 & H2).
  apply orb_false_iff. split; apply Z.eqb_neq; assumption.
Qed.

Lemma sub_const_blanks s :
  sub_const blanks [SPACE] s = Ok (collapse_blanks false s).
Proof. exact (proj1 (sub_blanks s)). Qed.

Lemma sub_const_newlines3 s :
  sub_const newlines3 [LF; LF] s = Ok (collapse_newlines 0 s).
Proof.
  destruct (sub_newlines s) as (Ha & Hb & _).
  destruct (Nat.le_gt_cases (lead is_lf s) 2).
  - apply (Ha 0%nat). lia.
  - apply Hb. lia.
Qed.

(** Without control syntax the decoder only normalizes white space. *)
Lemma rtf_to_text_plain s :
  no_control_syntax s -> rtf_to_text s = Ok (normalize_whitespace s).
Proof.
  intros Hs. unfold rtf_to_text.
  destruct rtf_patterns_need_backslash as (H1 & H2 & H3 & H4 & H5).
  rewrite sub_const_no_backslash by assumption. simpl bind.
  rewrite sub_const_no_backslash by assumption. simpl bind.
  rewrite sub_no_backslash by assumption. simpl bind.
  rewrite sub_no_backslash by assumption. simpl bind.
  rewrite sub_const_no_backslash by assumption. simpl bind.
  rewrite sub_const_no_brace by assumption. simpl bind.
  rewrite sub_const_blanks. simpl bind.
  rewrite sub_const_newlines3. reflexivity.
Qed.

Lemma is_blank_space_or_tab x : is_blank x = true -> x = SPACE \/ x = TAB.
Proof. unfold is_blank. intros H. apply orb_true_iff in H. lia. Qed.

Lemma collapse_blanks_normal s :
  ~ In TAB s -> (forall a b, s <> a ++ SPACE :: SPACE :: b) ->
  collapse_blanks false s = s
  /\ ((forall y t, s = y :: t -> is_blank y = false) ->
      collapse_blanks true s = s).
Proof.
  induction s as [|x s IH]; intros Ht Hd; [split; reflexivity|].
  assert (Ht' : ~ In TAB s) by (intros N; apply Ht; now right).
  assert (Hd' : forall a b, s <> a ++ SPACE :: SPACE :: b).
  { intros a b E. apply (Hd (x :: a) b). simpl. now f_equal. }
  destruct (IH Ht' Hd') as [IH0 IH1].
  simpl. destruct (is_blank x) eqn:E.
  - apply is_blank_space_or_tab in E as E'. destruct E' as [->| ->].
    + split.
      * f_equal. apply IH1. intros y t -> .
        destruct (is_blank y) eqn:Ey; [|reflexivity].
        apply is_blank_space_or_tab in Ey as [->| ->].
        -- exfalso. apply (Hd [] t). reflexivity.
        -- exfalso. apply Ht'. now left.
      * intros H. specialize (H SPACE s eq_refl). discriminate.
    + exfalso. apply Ht. now left.
  - rewrite IH0. auto.
Qed.

Lemma no_triple_lead s :
  (forall a b, s <> a ++ LF :: LF :: LF :: b) -> (lead is_lf s <= 2)%nat.
Proof.
  intros H. destruct s as [|a [|b [|c s']]]; simpl;
    repeat match goal with
           | |- context [if ?b then _ else _] => destruct b eqn:?
           end; try lia.
  exfalso. apply (H [] s'). simpl.
  repeat match goal with
         | E : is_lf ?x = true |- _ =>
             rewrite is_lf_eqb in E; apply Z.eqb_eq in E; subst x
         end.
  reflexivity.
Qed.

Lemma collapse_newlines_normal s :
  (forall a b, s <> a ++ LF :: LF :: LF :: b) ->
  forall n, (n + lead is_lf s <= 2)%nat -> collapse_newlines n s = s.
Proof.
  induction s as [|x s IH]; intros Hd n Hn; [reflexivity|].
  assert (Hd' : forall a b, s <> a ++ LF :: LF :: LF :: b).
  { intros a b E. apply (Hd (x :: a) b). simpl. now f_equal. }
  simpl in *. rewrite <- is_lf_eqb. destruct (is_lf x) eqn:E.
  - assert (En : (n <? 2)%nat = true) by (apply Nat.ltb_lt; lia).
    rewrite En.
    assert (x = LF) as -> by (rewrite is_lf_eqb in E; now apply Z.eqb_eq).
    f_equal. apply IH; [assumption|lia].
  - f_equal. apply IH; [assumption|]. pose proof (no_triple_lead s Hd'). lia.
Qed.

Lemma normalize_whitespace_normal s :
  normal_form s -> normalize_whitespace s = s.
Proof.
  intros (Ht & Hd & Hn & Htr). unfold normalize_whitespace.
  rewrite (proj1 (collapse_blanks_normal s Ht Hd)).
  rewrite collapse_newlines_normal; auto.
  - now apply strip_of_trimmed.
  - pose proof (no_triple_lead s Hn). lia.
Qed.

(** C8: on a text with no backslash and no brace, plain ASCII or not,
    [rtf_to_text] returns the text with its white space normalized: every
    run of spaces and tabs becomes one space, every run of three or more
    newlines becomes two, and the white space at both ends is removed.  A
    text already in that normal form comes back unchanged. *)
Theorem rtf_to_text_on_plain_text s :
  no_control_syntax s ->
  rtf_to_text s = Ok (normalize_whitespace s)
  /\ (normal_form s -> rtf_to_text s = Ok s).
Proof.
  intros Hs. split.
  - now apply rtf_to_text_plain.
  - intros Hn. rewrite rtf_to_text_plain by assumption.
    now rewrite normalize_whitespace_normal.
Qed.

Lemma rtf_to_text_on_plain_text_witness :
  (rtf_to_text ([TAB] ++ lit "Total:  5" ++ [TAB; LF; LF; LF; LF] ++ lit "ok ")
   = Ok (lit "Total: 5 " ++ [LF; LF] ++ lit "ok"))
  /\ rtf_to_text (lit "a b") = Ok (lit "a b").
Proof.
  split.
  - apply (rtf_to_text_on_plain_text
             ([TAB] ++ lit "Total:  5" ++ [TAB; LF; LF; LF; LF] ++ lit "ok ")).
    repeat (constructor; [vm_compute; repeat split; discriminate|]).
    constructor.
  - apply (rtf_to_text_on_plain_text (lit "a b")).
    + repeat (constructor; [vm_compute; repeat split; discriminate|]).
      constructor.
    + repeat split.
      * vm_compute. intuition discriminate.
      * intros a b E.
        do 3 (destruct a as [|? a]; [discriminate|injection E as _ E]).
        destruct a; discriminate.
      * intros a b E.
        do 3 (destruct a as [|? a]; [discriminate|injection E as _ E]).
        destruct a; discriminate.
      * intros c t E. injection E as <- _. reflexivity.
      * intros t c E.
        change (lit "a b") with ([97; 32] ++ [98]) in E.
        apply app_inj_tail in E as [_ <-]. reflexivity.
Defined.

(** ** C10: bytes to text *)

Lemma byte_val_range b : 0 <= byte_val b < 256.
Proof.
  unfold byte_val. pose proof (Byte.to_N_bounded b) as H. lia.
Qed.

Lemma bind_ok {A B} (x : outcome A) (f : A -> outcome B) b :
  (a <- x ;; f a) = Ok b -> exists a, x = Ok a /\ f a = Ok b.
Proof. destruct x; simpl; intros H; try discriminate. eauto. Qed.

Lemma decode_cp1252_roundtrip raw : forall s,
  decode_cp1252 Strict raw = Ok s ->
  flat_map encode_cp1252_char s = map byte_val raw.
Proof.
  induction raw as [|b raw IH]; intros s H; simpl in H.
  - now injection H as <-.
  - destruct (cp1252_char (byte_val b)) as [c|] eqn:E; [|discriminate].
    apply bind_ok in H as (t & Ht & [= <-]).
    simpl. rewrite (IH t Ht).
    replace (encode_cp1252_char c) with [byte_val b]; [reflexivity|].
    revert E. clear. destruct b; vm_compute; intros [= <-]; reflexivity.
Qed.

Lemma decode_cp1252_outcome raw :
  (exists s, decode_cp1252 Strict raw = Ok s)
  \/ decode_cp1252 Strict raw = Raise UnicodeDecodeError.
Proof.
  induction raw as [|b raw [[s IH]|IH]]; simpl.
  - left. eauto.
  - destruct (cp1252_char (byte_val b)); [|auto].
    rewrite IH. left. simpl. eauto.
  - destruct (cp1252_char (byte_val b)); [|auto].
    rewrite IH. right. reflexivity.
Qed.

Ltac utf8_arith :=
  unfold encode_utf8_char, is_cont, in_range in *;
  repeat match goal with
         | H : _ && _ = true |- _ => apply andb_true_iff in H as [? ?]
         | H : (if ?c then _ else true) = true |- _ => destruct c eqn:?
         end;
  repeat match goal with
         | |- context [?a <? ?b] => destruct (Z.ltb_spec a b); try lia
         end;
  repeat f_equal; Z.div_mod_to_equations; lia.

Lemma decode_utf8_strict n : forall raw s,
  (length raw <= n)%nat ->
  decode_utf8 Strict raw = Ok s ->
  flat_map encode_utf8_char s = map byte_val raw.
Proof.
  induction n as [|n IH]; intros [|b0 r0] s Hn H; simpl in Hn; try lia;
    try (injection H as <-; reflexivity).
  cbn [decode_utf8] in H.
  pose proof (byte_val_range b0) as R0.
  set (x0 := byte_val b0) in *.
  destruct (x0 <? 128) eqn:C1.
  { apply bind_ok in H as (t & Ht & [= <-]).
    simpl. rewrite (IH r0 t) by (auto; lia).
    f_equal. utf8_arith. }
  destruct (in_range 194 223 x0) eqn:C2.
  { destruct r0 as [|b1 r1]; [discriminate|].
    pose proof (byte_val_range b1) as R1. set (x1 := byte_val b1) in *.
    destruct (is_cont x1) eqn:K1; [|discriminate].
    apply bind_ok in H as (t & Ht & [= <-]).
    simpl in Hn. simpl. rewrite (IH r1 t) by (auto; lia).
    fold x0 x1.
    change (x0 :: x1 :: map byte_val r1)
      with ([x0; x1] ++ map byte_val r1).
    f_equal. utf8_arith. }
  destruct (in_range 224 239 x0) eqn:C3.
  { destruct r0 as [|b1 r1]; [discriminate|].
    pose proof (byte_val_range b1) as R1. set (x1 := byte_val b1) in *.
    match type of H with
    | (if ?c then _ else _) = _ => destruct c eqn:K1; [|discriminate]
    end.
    destruct r1 as [|b2 r2]; [discriminate|].
    pose proof (byte_val_range b2) as R2. set (x2 := byte_val b2) in *.
    destruct (is_cont x2) eqn:K2; [|discriminate].
    apply bind_ok in H as (t & Ht & [= <-]).
    simpl in Hn. simpl. rewrite (IH r2 t) by (auto; lia).
    fold x0 x1 x2.
    change (x0 :: x1 :: x2 :: map byte_val r2)
      with ([x0; x1; x2] ++ map byte_val r2).
    f_equal. utf8_arith. }
  destruct (in_range 240 244 x0) eqn:C4; [|discriminate].
  destruct r0 as [|b1 r1]; [discriminate|].
  pose proof (byte_val_range b1) as R1. set (x1 := byte_val b1) in *.
  match type of H with
  | (if ?c then _ else _) = _ => destruct c eqn:K1; [|discriminate]
  end.
  destruct r1 as [|b2 r2]; [discriminate|].
  pose proof (byte_val_range b2) as R2. set (x2 := byte_val b2) in *.
  destruct (is_cont x2) eqn:K2; [|discriminate].
  destruct r2 as [|b3 r3]; [discriminate|].
  pose proof (byte_val_range b3) as R3. set (x3 := byte_val b3) in *.
  destruct (is_cont x3) eqn:K3; [|discriminate].
  apply bind_ok in H as (t & Ht & [= <-]).
  simpl in Hn. simpl. rewrite (IH r3 t) by (auto; lia).
  fold x0 x1 x2 x3.
  change (x0 :: x1 :: x2 :: x3 :: map byte_val r3)
    with ([x0; x1; x2; x3] ++ map byte_val r3).
  f_equal. utf8_arith.
Qed.

Lemma decode_utf8_strict_outcome n : forall raw,
  (length raw <= n)%nat ->
  (exists s, decode_utf8 Strict raw = Ok s)
  \/ decode_utf8 Strict raw = Raise UnicodeDecodeError.
Proof.
  induction n as [|n IH]; intros [|b0 r0] Hn; simpl in Hn; try lia;
    try (left; eexists; reflexivity).
  assert (Hb : forall r (f : str -> str),
             (length r <= n)%nat ->
             (exists s, (t <- decode_utf8 Strict r ;; Ok (f t)) = Ok s)
             \/ (t <- decode_utf8 Strict r ;; Ok (f t))
                = Raise UnicodeDecodeError).
  { intros r f Hr. destruct (IH r Hr) as [[s ->]| ->]; simpl; eauto. }
  cbn [decode_utf8].
  destruct (byte_val b0 <? 128); [apply Hb; lia|].
  destruct (in_range 194 223 (byte_val b0)).
  { destruct r0 as [|b1 r1]; [now right|]. simpl in Hn.
    destruct (is_cont (byte_val b1)); [apply Hb; lia|now right]. }
  destruct (in_range 224 239 (byte_val b0)).
  { destruct r0 as [|b1 r1]; [now right|]. simpl in Hn.
    match goal with
    | |- context [if ?c then _ else _] => destruct c; [|now right]
    end.
    destruct r1 as [|b2 r2]; [now right|]. simpl in Hn.
    destruct (is_cont (byte_val b2)); [apply Hb; lia|now right]. }
  destruct (in_range 240 244 (byte_val b0)); [|now right].
  destruct r0 as [|b1 r1]; [now right|]. simpl in Hn.
  match goal with
  | |- context [if ?c then _ else _] => destruct c; [|now right]
  end.
  destruct r1 as [|b2 r2]; [now right|]. simpl in Hn.
  destruct (is_cont (byte_val b2)); [|now right].
  destruct r2 as [|b3 r3]; [now right|]. simpl in Hn.
  destruct (is_cont (byte_val b3)); [apply Hb; lia|now right].
Qed.

(** C10: [_decode_bytes] returns a text for every byte string and never
    raises.  The text is the strict decoding of the bytes in one of the
    three encodings, so the lossy fallback is never reached; encoding the
    text again gives back every byte, so none was dropped.  Latin-1 alone
    decodes every byte string. *)
Theorem decode_bytes_never_fails raw :
  (exists enc s,
     In enc [Utf8; Cp1252; Latin1]
     /\ _decode_bytes raw = Ok s
     /\ decode enc Strict raw = Ok s
     /\ encode enc s = map byte_val raw)
  /\ decode Latin1 Strict raw = Ok (map byte_val raw).
Proof.
  split; [|reflexivity].
  unfold _decode_bytes. cbn [decode_first].
  destruct (decode_utf8_strict_outcome (length raw) raw (le_n _))
    as [[s Hs]|Hs].
  - exists Utf8, s. cbn [decode]. rewrite Hs.
    repeat split; auto; [now left|].
    simpl. eapply decode_utf8_strict; eauto.
  - cbn [decode]. rewrite Hs.
    destruct (decode_cp1252_outcome raw) as [[s Hc]|Hc].
    + exists Cp1252, s. rewrite Hc.
      repeat split; auto; [right; now left|].
      simpl. now apply decode_cp1252_roundtrip.
    + rewrite Hc. exists Latin1, (map byte_val raw).
      repeat split; auto. right. right. now left.
Qed.

(** ** C1: the report when every score is the maximum *)

Lemma fold_left_append {A B} (f : B -> list A) (l : list B) : forall init,
  fold_left (fun acc x => acc ++ f x) l init = init ++ flat_map f l.
Proof.
  induction l as [|x l IH]; intros init; simpl.
  - now rewrite app_nil_r.
  - rewrite IH. now rewrite app_assoc.
Qed.

Lemma flat_map_ext_in {A B} (f g : A -> list B) l :
  (forall x, In x l -> f x = g x) -> flat_map f l = flat_map g l.
Proof.
  induction l as [|x l IH]; intros H; simpl; [reflexivity|].
  rewrite (H x) by now left. rewrite IH; [reflexivity|].
  intros y Hy. apply H. now right.
Qed.

Lemma join_cons_cons sep (x y : str) l :
  join sep (x :: y :: l) = x ++ sep ++ join sep (y :: l).
Proof. reflexivity. Qed.

Lemma join_blocks (explanations : gmap str str) items :
  join [LF]
    ([] :: flat_map (fun item =>
             [item_line item;
              lit "Explanation: "
              ++ strip (default [] (explanations !! code item));
              []]) items)
  = concat (map (item_block explanations) items).
Proof.
  induction items as [|it items IH]; [reflexivity|].
  cbn [flat_map map concat app].
  rewrite !join_cons_cons.
  match goal with
  | |- context [join [LF] ([] :: ?l)] =>
      change (join [LF] ([] :: l)) with (join [LF] ([] :: l))
  end.
  rewrite IH. unfold item_block. rewrite <- !app_assoc. reflexivity.
Qed.

(** The report as one text, before the final strip. *)
Lemma format_output_text items scores explanations :
  (forall it, In it items ->
     default fzero (scores !! code it) = max_points it) ->
  format_output items scores explanations
  = strip (total_line items ++ [LF]
           ++ concat (map (item_block explanations) items)) ++ [LF].
Proof.
  intros H. unfold format_output.
  assert (E : map (fun item => default fzero (scores !! code item)) items
              = map max_points items).
  { apply map_ext_in. assumption. }
  rewrite E. f_equal. f_equal.
  assert (F : fold_left
      (fun lines item =>
         lines ++ [code item ++ lit ": "
                   ++ format_g (default fzero (scores !! code item))
                   ++ lit "/" ++ format_g (max_points item);
                   lit "Explanation: "
                   ++ strip (default [] (explanations !! code item));
                   []]) items
      [lit "Total: " ++ format_g (py_sum (map max_points items)) ++ lit "/"
       ++ format_g (py_sum (map max_points items)); []]
    = [total_line items; []]
      ++ flat_map (fun item =>
           [item_line item;
            lit "Explanation: "
            ++ strip (default [] (explanations !! code item));
            []]) items).
  { etransitivity; [apply fold_left_append|].
    apply (f_equal (app [total_line items; []])).
    apply flat_map_ext_in. intros it Hit.
    unfold item_line. rewrite (H it Hit). reflexivity. }
  etransitivity; [apply (f_equal (join [LF])); exact F|].
  change ([total_line items; []] ++ ?l) with (total_line items :: [] :: l).
  rewrite join_cons_cons, join_blocks. reflexivity.
Qed.

(** C1: when the score of every item, looked up by its code, is the
    item's [max_points], the report of [format_output] starts with the
    line [Total: S/S], where [S] is the sum of the [max_points] in compact
    form, and has for every item, after the lines of the items before it,
    a line of its own [<code>: <max>/<max>], followed by the line of its
    explanation. *)
Theorem format_output_at_full_marks items scores explanations :
  (forall it, In it items ->
     default fzero (scores !! code it) = max_points it) ->
  (exists rest,
     format_output items scores explanations
     = total_line items ++ [LF] ++ rest)
  /\ (forall before it after,
        items = before ++ it :: after ->
        exists rest,
          format_output items scores explanations
          = total_line items ++ [LF]
            ++ concat (map (item_block explanations) before)
            ++ [LF] ++ item_line it ++ [LF] ++ lit "Explanation:" ++ rest).
Proof.
  intros H. rewrite (format_output_text items scores explanations H).
  assert (Hitems : forall before it after,
    items = before ++ it :: after ->
    exists rest,
      strip (total_line items ++ [LF]
             ++ concat (map (item_block explanations) items)) ++ [LF]
      = total_line items ++ [LF]
        ++ concat (map (item_block explanations) before)
        ++ [LF] ++ item_line it ++ [LF] ++ lit "Explanation:" ++ rest).
  { intros before it after E.
    set (X := total_line items ++ [LF]
              ++ concat (map (item_block explanations) before)
              ++ [LF] ++ item_line it ++ [LF] ++ lit "Explanation").
    set (Y := [SPACE] ++ strip (default [] (explanations !! code it)) ++ [LF]
              ++ concat (map (item_block explanations) after)).
    assert (W : total_line items ++ [LF]
                ++ concat (map (item_block explanations) items)
                = X ++ ch ":" :: Y).
    { subst X Y. rewrite E at 2. rewrite map_app, concat_app.
      cbn [map concat]. unfold item_block at 2.
      rewrite <- !app_assoc. reflexivity. }
    rewrite W. unfold strip.
    assert (L : lstrip (X ++ ch ":" :: Y) = X ++ ch ":" :: Y).
    { subst X. unfold total_line. rewrite <- !app_assoc. reflexivity. }
    rewrite L, rstrip_app_nonspace by reflexivity.
    exists (rstrip Y ++ [LF]). subst X.
    rewrite <- !app_assoc. reflexivity. }
  split; [|exact Hitems].
  destruct items as [|it items].
  - exists []. vm_compute. reflexivity.
  - destruct (Hitems [] it items eq_refl) as [rest ->].
    eexists. simpl. reflexivity.
Qed.

Lemma format_output_at_full_marks_witness :
  let i1 := {| code := lit "A1"; description := lit "Thesis";
               max_points := float_of_Z 5; details := [] |} in
  let i2 := {| code := lit "A2"; description := lit "Evidence";
               max_points := float_of_ratio 5 2; details := [] |} in
  let scores : gmap str float :=
    <[lit "A1" := float_of_Z 5]> (<[lit "A2" := float_of_ratio 5 2]> ∅) in
  let explanations : gmap str str := <[lit "A2" := lit " late "]> ∅ in
  (exists rest,
     format_output [i1; i2] scores explanations
     = lit "Total: 7.5/7.5" ++ [LF] ++ rest)
  /\ (exists rest,
        format_output [i1; i2] scores explanations
        = lit "Total: 7.5/7.5" ++ [LF]
          ++ ([LF] ++ lit "A1: 5/5" ++ [LF] ++ lit "Explanation: " ++ [LF])
          ++ [LF] ++ lit "A2: 2.5/2.5" ++ [LF] ++ lit "Explanation:" ++ rest).
Proof.
  intros i1 i2 scores explanations.
  destruct (format_output_at_full_marks [i1; i2] scores explanations)
    as [H1 H2].
  - intros it [<-|[<-|[]]]; vm_compute; reflexivity.
  - split.
    + destruct H1 as [rest H1]. exists rest. rewrite H1.
      vm_compute. reflexivity.
    + destruct (H2 [i1] i2 [] eq_refl) as [rest H]. exists rest. rewrite H.
      vm_compute. reflexivity.
Defined.

(** The whole report of that example. *)
Example format_output_example :
  format_output
    [{| code := lit "A1"; description := lit "Thesis";
        max_points := float_of_Z 5; details := [] |};
     {| code := lit "A2"; description := lit "Evidence";
        max_points := float_of_ratio 5 2; details := [] |}]
    (<[lit "A1" := float_of_Z 5]> (<[lit "A2" := float_of_ratio 5 2]> ∅))
    (<[lit "A2" := lit " late "]> ∅)
  = lit "Total: 7.5/7.5" ++ [LF; LF]
    ++ lit "A1: 5/5" ++ [LF] ++ lit "Explanation: " ++ [LF; LF]
    ++ lit "A2: 2.5/2.5" ++ [LF] ++ lit "Explanation: late" ++ [LF].
Proof. vm_compute. reflexivity. Qed.

(** A use of C6: the block from [A1] to [A3] is found behind a block the
    code does not lie in, and alone. *)
Lemma range_containment_witness :
  let other := {| start_code := lit "B1"; end_code := lit "B4";
                  header := lit "B1-B4) Other"; range_details := [] |} in
  _find_range_block [other; block_A1_A3] (lit "A2") = Ok (Some block_A1_A3)
  /\ _find_range_block [block_A1_A3] (lit "A2") = Ok (Some block_A1_A3)
  /\ decomposes (lit "A2").
Proof.
  intros other. destruct range_containment as (H1 & H2 & H3 & _).
  assert (Hfew : few_digits (lit "A2")) by (apply Nat.leb_le; reflexivity).
  split; [|split].
  - apply (proj1 (H2 [other; block_A1_A3] (lit "A2") (H3 _ Hfew)
                    ltac:(repeat constructor;
                          eexists _, _; vm_compute; reflexivity))
                 block_A1_A3).
    exists [other], []. split; [reflexivity|]. split.
    + exists (lit "A"), 2, 1, 3. repeat split; vm_compute; congruence.
    + constructor; [|constructor].
      intros (key & num & sn & en & E1 & E2 & _).
      vm_compute in E1, E2. congruence.
  - apply (H1 block_A1_A3 (lit "A2") (lit "A") 2 (lit "A") 1 (lit "A") 3);
      [reflexivity|reflexivity|reflexivity|].
    repeat split; lia.
  - apply H3, Hfew.
Defined.

(** ** Section keys *)

(** The section of [A3] is [A], that of [2.1] is [2] and that of [7] is
    [7]. *)
Example section_key_examples :
  _section_key (lit "A3") = lit "A"
  /\ _section_key (lit "2.1") = lit "2"
  /\ _section_key (lit "7") = lit "7".
Proof. repeat split. Qed.

(** * Further properties *)

(** ** Grouping the items by section *)

Lemma str_eqb_refl a : str_eqb a a = true.
Proof. apply str_eqb_eq; reflexivity. Qed.

Lemma str_eqb_neq a b : str_eqb a b = false <-> a <> b.
Proof.
  split.
  - intros E ->. rewrite str_eqb_refl in E. discriminate.
  - intros N. destruct (str_eqb a b) eqn:E; [|reflexivity].
    apply str_eqb_eq in E. contradiction.
Qed.

Lemma odict_get_setdefault_append g k it k' :
  odict_get (setdefault_append g k it) k'
  = if str_eqb k k' then Some (default [] (odict_get g k) ++ [it])
    else odict_get g k'.
Proof.
  induction g as [|[k0 v] g IH]; cbn [setdefault_append odict_get].
  - destruct (str_eqb k k'); reflexivity.
  - destruct (str_eqb k0 k) eqn:E; cbn [odict_get].
    + apply str_eqb_eq in E. subst k0.
      destruct (str_eqb k k'); reflexivity.
    + rewrite IH. destruct (str_eqb k0 k') eqn:E'; [|reflexivity].
      apply str_eqb_eq in E'. subst k'. rewrite str_eqb_neq in E.
      destruct (str_eqb k k0) eqn:E2; [|reflexivity].
      apply str_eqb_eq in E2. congruence.
Qed.

Lemma group_items_snoc its it :
  group_items (its ++ [it])
  = setdefault_append (group_items its) (_section_key (code it)) it.
Proof. unfold group_items. rewrite fold_left_app. reflexivity. Qed.

Lemma items_of_section_snoc k its it :
  items_of_section k (its ++ [it])
  = items_of_section k its
    ++ (if str_eqb (_section_key (code it)) k then [it] else []).
Proof.
  unfold items_of_section. rewrite List.filter_app. cbn [List.filter].
  destruct (str_eqb _ k); reflexivity.
Qed.

Lemma group_items_get its : forall k,
  odict_get (group_items its) k
  = match items_of_section k its with [] => None | g => Some g end.
Proof.
  induction its as [|it its IH] using rev_ind; intros k; [reflexivity|].
  rewrite group_items_snoc, odict_get_setdefault_append,
    items_of_section_snoc.
  destruct (str_eqb (_section_key (code it)) k) eqn:E.
  - apply str_eqb_eq in E. subst k. rewrite IH.
    destruct (items_of_section _ its); reflexivity.
  - rewrite app_nil_r. apply IH.
Qed.

Lemma has_key_In k l : has_key k l = true <-> In k l.
Proof.
  unfold has_key. rewrite existsb_exists. split.
  - intros (y & Hy & E). apply str_eqb_eq in E. subst. exact Hy.
  - intros H. exists k. split; [exact H|apply str_eqb_refl].
Qed.

Lemma keys_setdefault_append g k it :
  map fst (setdefault_append g k it)
  = if has_key k (map fst g) then map fst g else map fst g ++ [k].
Proof.
  induction g as [|[k0 v] g IH]; [reflexivity|].
  cbn [setdefault_append map fst has_key existsb].
  destruct (str_eqb k0 k) eqn:E; cbn [map fst orb]; [reflexivity|].
  rewrite IH. unfold has_key. destruct (existsb _ (map fst g)); reflexivity.
Qed.

Lemma In_distinct x l : In x (distinct l) <-> In x l.
Proof.
  induction l as [|a l IH]; [reflexivity|]. cbn [distinct]. split.
  - intros H. apply in_inv in H as [->|H]; [left; reflexivity|].
    apply List.filter_In in H as [H _]. right. apply IH, H.
  - intros H. apply in_inv in H as [->|H]; [left; reflexivity|].
    destruct (decide (a = x)) as [->|N]; [left; reflexivity|].
    right. apply List.filter_In. split; [apply IH, H|].
    apply negb_true_iff, str_eqb_neq. congruence.
Qed.

Lemma NoDup_distinct l : List.NoDup (distinct l).
Proof.
  induction l as [|a l IH]; cbn [distinct]; constructor.
  - intros H. apply List.filter_In in H as [_ H].
    apply negb_true_iff, str_eqb_neq in H. congruence.
  - apply List.NoDup_filter, IH.
Qed.

Lemma distinct_snoc l x :
  distinct (l ++ [x])
  = if has_key x l then distinct l else distinct l ++ [x].
Proof.
  induction l as [|a l IH]; [reflexivity|].
  cbn [app distinct has_key existsb]. rewrite IH. fold (has_key x l).
  destruct (str_eqb a x) eqn:E; cbn [orb].
  - apply str_eqb_eq in E. subst a.
    destruct (has_key x l); [reflexivity|].
    rewrite List.filter_app. cbn [List.filter]. rewrite str_eqb_refl.
    cbn [negb]. rewrite app_nil_r. reflexivity.
  - destruct (has_key x l); [reflexivity|].
    rewrite List.filter_app. cbn [List.filter].
    assert (str_eqb x a = false) as ->.
    { apply str_eqb_neq. rewrite str_eqb_neq in E. intros ->. apply E.
      reflexivity. }
    reflexivity.
Qed.

Lemma has_key_distinct k l : has_key k (distinct l) = has_key k l.
Proof.
  destruct (has_key k l) eqn:E.
  - apply has_key_In, In_distinct, has_key_In, E.
  - destruct (has_key k (distinct l)) eqn:E'; [|reflexivity].
    apply (proj1 (has_key_In _ _)) in E'.
    apply (proj1 (In_distinct _ _)) in E'.
    apply (proj2 (has_key_In k l)) in E'. rewrite E in E'. discriminate.
Qed.

Lemma group_items_keys its :
  map fst (group_items its)
  = distinct (map (fun it => _section_key (code it)) its).
Proof.
  induction its as [|it its IH] using rev_ind; [reflexivity|].
  rewrite group_items_snoc, keys_setdefault_append, List.map_app.
  cbn [map]. rewrite distinct_snoc, IH, has_key_distinct. reflexivity.
Qed.

Lemma odict_get_In {V} (d : odict V) k v :
  odict_get d k = Some v -> In (k, v) d.
Proof.
  induction d as [|[k0 v0] d IH]; cbn [odict_get]; [discriminate|].
  destruct (str_eqb k0 k) eqn:E.
  - apply str_eqb_eq in E. intros [= ->]. subst. left. reflexivity.
  - intros H. right. apply IH, H.
Qed.

Lemma In_odict_get {V} (d : odict V) k v :
  List.NoDup (map fst d) -> In (k, v) d -> odict_get d k = Some v.
Proof.
  induction d as [|[k0 v0] d IH]; cbn [odict_get map fst]; [contradiction|].
  intros Hnd Hin. apply List.NoDup_cons_iff in Hnd as [Hk Hnd].
  destruct Hin as [[= -> ->]|Hin].
  - rewrite str_eqb_refl. reflexivity.
  - destruct (str_eqb k0 k) eqn:E.
    + apply str_eqb_eq in E. subst k0. exfalso. apply Hk.
      apply in_map_iff. exists (k, v). split; [reflexivity|exact Hin].
    + apply IH; assumption.
Qed.

(** X1: [group_items] puts every item into the group of its section key
    and nowhere else: a pair of a key and a list is an entry of the result
    exactly when the list is not empty and holds the items with that
    section key, in the order of the input. *)
Theorem group_items_entries items k g :
  In (k, g) (group_items items)
  <-> g = items_of_section k items /\ g <> [].
Proof.
  split.
  - intros Hin. apply In_odict_get in Hin.
    + rewrite group_items_get in Hin.
      destruct (items_of_section k items) eqn:E; [discriminate|].
      injection Hin as <-. split; [reflexivity|discriminate].
    + rewrite group_items_keys. apply NoDup_distinct.
  - intros [-> Hne]. apply odict_get_In. rewrite group_items_get.
    destruct (items_of_section k items); [contradiction|reflexivity].
Qed.

Lemma group_items_entries_witness :
  let a1 := {| code := lit "A1"; description := lit "Thesis";
               max_points := float_of_Z 5; details := [] |} in
  let b1 := {| code := lit "B1"; description := lit "Style";
               max_points := float_of_Z 2; details := [] |} in
  let a2 := {| code := lit "A2"; description := lit "Evidence";
               max_points := float_of_Z 3; details := [] |} in
  In (lit "A", [a1; a2]) (group_items [a1; b1; a2])
  /\ ~ In (lit "A", [a1]) (group_items [a1; b1; a2]).
Proof.
  intros a1 b1 a2. split.
  - apply (proj2 (group_items_entries [a1; b1; a2] (lit "A") [a1; a2])).
    split; [vm_compute; reflexivity|discriminate].
  - intros H.
    apply (proj1 (group_items_entries [a1; b1; a2] (lit "A") [a1])) in H.
    destruct H as [H _]. vm_compute in H. discriminate.
Defined.

(** X2: the keys of the dictionary that [group_items] returns are the
    section keys of the items, each once, in the order in which they first
    occur among the items. *)
Theorem group_items_key_order items :
  map fst (group_items items)
  = distinct (map (fun it => _section_key (code it)) items)
  /\ List.NoDup (map fst (group_items items)).
Proof.
  split; [apply group_items_keys|].
  rewrite group_items_keys. apply NoDup_distinct.
Qed.

Lemma setdefault_append_perm g k it :
  Permutation (concat (map snd (setdefault_append g k it)))
              (it :: concat (map snd g)).
Proof.
  induction g as [|[k0 v] g IH]; cbn [setdefault_append map snd concat].
  - reflexivity.
  - destruct (str_eqb k0 k); cbn [map snd concat].
    + rewrite <- app_assoc. cbn [app].
      symmetry. apply Permutation_middle.
    + rewrite IH. symmetry. apply Permutation_middle.
Qed.

(** X3: [group_items] loses and repeats nothing: the groups, one after the
    other, hold the same items as the input, each as often. *)
Theorem group_items_permutation items :
  Permutation (concat (map snd (group_items items))) items.
Proof.
  induction items as [|it its IH] using rev_ind; [reflexivity|].
  rewrite group_items_snoc, setdefault_append_perm, IH.
  apply Permutation_cons_append.
Qed.

(** ** Section keys and code parts *)

Lemma starts_upper_cons x s : starts_upper (x :: s) = is_upper_AZ x.
Proof.
  destruct (is_upper_AZ x) eqn:E.
  - apply starts_upper_spec. eauto.
  - destruct (starts_upper (x :: s)) eqn:E2; [|reflexivity].
    apply starts_upper_spec in E2 as (L & s' & [= -> ->] & H). congruence.
Qed.

Lemma starts_upper_nil : starts_upper [] = false.
Proof. reflexivity. Qed.

(** X4: the section key of a code is a prefix of the code, and it is its
    own section key. *)
Theorem section_key_is_a_stable_prefix code :
  (exists t, code = _section_key code ++ t)
  /\ _section_key (_section_key code) = _section_key code.
Proof.
  unfold _section_key at 1 3 4. destruct code as [|x s].
  - split; [exists []; reflexivity|reflexivity].
  - rewrite starts_upper_cons. destruct (is_upper_AZ x) eqn:U.
    + cbn [firstn]. split; [exists s; reflexivity|].
      unfold _section_key. rewrite starts_upper_cons, U. reflexivity.
    + destruct (contains (ch ".") (x :: s)) eqn:C.
      * destruct (split_once_spec _ _ C) as [H1 H2].
        destruct (fst (split_once (ch ".") (x :: s))) as [|y a] eqn:Ea.
        { split; [eexists; exact H1|reflexivity]. }
        split; [eexists; exact H1|].
        injection H1 as -> _. unfold _section_key.
        rewrite starts_upper_cons, U, H2. reflexivity.
      * split; [exists []; rewrite app_nil_r; reflexivity|].
        unfold _section_key. rewrite starts_upper_cons, U, C. reflexivity.
Qed.

Lemma M_item_code_shape w t c c' :
  M (Or (upper >> Rep13 digit) number) w t c c' -> item_code w.
Proof.
  intros H. apply M_Or_inv in H as [H|H].
  - unfold upper, Rep13, Opt, digit in H.
    invM; left; cbn [app]; eexists _, _;
      (split; [reflexivity|]); (split; [assumption|]);
      (split; [discriminate|]); repeat (constructor; try assumption).
  - right. apply M_number in H as [H _]. exact H.
Qed.

Lemma item_match_code line c rest :
  re_match item_pattern line = Some (c, rest) -> item_code (grp 1 c).
Proof.
  intros H. apply re_match_sound in H as (w & -> & H).
  unfold item_pattern in H.
  apply M_Cat_inv in H as (w1 & ? & c1 & -> & H1 & H).
  apply M_Group_inv in H1 as (? & -> & H1).
  pose proof (M_item_code_shape _ _ _ _ H1) as Hcode.
  apply M_item_code in H1 as (_ & _ & ->).
  apply M_Cat_inv in H as (? & ? & ? & -> & Hp & H).
  apply M_Class_inv in Hp as (p & -> & Hp & ->).
  apply M_Cat_inv in H as (? & ? & ? & -> & Hs & H).
  apply M_Star_class in Hs as [_ ->].
  apply M_Cat_inv in H as (w2 & ? & ? & -> & H2 & H).
  apply M_Group_inv in H2 as (? & -> & H2).
  apply M_nocap in H2 as ->; [|reflexivity].
  apply M_Cat_inv in H as (? & ? & ? & -> & Hs & H).
  apply M_Star_class in Hs as [_ ->].
  apply M_Cat_inv in H as (? & ? & ? & -> & Hp' & H).
  apply M_Class_inv in Hp' as (? & -> & _ & ->).
  apply M_Cat_inv in H as (w3 & ? & ? & -> & H3 & H).
  apply M_Group_inv in H3 as (? & -> & H3).
  apply M_number in H3 as [H3 ->].
  apply M_nocap in H as ->; [|reflexivity].
  exact Hcode.
Qed.

Lemma decimal_not_upper d : is_decimal d = true -> is_upper_AZ d = false.
Proof.
  intros H. destruct (is_upper_AZ d) eqn:E; [|reflexivity].
  apply upper_not_decimal in E. congruence.
Qed.

Lemma numeral_not_upper ip tl :
  ip <> [] -> all_decimal ip -> starts_upper (ip ++ tl) = false.
Proof.
  intros Hne Ha. destruct ip as [|d ip']; [congruence|].
  cbn [app]. rewrite starts_upper_cons. apply decimal_not_upper.
  apply List.Forall_cons_iff in Ha as [Hd _]. exact Hd.
Qed.

Lemma filter_decimal_id s : all_decimal s -> List.filter is_decimal s = s.
Proof.
  induction 1 as [|x s Hx _ IH]; [reflexivity|].
  cbn [List.filter]. rewrite Hx, IH. reflexivity.
Qed.

Lemma contains_dot ip fp : contains (ch ".") (ip ++ ch "." :: fp) = true.
Proof.
  rewrite contains_app. apply orb_true_iff. right. reflexivity.
Qed.

Lemma item_code_parts w :
  item_code w ->
  (exists n, _code_parts w = Ok (_section_key w, n))
  \/ (~ few_digits w /\ _code_parts w = Raise ValueError).
Proof.
  intros Hw.
  destruct (_code_parts_outcome w) as [(key & num & H)|Hr];
    [left|right; exact Hr].
  exists num. rewrite H. f_equal. f_equal. revert H.
  destruct Hw as [(u & ds & -> & U & Hne & Hd)
                 |(ip & fp & Hip & Hi & Hf & [[-> ->]|[Hfp ->]])];
    unfold _code_parts, _section_key.
  - rewrite starts_upper_cons, U.
    change (skipn 1 (u :: ds)) with ds. change (firstn 1 (u :: ds)) with [u].
    intros H. apply bind_ok in H as (n & _ & [= <- _]). reflexivity.
  - pose proof (numeral_not_upper ip [] Hip Hi) as Hu.
    rewrite app_nil_r in Hu. rewrite Hu, (all_decimal_no_dot _ Hi).
    rewrite sub_const_nondigit, (filter_decimal_id _ Hi). cbn [bind].
    destruct ip; [congruence|]. intros [= <- _]. reflexivity.
  - rewrite (numeral_not_upper ip _ Hip Hi), contains_dot.
    rewrite (split_once_dot _ _ Hi). cbn [fst].
    intros H. apply bind_ok in H as (n & _ & [= <- _]). reflexivity.
Qed.

Lemma item_from_header_code all it :
  item_from_header all it -> item_code (code it).
Proof.
  intros (l & c & rest & _ & Hm & -> & _). eapply item_match_code, Hm.
Qed.

(** X5: the code of every item that [parse_rubric_items] returns is a
    capital followed by digits, or a decimal numeral, and for such a code
    [_code_parts] takes as its first part the section key that
    [_section_key] gives, so that range blocks are looked up within the
    section the items are grouped by; the one other outcome is the
    ValueError of [int] on a code of more than 4300 digits. *)
Theorem item_codes_have_their_section_key text :
  exists r,
    parse_rubric_items text = Ok r
    /\ Forall (fun it =>
                 item_code (code it)
                 /\ ((exists n,
                        _code_parts (code it)
                        = Ok (_section_key (code it), n))
                     \/ (~ few_digits (code it)
                         /\ _code_parts (code it) = Raise ValueError)))
              (p_items r).
Proof.
  unfold parse_rubric_items.
  destruct (parse_lines_ok (text_lines text) initial) as [st H].
  rewrite H. eexists. split; [reflexivity|]. cbn [bind result_of p_items].
  assert (Hall : Forall (item_from_header (text_lines text)) (items st)).
  { eapply items_from_headers; eauto. }
  eapply List.Forall_impl; [|exact Hall].
  intros it Hit. apply item_from_header_code in Hit.
  split; [exact Hit|apply item_code_parts, Hit].
Qed.

(** ** Range blocks over plain numbers *)

Lemma _code_parts_plain_number s :
  all_decimal s -> _code_parts s = Ok (s, 0).
Proof.
  intros Ha. destruct s as [|x s']; [reflexivity|].
  unfold _code_parts.
  pose proof (numeral_not_upper (x :: s') [] ltac:(discriminate) Ha) as Hu.
  rewrite app_nil_r in Hu. rewrite Hu, (all_decimal_no_dot _ Ha).
  rewrite sub_const_nondigit, (filter_decimal_id _ Ha). reflexivity.
Qed.

Lemma plain_number_range_contains_nothing b code :
  plain_number_range b -> ~ block_contains b code.
Proof.
  intros (Hs & He & Hne) (key & num & sn & en & _ & H1 & H2 & _).
  rewrite (_code_parts_plain_number _ Hs) in H1.
  rewrite (_code_parts_plain_number _ He) in H2.
  apply Hne. congruence.
Qed.

Lemma _find_range_block_raises blocks code e :
  _code_parts code = Raise e -> _find_range_block blocks code = Raise e.
Proof. intros H. destruct blocks; cbn [_find_range_block]; rewrite H; reflexivity. Qed.

(** X6: a range block whose end points are two different plain numbers,
    such as the block of the header [1-3) Title], contains no code at
    all: over such blocks [_find_range_block] never returns a block, and
    it returns nothing for every code of at most 4300 digits, the codes
    1, 2 and 3 too. *)
Theorem plain_number_ranges_are_never_found blocks code :
  Forall plain_number_range blocks ->
  (_find_range_block blocks code = Ok None
   \/ _find_range_block blocks code = Raise ValueError)
  /\ (few_digits code -> _find_range_block blocks code = Ok None).
Proof.
  intros Hall.
  assert (Hnone : decomposes code -> _find_range_block blocks code = Ok None).
  { intros (key & num & Hc). induction Hall as [|b blocks Hb _ IH].
    - exact (_find_range_block_nil _ _ _ Hc).
    - pose proof Hb as (Hs & He & _).
      destruct (_find_range_block_cons b blocks code _ _ _ _ _ _ Hc
                  (_code_parts_plain_number _ Hs)
                  (_code_parts_plain_number _ He))
        as [(E1 & E2 & _ & _)|[_ ->]]; [|exact IH].
      exfalso. destruct Hb as (_ & _ & Hne). apply Hne. congruence. }
  split.
  - destruct (_code_parts_outcome code) as [Hd|[_ Hr]].
    + left. exact (Hnone Hd).
    + right. exact (_find_range_block_raises _ _ _ Hr).
  - intros Hf. exact (Hnone (_code_parts_ok _ Hf)).
Qed.

Lemma plain_number_ranges_are_never_found_witness :
  exists r b,
    parse_rubric_items (lit "1-3) Title") = Ok r
    /\ p_range_blocks r = [b]
    /\ start_code b = lit "1" /\ end_code b = lit "3"
    /\ _find_range_block (p_range_blocks r) (lit "2") = Ok None.
Proof.
  eexists _, _. split; [vm_compute; reflexivity|].
  split; [reflexivity|]. split; [reflexivity|]. split; [reflexivity|].
  apply plain_number_ranges_are_never_found.
  - constructor; [|constructor]. split; [|split].
    + repeat constructor.
    + repeat constructor.
    + discriminate.
  - apply Nat.leb_le. reflexivity.
Defined.

(** ** Looking up the recorded blocks *)

Lemma M_range_code_length w t c c' :
  M range_code w t c c' -> (length w <= 8)%nat.
Proof.
  unfold range_code, upper, Rep13, Opt, digit, Chr. intros H. invM;
    repeat rewrite length_app; cbn [length]; lia.
Qed.

Lemma range_codes_short line c rest :
  re_match range_pattern line = Some (c, rest) ->
  (length (grp 1 c) <= 8)%nat /\ (length (grp 2 c) <= 8)%nat.
Proof.
  intros H. apply re_match_sound in H as (w & -> & H).
  unfold range_pattern in H.
  apply M_Cat_inv in H as (w1 & ? & c1 & -> & H1 & H).
  apply M_Group_inv in H1 as (? & -> & H1).
  pose proof (M_range_code_length _ _ _ _ H1) as L1.
  apply M_range_code in H1 as (_ & _ & ->).
  apply M_Cat_inv in H as (sp & ? & ? & -> & Hs & H).
  apply M_Star_class in Hs as [Hs ->].
  apply M_Cat_inv in H as (? & ? & ? & -> & Hd & H).
  apply M_Class_inv in Hd as (d & -> & Hd & ->).
  apply M_Cat_inv in H as (? & ? & ? & -> & Hs' & H).
  apply M_Star_class in Hs' as [_ ->].
  apply M_Cat_inv in H as (w2 & ? & ? & -> & H2 & H).
  apply M_Group_inv in H2 as (? & -> & H2).
  pose proof (M_range_code_length _ _ _ _ H2) as L2.
  apply M_range_code in H2 as (_ & _ & ->).
  apply M_Cat_inv in H as (? & ? & ? & -> & Hp & H).
  apply M_Class_inv in Hp as (? & -> & _ & ->).
  apply M_Cat_inv in H as (? & ? & ? & -> & Hs' & H).
  apply M_Star_class in Hs' as [_ ->].
  apply M_Cat_inv in H as (w3 & ? & ? & -> & H3 & H).
  apply M_Group_inv in H3 as (? & -> & H3).
  apply M_nocap in H3 as ->; [|reflexivity].
  apply M_nocap in H as ->; [|reflexivity].
  split; assumption.
Qed.

Lemma few_digits_short s : (length s <= 9)%nat -> few_digits s.
Proof.
  intros H. unfold few_digits.
  pose proof (List.filter_length_le is_decimal s) as Hf.
  assert (Hm : (9 <= int_max_str_digits)%nat)
    by (apply Nat.leb_le; reflexivity).
  lia.
Qed.

Lemma range_end_code_length s e :
  (length (range_end_code s e) <= 1 + length e)%nat.
Proof.
  unfold range_end_code. destruct (_ && _); [|lia].
  rewrite length_app. pose proof (List.firstn_le_length 1 s). lia.
Qed.

Lemma recorded_blocks_decompose lines st st' :
  parse_lines st lines = Ok st' ->
  Forall (fun b => decomposes (start_code b) /\ decomposes (end_code b))
         (range_blocks st) ->
  Forall (fun b => decomposes (start_code b) /\ decomposes (end_code b))
         (range_blocks st').
Proof.
  revert lines st st'.
  apply (parse_lines_ind (fun st lines st' =>
    Forall (fun b => decomposes (start_code b) /\ decomposes (end_code b))
           (range_blocks st) ->
    Forall (fun b => decomposes (start_code b) /\ decomposes (end_code b))
           (range_blocks st'))).
  - auto.
  - intros st l rest st1 rest1 st' Hit _ _ IH Hst. apply IH.
    apply iteration_range_blocks in Hit as [->|(c & r & hd & dl & Hm & ->)];
      [exact Hst|].
    apply Forall_app. split; [exact Hst|]. constructor; [|constructor].
    apply range_codes_short in Hm as [L1 L2].
    cbn [start_code end_code].
    pose proof (range_end_code_length (grp 1 c) (grp 2 c)).
    split; apply _code_parts_ok, few_digits_short; lia.
Qed.

Lemma find_returns blocks code :
  decomposes code ->
  Forall (fun b => decomposes (start_code b) /\ decomposes (end_code b))
         blocks ->
  exists res,
    _find_range_block blocks code = Ok res
    /\ forall b, res = Some b -> In b blocks.
Proof.
  intros (key & num & Hc) Hall.
  induction Hall as [|b blocks [(sk & sn & Hs) (ek & en & He)] _ IH].
  - exists None. rewrite (_find_range_block_nil _ _ _ Hc).
    split; [reflexivity|discriminate].
  - destruct (_find_range_block_cons b blocks code _ _ _ _ _ _ Hc Hs He)
      as [(_ & _ & _ & ->)|[_ ->]].
    + exists (Some b). split; [reflexivity|].
      intros b' [= <-]. left. reflexivity.
    + destruct IH as (r & -> & Hr). exists r. split; [reflexivity|].
      intros b' Hb'. right. apply Hr, Hb'.
Qed.

(** X7: over the range blocks that [parse_rubric_items] records,
    [_find_range_block] returns for every code of at most 4300 digits,
    and what it returns is nothing or one of the recorded blocks: the
    codes of a range header hold at most six digits, so [_code_parts]
    decomposes them. *)
Theorem find_range_block_returns_a_recorded_block text :
  exists r,
    parse_rubric_items text = Ok r
    /\ Forall (fun b => decomposes (start_code b) /\ decomposes (end_code b))
              (p_range_blocks r)
    /\ forall code,
         few_digits code ->
         exists res,
           _find_range_block (p_range_blocks r) code = Ok res
           /\ forall b, res = Some b -> In b (p_range_blocks r).
Proof.
  unfold parse_rubric_items.
  destruct (parse_lines_ok (text_lines text) initial) as [st H].
  rewrite H. eexists. split; [reflexivity|].
  cbn [bind result_of p_range_blocks].
  assert (Hall : Forall (fun b => decomposes (start_code b)
                                  /\ decomposes (end_code b))
                        (range_blocks st)).
  { eapply recorded_blocks_decompose; [exact H|constructor]. }
  split; [exact Hall|].
  intros code Hf. apply find_returns; [apply _code_parts_ok, Hf|exact Hall].
Qed.

Lemma find_range_block_returns_a_recorded_block_witness :
  exists r b,
    parse_rubric_items
      (join [LF] [lit "B1-B4) Other"; lit "A1-3) Shared"]) = Ok r
    /\ _find_range_block (p_range_blocks r) (lit "A2") = Ok (Some b)
    /\ In b (p_range_blocks r)
    /\ start_code b = lit "A1" /\ end_code b = lit "A3".
Proof.
  destruct (find_range_block_returns_a_recorded_block
              (join [LF] [lit "B1-B4) Other"; lit "A1-3) Shared"]))
    as (r & Hr & _ & Hfind).
  destruct (Hfind (lit "A2")) as (res & Hres & Hin);
    [apply Nat.leb_le; reflexivity|].
  vm_compute in Hr. injection Hr as <-.
  vm_compute in Hres. injection Hres as <-.
  eexists _, _. split; [reflexivity|]. split; [reflexivity|].
  split; [apply Hin; reflexivity|]. split; reflexivity.
Defined.

(** ** What the RTF decoder leaves *)

Lemma rstrip_prefix s : exists q, s = rstrip s ++ q.
Proof.
  unfold rstrip. destruct (lstrip_suffix (rev s)) as [p Hp].
  exists (rev p). rewrite <- rev_app_distr, <- Hp, rev_involutive.
  reflexivity.
Qed.

Lemma strip_infix s : exists p q, s = p ++ strip s ++ q.
Proof.
  unfold strip. destruct (lstrip_suffix s) as [p Hp].
  destruct (rstrip_prefix (lstrip s)) as [q Hq].
  exists p, q. rewrite <- Hq. exact Hp.
Qed.

Lemma no_space_pair_weaken b s :
  no_space_pair b s = true -> no_space_pair false s = true.
Proof.
  destruct s as [|x s]; [reflexivity|]. cbn [no_space_pair].
  destruct (x =? SPACE); [|auto]. intros H.
  apply andb_true_iff in H as [_ H]. exact H.
Qed.

Lemma no_space_pair_spec s : forall prev,
  no_space_pair prev s = true ->
  forall a b, s <> a ++ SPACE :: SPACE :: b.
Proof.
  intros prev H a. revert s prev H.
  induction a as [|y a IH]; intros s prev H b ->.
  - cbn in H. rewrite andb_false_r in H. discriminate.
  - cbn [app no_space_pair] in H. destruct (y =? SPACE).
    + apply andb_true_iff in H as [_ H]. exact (IH _ _ H b eq_refl).
    + exact (IH _ _ H b eq_refl).
Qed.

Lemma no_newline_triple_spec s : forall k,
  no_newline_triple k s = true ->
  forall a b, s <> a ++ LF :: LF :: LF :: b.
Proof.
  intros k H a. revert s k H.
  induction a as [|y a IH]; intros s k H b ->.
  - cbn in H. destruct k as [|[|k]]; cbn in H; discriminate.
  - cbn [app no_newline_triple] in H. destruct (y =? LF).
    + apply andb_true_iff in H as [_ H]. exact (IH _ _ H b eq_refl).
    + exact (IH _ _ H b eq_refl).
Qed.

Lemma collapse_blanks_pairs s : forall in_run prev,
  (prev = true -> in_run = true) ->
  no_space_pair prev (collapse_blanks in_run s) = true.
Proof.
  induction s as [|x s IH]; intros in_run prev Hp; [reflexivity|].
  cbn [collapse_blanks]. destruct (is_blank x) eqn:B.
  - destruct in_run.
    + apply IH. auto.
    + cbn [no_space_pair]. rewrite Z.eqb_refl.
      destruct prev; [discriminate (Hp eq_refl)|].
      apply IH. auto.
  - cbn [no_space_pair]. destruct (x =? SPACE) eqn:E.
    + apply Z.eqb_eq in E. subst x. discriminate.
    + apply IH. discriminate.
Qed.

Lemma collapse_blanks_keeps (P : char -> Prop) s : forall in_run,
  P SPACE -> Forall P s -> Forall P (collapse_blanks in_run s).
Proof.
  intros in_run HP H. revert in_run.
  induction H as [|x s Hx _ IH]; intros in_run; [constructor|].
  cbn [collapse_blanks]. destruct (is_blank x).
  - destruct in_run; [apply IH|constructor; [exact HP|apply IH]].
  - constructor; [exact Hx|apply IH].
Qed.

Lemma collapse_blanks_no_tab s : forall in_run,
  Forall (fun c => c <> TAB) (collapse_blanks in_run s).
Proof.
  induction s as [|x s IH]; intros in_run; [constructor|].
  cbn [collapse_blanks]. destruct (is_blank x) eqn:B.
  - destruct in_run; [apply IH|constructor; [discriminate|apply IH]].
  - constructor; [|apply IH]. intros ->. discriminate.
Qed.

Lemma collapse_newlines_keeps (P : char -> Prop) s : forall n,
  Forall P s -> Forall P (collapse_newlines n s).
Proof.
  intros n H. revert n.
  induction H as [|x s Hx _ IH]; intros n; [constructor|].
  cbn [collapse_newlines]. destruct (x =? LF) eqn:E.
  - apply Z.eqb_eq in E. subst x.
    destruct (n <? 2)%nat; [constructor; [exact Hx|apply IH]|apply IH].
  - constructor; [exact Hx|apply IH].
Qed.

Lemma collapse_newlines_pairs s : forall n prev,
  (n <> O -> prev = false) ->
  no_space_pair prev s = true ->
  no_space_pair prev (collapse_newlines n s) = true.
Proof.
  induction s as [|x s IH]; intros n prev Hn H; [reflexivity|].
  cbn [collapse_newlines]. cbn [no_space_pair] in H.
  destruct (x =? LF) eqn:E.
  - apply Z.eqb_eq in E. subst x.
    change (LF =? SPACE) with false in H. cbv iota in H.
    destruct (n <? 2)%nat eqn:N.
    + cbn [no_space_pair]. change (LF =? SPACE) with false. cbv iota.
      apply IH; [reflexivity|exact H].
    + assert (prev = false) as ->.
      { apply Hn. intros ->. discriminate. }
      apply IH; [reflexivity|exact H].
  - cbn [no_space_pair]. destruct (x =? SPACE).
    + apply andb_true_iff in H as [H1 H2]. rewrite H1. cbn [andb].
      apply IH; [congruence|exact H2].
    + apply IH; [congruence|exact H].
Qed.

Lemma collapse_newlines_triples s : forall n k,
  (k <= n)%nat -> (k <= 2)%nat ->
  no_newline_triple k (collapse_newlines n s) = true.
Proof.
  induction s as [|x s IH]; intros n k Hk H2; [reflexivity|].
  cbn [collapse_newlines]. destruct (x =? LF) eqn:E.
  - destruct (Nat.ltb_spec n 2).
    + cbn [no_newline_triple]. rewrite Z.eqb_refl.
      apply andb_true_iff. split; [apply Nat.ltb_lt; lia|].
      apply IH; lia.
    + apply IH; lia.
  - cbn [no_newline_triple]. rewrite E. apply IH; lia.
Qed.

Lemma infix_keeps (P : char -> Prop) (s p m q : str) :
  s = p ++ m ++ q -> Forall P s -> Forall P m.
Proof.
  intros -> H. apply Forall_app in H as [_ H].
  apply Forall_app in H as [H _]. exact H.
Qed.

Lemma infix_avoids (x : str) (s p m q : str) :
  s = p ++ m ++ q ->
  (forall a b, s <> a ++ x ++ b) -> forall a b, m <> a ++ x ++ b.
Proof.
  intros -> H a b ->. apply (H (p ++ a) (b ++ q)).
  rewrite <- !app_assoc. reflexivity.
Qed.

Lemma filter_no_brace s :
  Forall no_brace
    (List.filter (fun x => negb ((x =? LBRACE) || (x =? RBRACE))) s).
Proof.
  induction s as [|x s IH]; cbn [List.filter]; [constructor|].
  destruct (x =? LBRACE) eqn:E1; [exact IH|].
  destruct (x =? RBRACE) eqn:E2; [exact IH|].
  cbn [orb negb]. constructor; [|exact IH].
  split; intros ->; discriminate.
Qed.

Lemma sub_const_brace s :
  sub_const rtf_brace [] s
  = Ok (List.filter (fun x => negb ((x =? LBRACE) || (x =? RBRACE))) s).
Proof. apply sub_from_class. reflexivity. Qed.

(** The last four steps of [rtf_to_text] can be read off its result. *)
Lemma rtf_to_text_tail s t :
  rtf_to_text s = Ok t ->
  exists u,
    t = strip (collapse_newlines 0 (collapse_blanks false
          (List.filter (fun x => negb ((x =? LBRACE) || (x =? RBRACE))) u))).
Proof.
  unfold rtf_to_text. intros H.
  apply bind_ok in H as (t1 & _ & H). apply bind_ok in H as (t2 & _ & H).
  apply bind_ok in H as (t3 & _ & H). apply bind_ok in H as (t4 & _ & H).
  apply bind_ok in H as (t5 & _ & H). rewrite sub_const_brace in H.
  cbn [bind] in H. rewrite sub_const_blanks in H. cbn [bind] in H.
  rewrite sub_const_newlines3 in H. cbn [bind] in H.
  injection H as <-. exists t5. reflexivity.
Qed.

Lemma rtf_to_text_shape s t :
  rtf_to_text s = Ok t -> normal_form t /\ Forall no_brace t.
Proof.
  intros H. apply rtf_to_text_tail in H as (u & ->).
  set (f := List.filter _ u). set (b := collapse_blanks false f).
  set (n := collapse_newlines 0 b).
  destruct (strip_infix n) as (p & q & Hn).
  assert (Hbrace : Forall no_brace n).
  { apply collapse_newlines_keeps, collapse_blanks_keeps.
    - split; discriminate.
    - apply filter_no_brace. }
  assert (Htab : Forall (fun c => c <> TAB) n).
  { apply collapse_newlines_keeps, collapse_blanks_no_tab. }
  assert (Hsp : forall a b, n <> a ++ [SPACE; SPACE] ++ b).
  { apply (no_space_pair_spec n false).
    apply collapse_newlines_pairs; [congruence|].
    apply collapse_blanks_pairs. discriminate. }
  assert (Hlf : forall a b, n <> a ++ [LF; LF; LF] ++ b).
  { apply (no_newline_triple_spec n 0%nat).
    apply collapse_newlines_triples; lia. }
  split; [|exact (infix_keeps _ _ _ _ _ Hn Hbrace)].
  split; [|split; [|split]].
  - intros Hin. pose proof (infix_keeps _ _ _ _ _ Hn Htab) as Ht.
    rewrite List.Forall_forall in Ht. exact (Ht _ Hin eq_refl).
  - exact (infix_avoids _ _ _ _ _ Hn Hsp).
  - exact (infix_avoids _ _ _ _ _ Hn Hlf).
  - apply strip_trimmed.
Qed.

(** X8: whatever the input, a text that [rtf_to_text] returns holds no
    brace and no tab, no two spaces in a row, no three newlines in a row,
    and no white space at either end. *)
Theorem rtf_to_text_result_is_normalized s t :
  rtf_to_text s = Ok t ->
  normal_form t /\ ~ In LBRACE t /\ ~ In RBRACE t.
Proof.
  intros H. apply rtf_to_text_shape in H as [Hn Hb].
  split; [exact Hn|]. rewrite List.Forall_forall in Hb.
  split; intros Hin; destruct (Hb _ Hin) as [H1 H2]; congruence.
Qed.

Lemma rtf_to_text_result_is_normalized_witness :
  rtf_to_text (lit "{\rtf1\ansi  A1)  Thesis \b (5 points)\par }")
    = Ok (lit "A1) Thesis (5 points)")
  /\ normal_form (lit "A1) Thesis (5 points)")
  /\ ~ In LBRACE (lit "A1) Thesis (5 points)")
  /\ ~ In RBRACE (lit "A1) Thesis (5 points)").
Proof.
  split; [vm_compute; reflexivity|].
  apply (rtf_to_text_result_is_normalized
           (lit "{\rtf1\ansi  A1)  Thesis \b (5 points)\par }")).
  vm_compute. reflexivity.
Defined.

(** X9: decoding a second time changes nothing: when the text that
    [rtf_to_text] returns holds no backslash, [rtf_to_text] returns it
    unchanged. *)
Theorem rtf_to_text_twice s t :
  rtf_to_text s = Ok t -> ~ In BACKSLASH t -> rtf_to_text t = Ok t.
Proof.
  intros H Hb. apply rtf_to_text_shape in H as [Hn Hbr].
  rewrite rtf_to_text_plain.
  - rewrite normalize_whitespace_normal; [reflexivity|exact Hn].
  - rewrite List.Forall_forall in Hbr. apply List.Forall_forall.
    intros c Hc. destruct (Hbr _ Hc) as [H1 H2].
    split; [|split; assumption]. intros ->. exact (Hb Hc).
Qed.

Lemma rtf_to_text_twice_witness :
  rtf_to_text (lit "A1) Thesis (5 points)") = Ok (lit "A1) Thesis (5 points)").
Proof.
  apply (rtf_to_text_twice
           (lit "{\rtf1\ansi  A1)  Thesis \b (5 points)\par }")).
  - vm_compute. reflexivity.
  - vm_compute. intuition discriminate.
Defined.
(** ** When the RTF decoder returns *)

Lemma no_unicode_escape_weaken s : forall st,
  no_unicode_escape st s = true -> no_unicode_escape Idle s = true.
Proof.
  induction s as [|x s IH]; intros st H; [reflexivity|].
  cbn [no_unicode_escape] in *. apply andb_true_iff in H as [_ H].
  cbn [negb andb]. unfold escape_next in *.
  destruct (x =? BACKSLASH); [exact H|].
  destruct st; try exact H. destruct (x =? ch "u"); [|exact H].
  exact (IH _ H).
Qed.

Lemma no_unicode_escape_of_prop s : forall st,
  (forall a d b, s = a ++ BACKSLASH :: ch "u" :: d :: b ->
                 starts_number d = false) ->
  (st = AfterBackslash ->
   forall d b, s = ch "u" :: d :: b -> starts_number d = false) ->
  (st = AfterBackslashU -> forall d b, s = d :: b -> starts_number d = false) ->
  no_unicode_escape st s = true.
Proof.
  induction s as [|x s IH]; intros st H1 H2 H3; [reflexivity|].
  cbn [no_unicode_escape]. apply andb_true_iff. split.
  - destruct st; try reflexivity. rewrite (H3 eq_refl x s eq_refl).
    reflexivity.
  - apply IH.
    + intros a d b ->. exact (H1 (x :: a) d b eq_refl).
    + unfold escape_next. destruct (x =? BACKSLASH) eqn:E.
      * intros _ d b ->. apply Z.eqb_eq in E. subst x.
        exact (H1 [] d b eq_refl).
      * destruct st; try discriminate. destruct (x =? ch "u"); discriminate.
    + unfold escape_next. destruct (x =? BACKSLASH); [discriminate|].
      destruct st; try discriminate.
      destruct (x =? ch "u") eqn:E; [|discriminate].
      intros _ d b ->. apply Z.eqb_eq in E. subst x.
      exact (H2 eq_refl d b eq_refl).
Qed.

Lemma no_unicode_escape_prop s : forall st,
  no_unicode_escape st s = true ->
  forall a d b, s = a ++ BACKSLASH :: ch "u" :: d :: b ->
                starts_number d = false.
Proof.
  intros st H a. revert s st H.
  induction a as [|y a IH]; intros s st H d b ->.
  - cbn [app no_unicode_escape] in H. apply andb_true_iff in H as [_ H].
    apply andb_true_iff in H as [_ H]. apply andb_true_iff in H as [H _].
    assert (escape_next (escape_next st BACKSLASH) (ch "u") = AfterBackslashU)
      as E by (destruct st; reflexivity).
    rewrite E in H. apply negb_true_iff in H. exact H.
  - cbn [app no_unicode_escape] in H. apply andb_true_iff in H as [_ H].
    exact (IH _ _ H d b eq_refl).
Qed.

Lemma sub_const_keeps_no_unicode_escape r s : forall st skip o,
  no_unicode_escape st s = true ->
  sub_from r (fun _ _ => Ok [LF]) s skip = Ok o ->
  no_unicode_escape (match skip with O => st | S _ => Idle end) o = true.
Proof.
  induction s as [|x s IH]; intros st skip o H Ho.
  - injection Ho as <-. reflexivity.
  - cbn [no_unicode_escape] in H. apply andb_true_iff in H as [Hx Hs].
    assert (Hkeep : forall t,
              sub_from r (fun _ _ => Ok [LF]) s 0 = Ok t ->
              no_unicode_escape st (x :: t) = true).
    { intros t Ht. cbn [no_unicode_escape]. rewrite Hx. cbn [andb].
      exact (IH _ 0%nat _ Hs Ht). }
    assert (Hskip : forall n t,
              sub_from r (fun _ _ => Ok [LF]) s n = Ok t ->
              no_unicode_escape Idle t = true).
    { intros n t Ht. eapply no_unicode_escape_weaken, (IH _ n _ Hs Ht). }
    cbn [sub_from] in Ho. destruct skip as [|n].
    + destruct (re_match r (x :: s)) as [[c rest]|].
      * destruct (length (x :: s) - length rest)%nat as [|n].
        -- apply bind_ok in Ho as (t & Ht & [= <-]). apply Hkeep, Ht.
        -- cbn [bind] in Ho. apply bind_ok in Ho as (t & Ht & [= <-]).
           cbn [app no_unicode_escape].
           assert (starts_number LF = false) as -> by reflexivity.
           assert (forall st', escape_next st' LF = Idle) as ->
             by (intros []; reflexivity).
           destruct st; cbn [negb andb]; eapply Hskip, Ht.
      * apply bind_ok in Ho as (t & Ht & [= <-]). apply Hkeep, Ht.
    + eapply Hskip, Ho.
Qed.

Lemma rtf_unicode_head s c rest :
  re_match rtf_unicode s = Some (c, rest) ->
  exists d tl, s = BACKSLASH :: ch "u" :: d :: tl /\ starts_number d = true.
Proof.
  intros H. apply re_match_sound in H as (w & -> & H).
  unfold rtf_unicode, Chr, Plus, Opt, digit in H.
  apply M_Cat_inv in H as (? & ? & ? & -> & H1 & H).
  apply M_Class_inv in H1 as (bs & -> & H1 & ->).
  apply M_Cat_inv in H as (? & ? & ? & -> & H2 & H).
  apply M_Class_inv in H2 as (lu & -> & H2 & ->).
  apply Z.eqb_eq in H1, H2. subst bs lu.
  apply M_Cat_inv in H as (? & ? & ? & -> & H3 & _).
  apply M_Group_inv in H3 as (? & _ & H3).
  apply M_Cat_inv in H3 as (? & ? & ? & -> & H3 & H4).
  apply M_Cat_inv in H4 as (? & ? & ? & -> & H4 & _).
  apply M_Class_inv in H4 as (dg & -> & H4 & _).
  apply M_Or_inv in H3 as [H3|H3].
  - apply M_Class_inv in H3 as (m & -> & H3 & _).
    apply Z.eqb_eq in H3. subst m.
    eexists _, _. cbn [app]. split; reflexivity.
  - apply M_Eps_inv in H3 as [-> _].
    eexists _, _. cbn [app]. split; [reflexivity|].
    unfold starts_number. rewrite H4. apply orb_true_r.
Qed.

Lemma sub_unicode_without_escape repl s : forall st,
  no_unicode_escape st s = true -> sub rtf_unicode repl s = Ok s.
Proof.
  unfold sub. induction s as [|x s IH]; intros st H; [reflexivity|].
  pose proof (no_unicode_escape_prop _ _ H) as Hp.
  cbn [no_unicode_escape] in H. apply andb_true_iff in H as [_ Hs].
  cbn [sub_from].
  destruct (re_match rtf_unicode (x :: s)) as [[c rest]|] eqn:E.
  - apply rtf_unicode_head in E as (d & tl & E & Hd).
    rewrite (Hp [] d tl E) in Hd. discriminate.
  - rewrite (IH _ Hs). reflexivity.
Qed.

Lemma sub_from_returns r repl :
  (forall t c rest, re_match r t = Some (c, rest) ->
                    exists o, repl c (consumed t rest) = Ok o) ->
  forall s skip, exists o, sub_from r repl s skip = Ok o.
Proof.
  intros Hrepl. induction s as [|x s IH]; intros skip; [eexists; reflexivity|].
  cbn [sub_from]. destruct skip as [|n]; [|apply IH].
  destruct (re_match r (x :: s)) as [[c rest]|] eqn:E.
  - destruct (length (x :: s) - length rest)%nat as [|n].
    + destruct (IH 0%nat) as [t ->]. eexists. reflexivity.
    + destruct (Hrepl _ _ _ E) as [h ->].
      destruct (IH n) as [t ->]. eexists. reflexivity.
  - destruct (IH 0%nat) as [t ->]. eexists. reflexivity.
Qed.

Lemma sub_const_returns r new s : exists o, sub_const r new s = Ok o.
Proof. apply sub_from_returns. intros. eexists. reflexivity. Qed.

Lemma sub_hex_returns s : exists o, sub rtf_hex _hex_repl s = Ok o.
Proof.
  apply sub_from_returns. intros t c rest H.
  apply re_match_sound in H as (w & -> & H).
  unfold rtf_hex, Chr, Rep2 in H. invM.
  unfold _hex_repl, grp. cbn [group Nat.eqb app].
  destruct (cp1252_char _); eexists; reflexivity.
Qed.

(** X10: [rtf_to_text] raises on unicode escapes only: it returns a text
    for every input in which no backslash and letter u is followed by a
    minus sign or a digit. *)
Theorem rtf_to_text_without_unicode_escape s :
  (forall a d b, s = a ++ BACKSLASH :: ch "u" :: d :: b ->
                 starts_number d = false) ->
  exists t, rtf_to_text s = Ok t.
Proof.
  intros H. unfold rtf_to_text.
  assert (H0 : no_unicode_escape Idle s = true).
  { apply no_unicode_escape_of_prop; [exact H|discriminate|discriminate]. }
  destruct (sub_const_returns rtf_continuation [LF] s) as [t1 E1].
  pose proof (sub_const_keeps_no_unicode_escape _ _ _ 0%nat _ H0 E1) as H1.
  rewrite E1. cbn [bind].
  destruct (sub_const_returns rtf_break [LF] t1) as [t2 E2].
  pose proof (sub_const_keeps_no_unicode_escape _ _ _ 0%nat _ H1 E2) as H2.
  rewrite E2. cbn [bind].
  rewrite (sub_unicode_without_escape _ _ _ H2). cbn [bind].
  destruct (sub_hex_returns t2) as [t4 ->]. cbn [bind].
  destruct (sub_const_returns rtf_control [] t4) as [t5 ->]. cbn [bind].
  destruct (sub_const_returns rtf_brace [] t5) as [t6 ->]. cbn [bind].
  destruct (sub_const_returns blanks [SPACE] t6) as [t7 ->]. cbn [bind].
  destruct (sub_const_returns newlines3 [LF; LF] t7) as [t8 ->]. cbn [bind].
  eexists. reflexivity.
Qed.

Lemma rtf_to_text_without_unicode_escape_witness :
  exists t, rtf_to_text (lit "{\rtf1\uc1 caf\'e9 \ul menu\par}") = Ok t.
Proof.
  apply rtf_to_text_without_unicode_escape.
  apply (no_unicode_escape_prop _ Idle). vm_compute. reflexivity.
Defined.

(** ** Bytes that are, or are not, UTF-8 *)

Lemma decode_utf8_encoded s : forall raw,
  Forall scalar s ->
  map byte_val raw = flat_map encode_utf8_char s ->
  decode_utf8 Strict raw = Ok s.
Proof.
  induction s as [|c s IH]; intros raw Hs Hraw.
  - destruct raw; [reflexivity|discriminate].
  - apply List.Forall_cons_iff in Hs as [[Hc Hsur] Hs].
    cbn [flat_map] in Hraw. unfold encode_utf8_char in Hraw.
    destruct (Z.ltb_spec c 0x80) as [L1|L1].
    { destruct raw as [|b0 raw]; [discriminate|].
      cbn [map app] in Hraw. injection Hraw as H0 Hraw.
      cbn [decode_utf8]. rewrite H0.
      assert ((c <? 0x80) = true) as -> by (apply Z.ltb_lt; lia).
      rewrite (IH _ Hs Hraw). reflexivity. }
    destruct (Z.ltb_spec c 0x800) as [L2|L2].
    { destruct raw as [|b0 [|b1 raw]]; try discriminate.
      cbn [map app] in Hraw. injection Hraw as H0 H1 Hraw.
      cbn [decode_utf8]. rewrite H0, H1.
      assert ((0xC0 + c / 64 <? 0x80) = false) as ->
        by (apply Z.ltb_ge; Z.div_mod_to_equations; lia).
      assert (in_range 0xC2 0xDF (0xC0 + c / 64) = true) as ->
        by (unfold in_range; apply andb_true_iff; split; apply Z.leb_le;
            Z.div_mod_to_equations; lia).
      assert (is_cont (0x80 + c mod 64) = true) as ->
        by (unfold is_cont, in_range; apply andb_true_iff; split;
            apply Z.leb_le; Z.div_mod_to_equations; lia).
      rewrite (IH _ Hs Hraw). cbn [bind]. do 2 f_equal.
      Z.div_mod_to_equations; lia. }
    destruct (Z.ltb_spec c 0x10000) as [L3|L3].
    { destruct raw as [|b0 [|b1 [|b2 raw]]]; try discriminate.
      cbn [map app] in Hraw. injection Hraw as H0 H1 H2 Hraw.
      cbn [decode_utf8]. rewrite H0, H1, H2.
      assert ((0xE0 + c / 4096 <? 0x80) = false) as ->
        by (apply Z.ltb_ge; Z.div_mod_to_equations; lia).
      assert (in_range 0xC2 0xDF (0xE0 + c / 4096) = false) as ->
        by (unfold in_range; apply andb_false_iff; right; apply Z.leb_gt;
            Z.div_mod_to_equations; lia).
      assert (in_range 0xE0 0xEF (0xE0 + c / 4096) = true) as ->
        by (unfold in_range; apply andb_true_iff; split; apply Z.leb_le;
            Z.div_mod_to_equations; lia).
      assert (is_cont (0x80 + (c / 64) mod 64) = true) as ->
        by (unfold is_cont, in_range; apply andb_true_iff; split;
            apply Z.leb_le; Z.div_mod_to_equations; lia).
      assert ((if 0xE0 + c / 4096 =? 0xE0
               then 0xA0 <=? 0x80 + (c / 64) mod 64 else true) = true) as ->.
      { destruct (Z.eqb_spec (0xE0 + c / 4096) 0xE0); [|reflexivity].
        apply Z.leb_le. Z.div_mod_to_equations; lia. }
      assert ((if 0xE0 + c / 4096 =? 0xED
               then 0x80 + (c / 64) mod 64 <=? 0x9F else true) = true) as ->.
      { destruct (Z.eqb_spec (0xE0 + c / 4096) 0xED); [|reflexivity].
        apply Z.leb_le. Z.div_mod_to_equations; lia. }
      assert (is_cont (0x80 + c mod 64) = true) as ->
        by (unfold is_cont, in_range; apply andb_true_iff; split;
            apply Z.leb_le; Z.div_mod_to_equations; lia).
      cbn [andb]. rewrite (IH _ Hs Hraw). cbn [bind]. do 2 f_equal.
      Z.div_mod_to_equations; lia. }
    destruct raw as [|b0 [|b1 [|b2 [|b3 raw]]]]; try discriminate.
    cbn [map app] in Hraw. injection Hraw as H0 H1 H2 H3 Hraw.
    cbn [decode_utf8]. rewrite H0, H1, H2, H3.
    assert ((0xF0 + c / 262144 <? 0x80) = false) as ->
      by (apply Z.ltb_ge; Z.div_mod_to_equations; lia).
    assert (in_range 0xC2 0xDF (0xF0 + c / 262144) = false) as ->
      by (unfold in_range; apply andb_false_iff; right; apply Z.leb_gt;
          Z.div_mod_to_equations; lia).
    assert (in_range 0xE0 0xEF (0xF0 + c / 262144) = false) as ->
      by (unfold in_range; apply andb_false_iff; right; apply Z.leb_gt;
          Z.div_mod_to_equations; lia).
    assert (in_range 0xF0 0xF4 (0xF0 + c / 262144) = true) as ->
      by (unfold in_range; apply andb_true_iff; split; apply Z.leb_le;
          Z.div_mod_to_equations; lia).
    assert (is_cont (0x80 + (c / 4096) mod 64) = true) as ->
      by (unfold is_cont, in_range; apply andb_true_iff; split;
          apply Z.leb_le; Z.div_mod_to_equations; lia).
    assert ((if 0xF0 + c / 262144 =? 0xF0
             then 0x90 <=? 0x80 + (c / 4096) mod 64 else true) = true) as ->.
    { destruct (Z.eqb_spec (0xF0 + c / 262144) 0xF0); [|reflexivity].
      apply Z.leb_le. Z.div_mod_to_equations; lia. }
    assert ((if 0xF0 + c / 262144 =? 0xF4
             then 0x80 + (c / 4096) mod 64 <=? 0x8F else true) = true) as ->.
    { destruct (Z.eqb_spec (0xF0 + c / 262144) 0xF4); [|reflexivity].
      apply Z.leb_le. Z.div_mod_to_equations; lia. }
    assert (is_cont (0x80 + (c / 64) mod 64) = true) as ->
      by (unfold is_cont, in_range; apply andb_true_iff; split;
          apply Z.leb_le; Z.div_mod_to_equations; lia).
    assert (is_cont (0x80 + c mod 64) = true) as ->
      by (unfold is_cont, in_range; apply andb_true_iff; split;
          apply Z.leb_le; Z.div_mod_to_equations; lia).
    cbn [andb]. rewrite (IH _ Hs Hraw). cbn [bind]. do 2 f_equal.
    Z.div_mod_to_equations; lia.
Qed.

(** X11: UTF-8 comes first: for every text of Unicode scalar values,
    [_decode_bytes] gives the text back from its UTF-8 encoding. *)
Theorem decode_bytes_reads_utf8 s raw :
  Forall scalar s ->
  map byte_val raw = encode Utf8 s ->
  _decode_bytes raw = Ok s.
Proof.
  intros Hs Hraw. unfold _decode_bytes. cbn [decode_first decode].
  rewrite (decode_utf8_encoded _ _ Hs Hraw). reflexivity.
Qed.

Lemma decode_bytes_reads_utf8_witness :
  _decode_bytes [x41; xc3; xa9; xe2; x80; x93; xf0; x9f; x98; x80]
  = Ok [0x41; 0xE9; 0x2013; 0x1F600].
Proof.
  apply decode_bytes_reads_utf8.
  - repeat (constructor; [split; [lia|lia]|]). constructor.
  - vm_compute. reflexivity.
Defined.

Lemma decode_cp1252_defined raw :
  Forall (fun b => ~ undefined_in_cp1252 b) raw ->
  exists s,
    decode_cp1252 Strict raw = Ok s
    /\ map Some s = map (fun b => cp1252_char (byte_val b)) raw.
Proof.
  induction 1 as [|b raw Hb _ (s & IH & Hs)].
  - exists []. split; reflexivity.
  - unfold undefined_in_cp1252 in Hb. cbn [decode_cp1252 map].
    destruct (cp1252_char (byte_val b)) as [c|]; [|congruence].
    exists (c :: s). rewrite IH. split; [reflexivity|].
    cbn [map]. rewrite Hs. reflexivity.
Qed.

Lemma decode_cp1252_undefined raw :
  Exists undefined_in_cp1252 raw ->
  decode_cp1252 Strict raw = Raise UnicodeDecodeError.
Proof.
  induction 1 as [b raw Hb|b raw _ IH]; cbn [decode_cp1252].
  - unfold undefined_in_cp1252 in Hb. rewrite Hb. reflexivity.
  - rewrite IH. destruct (cp1252_char (byte_val b)); reflexivity.
Qed.

(** X12: bytes that are not UTF-8 are read one character per byte: as
    code page 1252 when it has a character for every byte, and as
    Latin-1, every byte its own code point, when one of the bytes is
    among those code page 1252 leaves undefined. *)
Theorem decode_bytes_falls_back_bytewise raw :
  decode Utf8 Strict raw = Raise UnicodeDecodeError ->
  exists s,
    _decode_bytes raw = Ok s
    /\ length s = length raw
    /\ (Forall (fun b => ~ undefined_in_cp1252 b) raw ->
        map Some s = map (fun b => cp1252_char (byte_val b)) raw)
    /\ (Exists undefined_in_cp1252 raw -> s = map byte_val raw).
Proof.
  intros Hu. unfold _decode_bytes. cbn [decode_first]. rewrite Hu.
  assert (Hd : {Forall (fun b => ~ undefined_in_cp1252 b) raw}
               + {Exists undefined_in_cp1252 raw}).
  { clear Hu. induction raw as [|b raw [IH|IH]].
    - left. constructor.
    - unfold undefined_in_cp1252 at 2.
      destruct (cp1252_char (byte_val b)) eqn:E.
      + left. constructor; [|exact IH].
        unfold undefined_in_cp1252. congruence.
      + right. constructor. exact E.
    - right. constructor 2. exact IH. }
  destruct Hd as [Hall|Hex].
  - destruct (decode_cp1252_defined _ Hall) as (s & Hs & Hmap).
    exists s. cbn [decode]. rewrite Hs.
    split; [reflexivity|]. split; [|split].
    + apply (f_equal (@length _)) in Hmap.
      rewrite !length_map in Hmap. exact Hmap.
    + intros _. exact Hmap.
    + intros Hex. exfalso. apply List.Exists_exists in Hex as (b & Hin & Hb).
      rewrite List.Forall_forall in Hall. exact (Hall _ Hin Hb).
  - exists (map byte_val raw). cbn [decode].
    rewrite (decode_cp1252_undefined _ Hex). cbn [decode decode_latin1].
    split; [reflexivity|]. split; [apply length_map|]. split.
    + intros Hall. exfalso. apply List.Exists_exists in Hex as (b & Hin & Hb).
      rewrite List.Forall_forall in Hall. exact (Hall _ Hin Hb).
    + reflexivity.
Qed.

Lemma decode_bytes_falls_back_bytewise_witness :
  (exists s,
     _decode_bytes [x63; x61; x66; xe9; x80] = Ok s
     /\ length s = 5%nat
     /\ map Some s = [Some 0x63; Some 0x61; Some 0x66; Some 0xE9; Some 0x20AC])
  /\ (exists s,
        _decode_bytes [xe9; x81] = Ok s /\ s = [0xE9; 0x81]).
Proof.
  split.
  - destruct (decode_bytes_falls_back_bytewise [x63; x61; x66; xe9; x80])
      as (s & H1 & H2 & H3 & _); [reflexivity|].
    exists s. split; [exact H1|]. split; [exact H2|]. apply H3.
    repeat (constructor; [discriminate|]). constructor.
  - destruct (decode_bytes_falls_back_bytewise [xe9; x81])
      as (s & H1 & _ & _ & H4); [reflexivity|].
    exists s. split; [exact H1|]. apply H4.
    constructor 2. constructor. reflexivity.
Defined.

(** ** What the parser records *)

(** The state after one iteration of the loop. *)
Lemma iteration_state st l rest st1 rest1 :
  iteration st l rest = Ok (st1, rest1) ->
  st1 = st
  \/ (exists c r, re_match section_pattern (strip l) = Some (c, r)
                  /\ st1 = enter_section st c)
  \/ (exists c r dl, re_match range_pattern (strip l) = Some (c, r)
                     /\ st1 = enter_range st c dl)
  \/ (exists c r pts dl,
        re_match item_pattern (strip l) = Some (c, r)
        /\ py_float (grp 3 c) = Ok pts
        /\ st1 = add_item (claim_pending st)
                   {| code := grp 1 c; description := strip (grp 2 c);
                      max_points := pts; details := details_text dl |})
  \/ (plain (strip l) /\ st1 = absorb_line st (strip l)).
Proof.
  intros Hit.
  destruct (iteration_cases st l rest)
    as [[_ H]|[(_ & c & r & Hs & _ & H)|[(_ & c & r & Hr & H)|
        [(_ & c & r & Hi & H)|(_ & H1 & H2 & H3 & H)]]]];
    rewrite H in Hit; clear H.
  - injection Hit as <- _. auto.
  - injection Hit as <- _. right. left. eauto.
  - injection Hit as <- _. right. right. left. eauto.
  - destruct (record_item_ok (claim_pending st) _ _ _
                (fst (take_details item_stop [] rest)) Hi) as (pts & Hf & Hrec).
    rewrite Hrec in Hit. cbn [bind] in Hit. injection Hit as <- _.
    right. right. right. left. eauto 7.
  - injection Hit as <- _. right. right. right. right.
    split; [|reflexivity]. repeat split; assumption.
Qed.

Lemma parse_lines_invariant (P : pstate -> Prop) :
  (forall st l rest st1 rest1,
     iteration st l rest = Ok (st1, rest1) -> P st -> P st1) ->
  forall lines st st', parse_lines st lines = Ok st' -> P st -> P st'.
Proof.
  intros Hstep.
  apply (parse_lines_ind (fun st _ st' => P st -> P st')); [auto|].
  intros st l rest st1 rest1 st' Hit _ _ IH Hst. eauto.
Qed.

Lemma M_Eos_inv w t c c' :
  M Eos w t c c' -> w = [] /\ c' = c /\ (t = [] \/ t = [LF]).
Proof. inversion 1; subst. auto. Qed.

Lemma section_shape_full line c rest :
  re_match section_pattern line = Some (c, rest) ->
  exists u sp w2,
    c = [(2%nat, w2); (1%nat, [u])]
    /\ is_upper_AZ u = true
    /\ Forall (fun x => is_space x = true) sp
    /\ w2 <> []
    /\ line = u :: ch ")" :: sp ++ w2 ++ rest
    /\ (rest = [] \/ rest = [LF]).
Proof.
  intros H. apply re_match_sound in H as (w & -> & H).
  unfold section_pattern, upper, Chr, ws, Plus, any in H.
  apply M_Cat_inv in H as (? & ? & ? & -> & H1 & H).
  apply M_Group_inv in H1 as (? & -> & H1).
  apply M_Class_inv in H1 as (u & -> & Hu & ->).
  apply M_Cat_inv in H as (? & ? & ? & -> & Hp & H).
  apply M_Class_inv in Hp as (p & -> & Hp & ->).
  apply Z.eqb_eq in Hp. subst p.
  apply M_Cat_inv in H as (sp & ? & ? & -> & Hs & H).
  apply M_Star_class in Hs as [Hs ->].
  apply M_Cat_inv in H as (w2 & ? & ? & -> & H2 & H).
  apply M_Group_inv in H2 as (? & -> & H2).
  apply M_Cat_inv in H2 as (? & ? & ? & -> & Ha & H2).
  apply M_Class_inv in Ha as (a & -> & Ha & ->).
  apply M_Star_class in H2 as [_ ->].
  apply M_Eos_inv in H as (-> & -> & Ht).
  eexists u, sp, _. split; [reflexivity|]. split; [exact Hu|].
  split; [exact Hs|]. split; [discriminate|]. split; [|exact Ht].
  rewrite app_nil_r, <- !app_assoc. reflexivity.
Qed.

Lemma lstrip_prefix_spaces s :
  exists p, s = p ++ lstrip s /\ Forall (fun x => is_space x = true) p.
Proof.
  induction s as [|x s (p & Hp & Hs)]; [exists []; split; [reflexivity|constructor]|].
  cbn [lstrip]. destruct (is_space x) eqn:E.
  - exists (x :: p). split; [cbn [app]; f_equal; exact Hp|].
    constructor; assumption.
  - exists []. split; [reflexivity|constructor].
Qed.

(** A text that ends with a character that is no white space keeps it
    when stripped, and loses white space at its start only. *)
Lemma strip_ends_nonspace w z :
  is_space z = false ->
  exists p,
    w ++ [z] = p ++ strip (w ++ [z])
    /\ Forall (fun x => is_space x = true) p
    /\ strip (w ++ [z]) <> [].
Proof.
  intros Hz. destruct (lstrip_prefix_spaces (w ++ [z])) as (p & Hp & Hs).
  assert (E : lstrip (w ++ [z]) = lstrip w ++ [z])
    by (apply lstrip_app_nonspace, Hz).
  assert (E2 : strip (w ++ [z]) = lstrip w ++ [z]).
  { unfold strip. rewrite E. apply rstrip_snoc_nonspace, Hz. }
  exists p. rewrite E2, <- E. split; [exact Hp|]. split; [exact Hs|].
  rewrite E. intros N. symmetry in N. exact (app_cons_not_nil _ _ _ N).
Qed.

Lemma section_match_title l c rest :
  re_match section_pattern (strip l) = Some (c, rest) ->
  exists u sp,
    grp 1 c = [u] /\ is_upper_AZ u = true
    /\ strip l = u :: ch ")" :: sp ++ strip (grp 2 c)
    /\ Forall (fun x => is_space x = true) sp
    /\ strip (grp 2 c) <> [].
Proof.
  intros H.
  apply section_shape_full in H as (u & sp & w2 & -> & Hu & Hs & Hne & El & Hr).
  change (grp 1 [(2%nat, w2); (1%nat, [u])]) with [u].
  change (grp 2 [(2%nat, w2); (1%nat, [u])]) with w2.
  destruct (strip_trimmed l) as [_ Hlast].
  destruct Hr as [->| ->].
  - rewrite app_nil_r in El.
    destruct (exists_last Hne) as (w2' & z & ->).
    assert (Hz : is_space z = false).
    { apply (Hlast (u :: ch ")" :: sp ++ w2') z).
      rewrite El. cbn [app]. rewrite <- app_assoc. reflexivity. }
    destruct (strip_ends_nonspace w2' z Hz) as (p & Hp & Hps & Hn).
    exists u, (sp ++ p). split; [reflexivity|]. split; [exact Hu|].
    split; [|split; [apply Forall_app; split; assumption|exact Hn]].
    rewrite El, <- app_assoc. do 3 f_equal. exact Hp.
  - exfalso.
    assert (is_space LF = false); [|discriminate].
    apply (Hlast (u :: ch ")" :: sp ++ w2) LF).
    rewrite El. cbn [app]. rewrite <- app_assoc. reflexivity.
Qed.

Lemma sections_from_headers all lines st st' :
  parse_lines st lines = Ok st' ->
  (forall x, In x lines -> In x all) ->
  (forall k v, sections st !! k = Some v -> section_from_header all k v) ->
  forall k v, sections st' !! k = Some v -> section_from_header all k v.
Proof.
  intros H. revert lines st st' H.
  apply (parse_lines_ind (fun st lines st' =>
    (forall x, In x lines -> In x all) ->
    (forall k v, sections st !! k = Some v -> section_from_header all k v) ->
    forall k v, sections st' !! k = Some v -> section_from_header all k v)).
  - auto.
  - intros st l rest st1 rest1 st' Hit Hin _ IH Hall Hst.
    apply IH; [intros x Hx; apply Hall; right; auto|].
    apply iteration_state in Hit
      as [->|[(c & r & Hm & ->)|[(c & r & dl & _ & ->)
         |[(c & r & pts & dl & _ & _ & ->)|[_ ->]]]]]; try exact Hst.
    + intros k v. cbn [enter_section sections reset_groups].
      destruct (decide (grp 1 c = k)) as [<-|N].
      * rewrite lookup_insert_eq. intros [= <-].
        apply section_match_title in Hm as (u & sp & E1 & Hu & El & Hs & Hn).
        exists u, l, sp. rewrite E1. repeat split; auto.
        -- apply Hall. left. reflexivity.
        -- apply strip_trimmed.
        -- apply strip_trimmed.
      * rewrite lookup_insert_ne by exact N. apply Hst.
    + cbn [add_item sections]. unfold claim_pending.
      destruct (pending_group_has_scores st); [|exact Hst].
      destruct (_extract_score_bullets _). exact Hst.
    + unfold absorb_line. destruct (seen_any_item st); exact Hst.
Qed.

(** X13: every entry of the sections that [parse_rubric_items] returns
    comes from a line of the text that reads, once stripped, a capital
    letter, a closing parenthesis, white space and the title: the key is
    that letter alone, and the title is not empty and has no white space
    at either end. *)
Theorem sections_come_from_header_lines text :
  exists r,
    parse_rubric_items text = Ok r
    /\ forall k v, p_sections r !! k = Some v ->
                   section_from_header (text_lines text) k v.
Proof.
  unfold parse_rubric_items.
  destruct (parse_lines_ok (text_lines text) initial) as [st H].
  rewrite H. eexists. split; [reflexivity|]. cbn [result_of p_sections].
  eapply sections_from_headers; [exact H|auto|].
  intros k v. cbn [initial sections]. rewrite lookup_empty. discriminate.
Qed.

Lemma sections_come_from_header_lines_witness :
  section_from_header
    (text_lines (lit "A)  Clarity " ++ [LF] ++ lit "A1) Thesis (5 points)"))
    (lit "A") (lit "Clarity").
Proof.
  destruct (sections_come_from_header_lines
              (lit "A)  Clarity " ++ [LF] ++ lit "A1) Thesis (5 points)"))
    as (r & Hr & H).
  apply H. vm_compute in Hr. injection Hr as <-. vm_compute. reflexivity.
Defined.
(** ** Inherited scoring belongs to items *)

Lemma claim_pending_sections st : sections (claim_pending st) = sections st.
Proof.
  unfold claim_pending. destruct (pending_group_has_scores st); [|reflexivity].
  destruct (_extract_score_bullets _). reflexivity.
Qed.

Lemma absorb_line_inherited st x :
  inherited_scoring (absorb_line st x) = inherited_scoring st.
Proof. unfold absorb_line. destruct (seen_any_item st); reflexivity. Qed.

Lemma inherited_scoring_has_items lines st st' :
  parse_lines st lines = Ok st' ->
  (forall k e, inherited_scoring st !! k = Some e ->
     e <> ([], []) /\ exists it, In it (items st) /\ code it = k) ->
  forall k e, inherited_scoring st' !! k = Some e ->
    e <> ([], []) /\ exists it, In it (items st') /\ code it = k.
Proof.
  apply (parse_lines_invariant (fun st =>
    forall k e, inherited_scoring st !! k = Some e ->
      e <> ([], []) /\ exists it, In it (items st) /\ code it = k)).
  intros s l rest s1 rest1 Hit Hst.
  apply iteration_state in Hit
    as [->|[(c & r & Hm & ->)|[(c & r & dl & _ & ->)
       |[(c & r & pts & dl & _ & _ & ->)|[_ ->]]]]]; try exact Hst.
  - intros k e. cbn [add_item inherited_scoring items].
    rewrite claim_pending_inherited, claim_pending_items.
    set (b := active_group_bullets (claim_pending s)).
    set (d := active_group_details (claim_pending s)).
    destruct (is_empty b && is_empty d) eqn:E.
    + intros H. destruct (Hst _ _ H) as (Hne & it & Hin & Hc).
      split; [exact Hne|]. exists it. split; [|exact Hc].
      apply in_or_app. left. exact Hin.
    + cbn [code]. destruct (decide (grp 1 c = k)) as [<-|N].
      * rewrite lookup_insert_eq. intros [= <-]. split.
        -- intros [= Hb Hd]. rewrite Hb, Hd in E. discriminate.
        -- eexists. split; [apply in_or_app; right; left; reflexivity|].
           reflexivity.
      * rewrite lookup_insert_ne by exact N. intros H.
        destruct (Hst _ _ H) as (Hne & it & Hin & Hc).
        split; [exact Hne|]. exists it. split; [|exact Hc].
        apply in_or_app. left. exact Hin.
  - intros k e. rewrite absorb_line_inherited, absorb_line_items. apply Hst.
Qed.

(** X14: inherited scoring is recorded for items only: every key of the
    inherited scoring that [parse_rubric_items] returns is the code of
    one of the returned items, and its entry is never the pair of no
    bullets and no details. *)
Theorem inherited_scoring_belongs_to_items text :
  exists r,
    parse_rubric_items text = Ok r
    /\ forall k e, p_inherited_scoring r !! k = Some e ->
         e <> ([], []) /\ exists it, In it (p_items r) /\ code it = k.
Proof.
  unfold parse_rubric_items.
  destruct (parse_lines_ok (text_lines text) initial) as [st H].
  rewrite H. eexists. split; [reflexivity|].
  cbn [result_of p_inherited_scoring p_items].
  eapply inherited_scoring_has_items; [exact H|].
  intros k e. cbn [initial inherited_scoring]. rewrite lookup_empty.
  discriminate.
Qed.

Lemma inherited_scoring_belongs_to_items_witness :
  exists r,
    parse_rubric_items
      (join [LF] ([lit "A) Clarity"] ++ score_lines
                  ++ [lit "A1) Thesis (5 points)"])) = Ok r
    /\ (score_lines, []) <> (@nil str, @nil char)
    /\ exists it, In it (p_items r) /\ code it = lit "A1".
Proof.
  destruct (inherited_scoring_belongs_to_items
              (join [LF] ([lit "A) Clarity"] ++ score_lines
                          ++ [lit "A1) Thesis (5 points)"])))
    as (r & Hr & H).
  exists r. split; [exact Hr|].
  apply (H (lit "A1")).
  vm_compute in Hr. injection Hr as <-. vm_compute. reflexivity.
Defined.

(** ** The body of an item *)

Lemma iteration_item_body st l rest st1 rest1 :
  iteration st l rest = Ok (st1, rest1) ->
  exists body,
    rest = body ++ rest1
    /\ (items st1 = items st
        \/ exists c t it,
             re_match item_pattern (strip l) = Some (c, t)
             /\ body_lines item_stop body /\ body_end item_stop rest1
             /\ code it = grp 1 c
             /\ description it = strip (grp 2 c)
             /\ details it = join [LF] (nonempty (map strip body))
             /\ items st1 = items st ++ [it]).
Proof.
  intros Hit.
  destruct (iteration_cases st l rest)
    as [[_ H]|[(_ & c & r & _ & _ & H)|[(_ & c & r & Hr & H)|
        [(_ & c & r & Hi & H)|(_ & _ & _ & _ & H)]]]];
    rewrite H in Hit; clear H.
  - injection Hit as <- <-. exists []. auto.
  - injection Hit as <- <-. exists []. auto.
  - injection Hit as <- <-.
    destruct (take_details_suffix range_stop rest []) as (p & Hp & _).
    exists p. split; [assumption|]. left. reflexivity.
  - destruct (record_item_ok (claim_pending st) _ _ _
                (fst (take_details item_stop [] rest)) Hi) as (pts & _ & Hrec).
    rewrite Hrec in Hit. cbn [bind] in Hit.
    destruct (take_details_reads_body item_stop rest)
      as (body & rest' & E & Hb & He & Htd).
    rewrite Htd in Hit. cbn [fst snd] in Hit. injection Hit as <- <-.
    exists body. split; [assumption|]. right.
    eexists c, r, _. split; [exact Hi|]. split; [exact Hb|].
    split; [exact He|].
    split; [|split; [|split]];
      [| | |cbn [add_item items]; rewrite claim_pending_items; reflexivity].
    + reflexivity.
    + reflexivity.
    + cbn [details]. apply details_text_all. exact Hb.
  - injection Hit as <- <-. exists []. split; [reflexivity|].
    left. apply absorb_line_items.
Qed.

Lemma items_from_bodies all lines st st' :
  parse_lines st lines = Ok st' ->
  forall pre,
    all = pre ++ lines ->
    Forall (item_from_body all) (items st) ->
    Forall (item_from_body all) (items st').
Proof.
  intros H. revert lines st st' H.
  apply (parse_lines_ind (fun st lines st' =>
    forall pre, all = pre ++ lines ->
    Forall (item_from_body all) (items st) ->
    Forall (item_from_body all) (items st'))).
  - auto.
  - intros st l rest st1 rest1 st' Hit _ _ IH pre Hall Hst.
    apply iteration_item_body in Hit as (body & Hrest & Hitems).
    apply (IH (pre ++ l :: body)).
    { rewrite Hall, Hrest, <- app_assoc. reflexivity. }
    destruct Hitems as [->|(c & t & it & Hm & Hb & He & Hc & Hd & Hdt & ->)];
      [assumption|].
    apply Forall_app. split; [assumption|]. constructor; [|constructor].
    exists pre, l, body, rest1, c, t. rewrite Hall, Hrest. auto 8.
Qed.

(** X15: every item that [parse_rubric_items] returns comes from a line
    that matches the item pattern and the lines after it up to the next
    item or section header: its description is the matched description
    stripped, and its details are the non-blank lines of that body, each
    stripped, joined by single newlines; blank lines leave no trace, and
    lines that look like range headers or score lines are details like
    any other. *)
Theorem item_details_are_the_nonblank_lines text :
  exists r,
    parse_rubric_items text = Ok r
    /\ Forall (item_from_body (text_lines text)) (p_items r).
Proof.
  unfold parse_rubric_items.
  destruct (parse_lines_ok (text_lines text) initial) as [st H].
  rewrite H. eexists. split; [reflexivity|]. cbn [result_of p_items].
  eapply (items_from_bodies _ _ _ _ H []); [reflexivity|constructor].
Qed.
(** ** Point values are not negative *)

Lemma shr_1_nonneg mrs : 0 <= shr_m mrs -> 0 <= shr_m (shr_1 mrs).
Proof.
  destruct mrs as [m r s]. cbn [shr_m shr_1].
  destruct m as [|[p|p|]|p]; cbn [shr_m]; lia.
Qed.

Lemma iter_pos_keeps {A} (f : A -> A) (P : A -> Prop) :
  (forall x, P x -> P (f x)) -> forall n x, P x -> P (SpecFloat.iter_pos f n x).
Proof.
  intros Hf. induction n as [n IH|n IH|]; intros x Hx; cbn [SpecFloat.iter_pos]; auto.
Qed.

Lemma shr_fexp_nonneg m e l :
  0 <= m -> 0 <= shr_m (fst (shr_fexp prec emax m e l)).
Proof.
  intros Hm. unfold shr_fexp, shr.
  assert (H0 : 0 <= shr_m (shr_record_of_loc m l))
    by (destruct l as [|[]]; exact Hm).
  destruct (fexp prec emax (Zdigits2 m + e) - e); cbn [fst]; try exact H0.
  apply iter_pos_keeps; [apply shr_1_nonneg|exact H0].
Qed.

Lemma round_nearest_even_nonneg m l :
  0 <= m -> 0 <= round_nearest_even m l.
Proof.
  intros Hm. unfold round_nearest_even.
  destruct l as [|[]]; try destruct (Z.even m); lia.
Qed.

Lemma binary_round_aux_nonnegative m e l :
  0 <= m -> nonnegative (binary_round_aux prec emax false m e l).
Proof.
  intros Hm. unfold binary_round_aux.
  pose proof (shr_fexp_nonneg m e l Hm) as H1.
  destruct (shr_fexp prec emax m e l) as [mrs1 e1]. cbn [fst] in H1.
  pose proof (shr_fexp_nonneg _ e1 loc_Exact
                (round_nearest_even_nonneg _ (loc_of_shr_record mrs1) H1))
    as H2.
  destruct (shr_fexp prec emax _ e1 loc_Exact) as [mrs2 e2]. cbn [fst] in H2.
  destruct (shr_m mrs2) as [|p|p]; [reflexivity| |lia].
  destruct (e2 <=? emax - prec); reflexivity.
Qed.

Lemma float_of_ratio_nonnegative n d : nonnegative (float_of_ratio n d).
Proof.
  unfold float_of_ratio. destruct n as [|p|p]; try reflexivity.
  destruct (SFdiv_core_binary prec emax (Z.pos p) 0 (Z.pos d) 0)
    as [[m e] l] eqn:E.
  apply binary_round_aux_nonnegative.
  unfold SFdiv_core_binary in E.
  set (s := 0 - 0 - _) in E.
  set (m' := match s with Z0 => _ | Zpos _ => _ | Zneg _ => _ end) in E.
  assert (Hm' : 0 <= m').
  { subst m'. destruct s; [lia| |lia]. apply Z.shiftl_nonneg. lia. }
  pose proof (Z.div_pos m' (Z.pos d) Hm' ltac:(lia)) as Hq.
  unfold Z.div in Hq. destruct (Z.div_eucl m' (Z.pos d)) as [q r].
  cbn [fst] in Hq. injection E as <- _ _. exact Hq.
Qed.

Lemma py_float_nonnegative s x : py_float s = Ok x -> nonnegative x.
Proof.
  unfold py_float.
  destruct (if contains (ch ".") s then split_once (ch ".") s else (s, []))
    as [ip fp].
  destruct (ip ++ fp); [discriminate|].
  destruct (digits_value 0 _); [|discriminate].
  intros [= <-]. apply float_of_ratio_nonnegative.
Qed.

(** X16: the [max_points] of an item that [parse_rubric_items] returns is
    never negative and never a NaN; it is infinite when the numeral is
    too large for a float. *)
Theorem max_points_is_not_negative :
  (forall text,
     exists r,
       parse_rubric_items text = Ok r
       /\ Forall (fun it => nonnegative (max_points it)) (p_items r))
  /\ (exists r it,
        parse_rubric_items
          (lit "A1) Huge (1" ++ repeat (ch "0") 309 ++ lit ")") = Ok r
        /\ p_items r = [it]
        /\ max_points it = S754_infinity false).
Proof.
  split.
  - intros text. unfold parse_rubric_items.
    destruct (parse_lines_ok (text_lines text) initial) as [st H].
    rewrite H. eexists. split; [reflexivity|]. cbn [result_of p_items].
    assert (Hall : Forall (item_from_header (text_lines text)) (items st)).
    { eapply items_from_headers; eauto. }
    eapply List.Forall_impl; [|exact Hall].
    intros it (l & c & rest & _ & _ & _ & _ & Hf).
    eapply py_float_nonnegative, Hf.
  - eexists _, _. split; [vm_compute; reflexivity|].
    split; reflexivity.
Qed.

(** ** The preamble *)

Lemma plain_nil : plain [].
Proof. repeat split. Qed.

Lemma parse_lines_plain_prefix pre : forall st tail,
  seen_any_item st = false ->
  Forall (fun l => plain (strip l)) pre ->
  exists st1,
    parse_lines st (pre ++ tail) = parse_lines st1 tail
    /\ seen_any_item st1 = false
    /\ items st1 = items st /\ sections st1 = sections st
    /\ range_blocks st1 = range_blocks st
    /\ inherited_scoring st1 = inherited_scoring st
    /\ preamble_lines st1 = preamble_lines st ++ nonempty (map strip pre).
Proof.
  induction pre as [|l pre IH]; intros st tail Hseen Hall.
  - exists st. cbn [app map nonempty List.filter]. rewrite app_nil_r. auto 8.
  - apply List.Forall_cons_iff in Hall as [Hl Hpre]. cbn [app].
    destruct (parse_lines_cons st l (pre ++ tail))
      as (st1 & r1 & Hit & _ & _ & E).
    rewrite E. clear E.
    destruct (strip l) as [|x y] eqn:El.
    + destruct (iteration_cases st l (pre ++ tail))
        as [[_ H]|[(N & _)|[(N & _)|[(N & _)|(N & _)]]]]; try congruence.
      rewrite H in Hit. injection Hit as <- <-.
      cbn [map nonempty List.filter]. rewrite El. cbn [is_empty negb].
      apply IH; assumption.
    + assert (Hne : strip l <> []) by (rewrite El; discriminate).
      rewrite <- El in Hl.
      rewrite (iteration_plain st l _ Hne Hl) in Hit.
      injection Hit as <- <-.
      destruct (IH (absorb_line st (strip l)) tail)
        as (st' & -> & H0 & H1 & H2 & H3 & H4 & H5); [|exact Hpre|].
      { unfold absorb_line. rewrite Hseen. reflexivity. }
      exists st'. split; [reflexivity|].
      unfold absorb_line in *. rewrite Hseen in *.
      cbn [items sections range_blocks inherited_scoring preamble_lines] in *.
      cbn [map nonempty List.filter]. rewrite El. cbn [is_empty negb].
      rewrite <- El. rewrite <- app_assoc in H5. auto 8.
Qed.

Lemma preamble_is_closed lines st st' :
  parse_lines st lines = Ok st' ->
  seen_any_item st = true ->
  seen_any_item st' = true /\ preamble_lines st' = preamble_lines st.
Proof.
  intros H Hseen.
  apply (parse_lines_invariant (fun s =>
    seen_any_item s = true /\ preamble_lines s = preamble_lines st)
    ) with (lines := lines) (st := st); [|exact H|auto].
  intros s l rest s1 rest1 Hit [Hs Hp].
  apply iteration_state in Hit
    as [->|[(c & r & Hm & ->)|[(c & r & dl & _ & ->)
       |[(c & r & pts & dl & _ & _ & ->)|[_ ->]]]]]; auto.
  - cbn [add_item seen_any_item preamble_lines]. unfold claim_pending.
    destruct (pending_group_has_scores s);
      [destruct (_extract_score_bullets _)|]; auto.
  - unfold absorb_line. rewrite Hs. auto.
Qed.

Lemma header_closes_preamble st l rest st1 rest1 :
  iteration st l rest = Ok (st1, rest1) ->
  ~ plain (strip l) ->
  seen_any_item st1 = true /\ preamble_lines st1 = preamble_lines st.
Proof.
  intros Hit Hl.
  destruct (iteration_cases st l rest)
    as [[N _]|[(_ & c & r & _ & _ & H)|[(_ & c & r & Hr & H)|
        [(_ & c & r & Hi & H)|(_ & H1 & H2 & H3 & _)]]]].
  - exfalso. apply Hl. rewrite N. apply plain_nil.
  - rewrite H in Hit. injection Hit as <- _. auto.
  - rewrite H in Hit. injection Hit as <- _. auto.
  - destruct (iteration_item st l rest c r Hi) as (pts & _ & E).
    rewrite E in Hit. injection Hit as <- _.
    cbn [add_item seen_any_item preamble_lines]. unfold claim_pending.
    destruct (pending_group_has_scores st);
      [destruct (_extract_score_bullets _)|]; auto.
  - exfalso. apply Hl. repeat split; assumption.
Qed.

(** X17: the preamble is the prose before the first header: when the
    lines up to a line that matches a header pattern match none, the
    preamble that [parse_rubric_items] returns is made of those lines
    alone, the non-blank ones, each stripped, joined by newlines, whatever
    comes after the header. *)
Theorem preamble_is_the_prose_before_the_first_header text pre hdr rest :
  text_lines text = pre ++ hdr :: rest ->
  Forall (fun l => plain (strip l)) pre ->
  ~ plain (strip hdr) ->
  exists r,
    parse_rubric_items text = Ok r
    /\ p_preamble r = strip (join [LF] (nonempty (map strip pre))).
Proof.
  intros Ht Hpre Hhdr. unfold parse_rubric_items. rewrite Ht.
  destruct (parse_lines_plain_prefix pre initial (hdr :: rest) eq_refl Hpre)
    as (st1 & -> & Hs1 & _ & _ & _ & _ & Hp1).
  destruct (parse_lines_cons st1 hdr rest) as (st2 & r2 & Hit & _ & _ & ->).
  destruct (header_closes_preamble _ _ _ _ _ Hit Hhdr) as [Hs2 Hp2].
  destruct (parse_lines_ok r2 st2) as [st3 H3].
  destruct (preamble_is_closed _ _ _ H3 Hs2) as [_ Hp3].
  rewrite H3. eexists. split; [reflexivity|].
  cbn [result_of p_preamble]. rewrite Hp3, Hp2, Hp1. reflexivity.
Qed.

Lemma preamble_is_the_prose_before_the_first_header_witness :
  exists r,
    parse_rubric_items
      (join [LF] [lit " Grading notes"; []; lit "read twice ";
                  lit "A) Clarity"; lit "prose in the section";
                  lit "A1) Thesis (5 points)"]) = Ok r
    /\ p_preamble r = lit "Grading notes" ++ [LF] ++ lit "read twice".
Proof.
  apply (preamble_is_the_prose_before_the_first_header _
           [lit " Grading notes"; []; lit "read twice"] (lit "A) Clarity")
           [lit "prose in the section"; lit "A1) Thesis (5 points)"]).
  - vm_compute. reflexivity.
  - repeat (constructor; [repeat split; vm_compute; reflexivity|]).
    constructor.
  - intros (H & _). vm_compute in H. discriminate.
Defined.
(** ** A run of items *)

Lemma header_codes_app a b :
  header_codes (a ++ b) = header_codes a ++ header_codes b.
Proof. unfold header_codes. apply flat_map_app. Qed.

Lemma header_codes_body body :
  body_lines item_stop body -> header_codes body = [].
Proof.
  induction 1 as [|l body Hl _ IH]; [reflexivity|].
  change (header_codes (l :: body))
    with ((match re_match item_pattern (strip l) with
           | Some (c, _) => [grp 1 c]
           | None => []
           end) ++ header_codes body).
  rewrite IH, app_nil_r.
  destruct (re_match item_pattern (strip l)) as [[c t]|] eqn:E;
    [|reflexivity].
  exfalso. destruct Hl as [N|N].
  - apply item_match_nonempty in E. contradiction.
  - apply item_match_stops in E. congruence.
Qed.

Lemma item_run n : forall lines st,
  (length lines <= n)%nat ->
  Forall (fun l => ~ section_header (strip l)) lines ->
  body_end item_stop lines ->
  exists st',
    parse_lines st lines = Ok st'
    /\ map code (items st') = map code (items st) ++ header_codes lines
    /\ range_blocks st' = range_blocks st
    /\ sections st' = sections st.
Proof.
  induction n as [|n IH]; intros [|l rest] st Hn Hall Hhead;
    cbn [length] in Hn; try lia;
    try (exists st; rewrite parse_lines_nil; cbn [header_codes flat_map];
         rewrite app_nil_r; auto).
  destruct Hhead as [N|(l0 & r0 & [= <- <-] & Hne & Hstop)]; [discriminate|].
  apply List.Forall_cons_iff in Hall as [Hl Hrest].
  assert (Hm : matches item_pattern (strip l) = true).
  { unfold item_stop in Hstop. unfold section_header in Hl.
    destruct (matches item_pattern (strip l)); [reflexivity|].
    destruct (matches section_pattern (strip l)); [|discriminate].
    exfalso. apply Hl. auto. }
  apply matches_true in Hm as (c & t & Hm).
  destruct (parse_lines_cons st l rest) as (st1 & r1 & Hit & Hlen & _ & E).
  rewrite E. clear E.
  destruct (iteration_item st l rest c t Hm) as (pts & _ & Hit').
  rewrite Hit' in Hit. injection Hit as <- <-.
  destruct (take_details_reads_body item_stop rest)
    as (body & rest1 & Hr & Hb & He & Htd).
  rewrite Htd in *. cbn [fst snd] in *.
  edestruct (IH rest1) as (st' & Hrun & Hcodes & Hblocks & Hsec).
  - lia.
  - rewrite Hr in Hrest. apply Forall_app in Hrest as [_ ?]. eassumption.
  - exact He.
  - exists st'. split; [exact Hrun|]. split; [|split].
    + rewrite Hcodes. cbn [add_item items]. rewrite claim_pending_items.
      rewrite List.map_app. cbn [map code]. rewrite <- app_assoc.
      f_equal. rewrite Hr.
      change (header_codes (l :: body ++ rest1))
        with ((match re_match item_pattern (strip l) with
               | Some (c, _) => [grp 1 c]
               | None => []
               end) ++ header_codes (body ++ rest1)).
      rewrite Hm, header_codes_app, (header_codes_body _ Hb). reflexivity.
    + rewrite Hblocks. cbn [add_item range_blocks].
      apply claim_pending_range_blocks.
    + rewrite Hsec. cbn [add_item sections]. apply claim_pending_sections.
Qed.

(** X18: once an item header is read, only item headers count until the
    next section header: when the text starts with prose and goes on, from
    a line that matches the item pattern, without a section header, the
    items that [parse_rubric_items] returns are the lines that match the
    item pattern, one item each in their order, and no range block and no
    section is recorded, whatever range headers the lines hold. *)
Theorem items_after_an_item_header text pre hdr rest :
  text_lines text = pre ++ hdr :: rest ->
  Forall (fun l => plain (strip l)) pre ->
  matches item_pattern (strip hdr) = true ->
  Forall (fun l => ~ section_header (strip l)) rest ->
  exists r,
    parse_rubric_items text = Ok r
    /\ map code (p_items r) = header_codes (hdr :: rest)
    /\ p_range_blocks r = []
    /\ p_sections r = ∅.
Proof.
  intros Ht Hpre Hhdr Hrest. unfold parse_rubric_items. rewrite Ht.
  destruct (parse_lines_plain_prefix pre initial (hdr :: rest) eq_refl Hpre)
    as (st1 & -> & _ & Hi1 & Hs1 & Hb1 & _ & _).
  destruct (item_run (length (hdr :: rest)) (hdr :: rest) st1 (le_n _))
    as (st' & -> & Hcodes & Hblocks & Hsec).
  - constructor; [|exact Hrest]. intros [_ N]. congruence.
  - right. exists hdr, rest. split; [reflexivity|].
    apply matches_true in Hhdr as (c & t & Hm). split.
    + eapply item_match_nonempty, Hm.
    + eapply item_match_stops, Hm.
  - eexists. split; [reflexivity|].
    cbn [result_of p_items p_range_blocks p_sections].
    rewrite Hcodes, Hblocks, Hsec, Hi1, Hb1, Hs1. auto.
Qed.

Lemma items_after_an_item_header_witness :
  exists r,
    parse_rubric_items
      (join [LF] [lit "Intro"; lit "A1) Thesis (5 points)";
                  lit "A2-A3) Shared"; lit "note";
                  lit "A2) Evidence (3)"]) = Ok r
    /\ map code (p_items r) = [lit "A1"; lit "A2"]
    /\ p_range_blocks r = []
    /\ p_sections r = ∅.
Proof.
  apply (items_after_an_item_header _
           [lit "Intro"] (lit "A1) Thesis (5 points)")
           [lit "A2-A3) Shared"; lit "note"; lit "A2) Evidence (3)"]).
  - vm_compute. reflexivity.
  - repeat (constructor; [repeat split; vm_compute; reflexivity|]).
    constructor.
  - vm_compute. reflexivity.
  - repeat (constructor;
            [intros [H _]; vm_compute in H; discriminate|]).
    constructor.
Defined.

(** ** Score bullets *)

Lemma extract_fold lines : forall b0 r0,
  fold_left
    (fun '(bullets, rest_lines) line =>
       match re_match score_line (strip line) with
       | Some (c, _) =>
           (bullets ++ [grp 1 c ++ lit ": " ++ strip (grp 2 c)], rest_lines)
       | None => (bullets, rest_lines ++ [line])
       end) lines (b0, r0)
  = (b0 ++ flat_map bullet_of lines,
     r0 ++ List.filter (fun l => negb (is_score_line l)) lines).
Proof.
  induction lines as [|l lines IH]; intros b0 r0.
  - cbn [fold_left flat_map List.filter]. rewrite !app_nil_r. reflexivity.
  - cbn [fold_left flat_map List.filter].
    unfold is_score_line at 1, matches, bullet_of at 1.
    destruct (re_match score_line (strip l)) as [[c t]|]; rewrite IH.
    + cbn [negb]. rewrite <- app_assoc. reflexivity.
    + cbn [negb]. rewrite <- app_assoc. reflexivity.
Qed.

Lemma extract_spec text :
  text <> [] ->
  _extract_score_bullets text
  = (flat_map bullet_of (splitlines text),
     strip (join [LF]
              (List.filter (fun l => negb (is_empty (strip l)))
                 (List.filter (fun l => negb (is_score_line l))
                    (splitlines text))))).
Proof.
  intros Hne. unfold _extract_score_bullets.
  destruct text as [|x text]; [congruence|]. cbn [is_empty].
  rewrite extract_fold. reflexivity.
Qed.

Lemma score_line_shape line c rest :
  re_match score_line line = Some (c, rest) ->
  exists p w1 w2,
    c = [(2%nat, w2); (1%nat, w1)]
    /\ is_numeral w1 /\ w2 <> []
    /\ line = p ++ w2 ++ rest
    /\ (rest = [] \/ rest = [LF]).
Proof.
  intros H. apply re_match_sound in H as (w & -> & H).
  unfold score_line, ws, Plus, any in H.
  apply M_Cat_inv in H as (w0 & ? & ? & -> & H0 & H).
  apply M_nocap in H0 as ->; [|reflexivity].
  apply M_Cat_inv in H as (s0 & ? & ? & -> & Hs & H).
  apply M_Star_class in Hs as [_ ->].
  apply M_Cat_inv in H as (w1 & ? & ? & -> & H1 & H).
  apply M_Group_inv in H1 as (? & -> & H1).
  apply M_number in H1 as [H1 ->].
  apply M_Cat_inv in H as (s1 & ? & ? & -> & Hs & H).
  apply M_Star_class in Hs as [_ ->].
  apply M_Cat_inv in H as (cl & ? & ? & -> & Hc & H).
  apply M_nocap in Hc as ->; [|reflexivity].
  apply M_Cat_inv in H as (s2 & ? & ? & -> & Hs & H).
  apply M_Star_class in Hs as [_ ->].
  apply M_Cat_inv in H as (w2 & ? & ? & -> & H2 & H).
  apply M_Group_inv in H2 as (? & -> & H2).
  apply M_Cat_inv in H2 as (? & ? & ? & -> & Ha & H2).
  apply M_Class_inv in Ha as (a & -> & Ha & ->).
  apply M_Star_class in H2 as [_ ->].
  apply M_Eos_inv in H as (-> & -> & Ht).
  eexists (w0 ++ s0 ++ w1 ++ s1 ++ cl ++ s2), w1, _.
  split; [reflexivity|]. split; [exact H1|]. split; [discriminate|].
  split; [|exact Ht]. rewrite app_nil_r, <- !app_assoc. reflexivity.
Qed.

(** What ends a stripped line is not white space: a match that ends
    there has no line feed after it, and a group that ends there is not
    empty once stripped. *)
Lemma stripped_line_ending l p w rest :
  strip l = p ++ w ++ rest -> w <> [] -> rest = [] \/ rest = [LF] ->
  rest = [] /\ strip w <> [].
Proof.
  intros El Hne Hr. destruct (strip_trimmed l) as [_ Hlast].
  destruct Hr as [->| ->].
  - split; [reflexivity|]. rewrite app_nil_r in El.
    destruct (exists_last Hne) as (w' & z & ->).
    assert (Hz : is_space z = false).
    { apply (Hlast (p ++ w') z). rewrite El, <- app_assoc. reflexivity. }
    destruct (strip_ends_nonspace w' z Hz) as (_ & _ & _ & Hn). exact Hn.
  - exfalso. assert (is_space LF = false); [|discriminate].
    apply (Hlast (p ++ w) LF). rewrite El, <- app_assoc. reflexivity.
Qed.

Lemma bullet_of_shape line : Forall score_bullet (bullet_of line).
Proof.
  unfold bullet_of.
  destruct (re_match score_line (strip line)) as [[c rest]|] eqn:E;
    [|constructor].
  apply score_line_shape in E as (p & w1 & w2 & -> & Hn & Hne & El & Hr).
  destruct (stripped_line_ending _ _ _ _ El Hne Hr) as [_ Hd].
  constructor; [|constructor].
  exists w1, (strip w2). split; [reflexivity|].
  split; [exact Hn|]. split; [exact Hd|apply strip_trimmed].
Qed.

Lemma bullet_of_length line : (length (bullet_of line) <= 1)%nat.
Proof.
  unfold bullet_of. destruct (re_match score_line (strip line)) as [[c t]|];
    cbn [length]; lia.
Qed.

(** X19: every bullet that [_extract_score_bullets] returns reads: a
    decimal numeral, a colon, a space, and a text that is not empty and
    has no white space at either end; there is at most one bullet for a
    line of the text, and the rest that comes with the bullets has no
    white space at either end. *)
Theorem score_bullets_are_well_formed text :
  Forall score_bullet (fst (_extract_score_bullets text))
  /\ (length (fst (_extract_score_bullets text))
      <= length (splitlines text))%nat
  /\ trimmed (snd (_extract_score_bullets text)).
Proof.
  destruct text as [|x text].
  - split; [constructor|]. split; [reflexivity|].
    split; intros; destruct t; discriminate.
  - rewrite extract_spec by discriminate. cbn [fst snd].
    split; [|split; [|apply strip_trimmed]].
    + induction (splitlines (x :: text)) as [|l ls IH]; [constructor|].
      cbn [flat_map]. apply Forall_app. split; [apply bullet_of_shape|exact IH].
    + induction (splitlines (x :: text)) as [|l ls IH]; [reflexivity|].
      cbn [flat_map length]. rewrite length_app.
      pose proof (bullet_of_length l). lia.
Qed.

(** ** Details split back into their lines *)

Lemma not_linebreak_not_CR c : is_linebreak c = false -> (c =? CR) = false.
Proof.
  intros H. destruct (c =? CR) eqn:E; [|reflexivity].
  apply Z.eqb_eq in E. subst c. discriminate.
Qed.

Lemma splitlines_from_line l : forall cur s',
  one_line l ->
  splitlines_from cur (l ++ LF :: s') = (rev cur ++ l) :: splitlines_from [] s'.
Proof.
  induction l as [|c l IH]; intros cur s' Hl.
  - cbn [app splitlines_from]. rewrite app_nil_r. reflexivity.
  - apply List.Forall_cons_iff in Hl as [Hc Hl].
    cbn [app splitlines_from].
    rewrite (not_linebreak_not_CR _ Hc), Hc, (IH _ _ Hl).
    cbn [rev]. rewrite <- app_assoc. reflexivity.
Qed.

Lemma splitlines_from_last l : forall cur,
  one_line l -> rev cur ++ l <> [] ->
  splitlines_from cur l = [rev cur ++ l].
Proof.
  induction l as [|c l IH]; intros cur Hl Hne.
  - cbn [splitlines_from]. rewrite app_nil_r in *.
    destruct cur; [contradiction Hne; reflexivity|reflexivity].
  - apply List.Forall_cons_iff in Hl as [Hc Hl].
    cbn [splitlines_from].
    rewrite (not_linebreak_not_CR _ Hc), Hc, (IH _ Hl).
    + cbn [rev]. rewrite <- app_assoc. reflexivity.
    + cbn [rev]. rewrite <- app_assoc. intros N.
      exact (app_cons_not_nil _ _ _ (eq_sym N)).
Qed.

Lemma splitlines_join ls :
  Forall (fun l => l <> [] /\ one_line l) ls ->
  splitlines (join [LF] ls) = ls.
Proof.
  unfold splitlines. induction 1 as [|x ls [Hne Hx] Hls IH]; [reflexivity|].
  destruct ls as [|y ls].
  - cbn [join]. apply (splitlines_from_last x [] Hx Hne).
  - rewrite join_cons_cons.
    change ([LF] ++ join [LF] (y :: ls)) with (LF :: join [LF] (y :: ls)).
    rewrite (splitlines_from_line x [] _ Hx).
    cbn [rev app]. f_equal. exact IH.
Qed.

Lemma splitlines_from_one_line n : forall s cur,
  (length s <= n)%nat -> one_line cur ->
  Forall one_line (splitlines_from cur s).
Proof.
  induction n as [|n IH]; intros [|c s] cur Hn Hcur; cbn [length] in Hn;
    try lia.
  - cbn [splitlines_from]. destruct cur; constructor; [|constructor].
    apply Forall_rev. exact Hcur.
  - cbn [splitlines_from]. destruct cur; constructor; [|constructor].
    apply Forall_rev. exact Hcur.
  - assert (Hrev : one_line (rev cur)) by (apply Forall_rev; exact Hcur).
    cbn [splitlines_from]. destruct (c =? CR).
    + destruct s as [|d s'']; [constructor; [exact Hrev|constructor]|].
      cbn [length] in Hn.
      destruct (d =? LF); (constructor; [exact Hrev|]);
        apply IH; cbn [length]; try lia; constructor.
    + destruct (is_linebreak c) eqn:E.
      * constructor; [exact Hrev|]. apply IH; [lia|constructor].
      * apply IH; [lia|]. constructor; assumption.
Qed.

Lemma one_line_strip l : one_line l -> one_line (strip l).
Proof.
  intros H. destruct (strip_infix l) as (p & q & E).
  exact (infix_keeps _ _ _ _ _ E H).
Qed.

Lemma one_line_rstrip l : one_line l -> one_line (rstrip l).
Proof.
  intros H. destruct (rstrip_prefix l) as (q & E).
  apply (infix_keeps _ l [] (rstrip l) q); [exact E|exact H].
Qed.

Lemma text_lines_one_line text : Forall one_line (text_lines text).
Proof.
  unfold text_lines, splitlines.
  pose proof (splitlines_from_one_line (length text) text [] (le_n _)
                (List.Forall_nil _)) as H.
  induction H as [|l ls Hl _ IH]; [constructor|].
  cbn [map]. constructor; [apply one_line_rstrip, Hl|exact IH].
Qed.

Lemma filter_all {A} (f : A -> bool) l :
  Forall (fun x => f x = true) l -> List.filter f l = l.
Proof.
  induction 1 as [|x l Hx _ IH]; [reflexivity|].
  cbn [List.filter]. rewrite Hx, IH. reflexivity.
Qed.

Lemma detail_lines_shape body :
  Forall one_line body ->
  Forall (fun l => l <> [] /\ trimmed l /\ one_line l)
         (nonempty (map strip body)).
Proof.
  induction 1 as [|l body Hl _ IH]; [constructor|].
  cbn [map nonempty List.filter]. fold (nonempty (map strip body)).
  destruct (strip l) as [|x y] eqn:E; cbn [is_empty negb]; [exact IH|].
  constructor; [|exact IH]. rewrite <- E.
  split; [rewrite E; discriminate|].
  split; [apply strip_trimmed|apply one_line_strip, Hl].
Qed.

(** X20: the details of an item or a range block, given to
    [_extract_score_bullets], split back into the lines they were joined
    from: the lines of the text have no line boundary inside, and for the
    non-blank lines of a body, each stripped and joined by newlines, the
    bullets are those of the lines that match the score pattern, in their
    order, and the rest is the other lines, joined by newlines again. *)
Theorem score_bullets_of_details :
  (forall text, Forall one_line (text_lines text))
  /\ (forall body,
        Forall one_line body ->
        _extract_score_bullets (join [LF] (nonempty (map strip body)))
        = (flat_map bullet_of (nonempty (map strip body)),
           join [LF] (List.filter (fun l => negb (is_score_line l))
                        (nonempty (map strip body))))).
Proof.
  split; [apply text_lines_one_line|].
  intros body Hbody. pose proof (detail_lines_shape body Hbody) as Hls.
  destruct (nonempty (map strip body)) as [|l ls] eqn:E; [reflexivity|].
  assert (Hne : join [LF] (l :: ls) <> []).
  { apply List.Forall_cons_iff in Hls as [[Hl _] _].
    destruct l; [congruence|]. destruct ls; discriminate. }
  rewrite <- E in *.
  rewrite (extract_spec _ Hne), splitlines_join.
  2:{ eapply List.Forall_impl; [|exact Hls]. intros x (H1 & _ & H3). auto. }
  f_equal.
  set (others := List.filter (fun l => negb (is_score_line l))
                   (nonempty (map strip body))).
  assert (Ho : Forall (fun x => x <> [] /\ trimmed x) others).
  { subst others. rewrite List.Forall_forall in *.
    intros x Hx. apply List.filter_In in Hx as [Hx _].
    destruct (Hls x Hx) as (H1 & H2 & _). auto. }
  rewrite filter_all.
  - apply strip_of_trimmed, join_trimmed, Ho.
  - eapply List.Forall_impl; [|exact Ho]. intros x [H1 H2].
    rewrite (strip_of_trimmed _ H2). destruct x; [congruence|reflexivity].
Qed.

Lemma score_bullets_of_details_witness :
  _extract_score_bullets
    (join [LF] (nonempty (map strip
       [lit " 0: no attempt "; []; lit "See the notes"; lit "- 5 : full"])))
  = ([lit "0: no attempt"; lit "5: full"], lit "See the notes").
Proof.
  destruct score_bullets_of_details as [_ H].
  rewrite H; [vm_compute; reflexivity|].
  repeat (constructor; [repeat constructor|]). constructor.
Defined.

(** ** The report for any scores *)

Lemma join_report_blocks (scores : gmap str float)
    (explanations : gmap str str) items :
  join [LF]
    ([] :: flat_map (fun item =>
             [report_line scores item;
              lit "Explanation: "
              ++ strip (default [] (explanations !! code item));
              []]) items)
  = concat (map (report_block scores explanations) items).
Proof.
  induction items as [|it items IH]; [reflexivity|].
  cbn [flat_map map concat app].
  rewrite !join_cons_cons.
  match goal with
  | |- context [join [LF] ([] :: ?l)] =>
      change (join [LF] ([] :: l)) with (join [LF] ([] :: l))
  end.
  rewrite IH. unfold report_block. rewrite <- !app_assoc. reflexivity.
Qed.

Lemma format_output_blocks items scores explanations :
  format_output items scores explanations
  = strip (report_total items scores ++ [LF]
           ++ concat (map (report_block scores explanations) items)) ++ [LF].
Proof.
  unfold format_output. f_equal. f_equal.
  etransitivity.
  { apply (f_equal (join [LF])).
    apply (fold_left_append
             (fun item =>
                [report_line scores item;
                 lit "Explanation: "
                 ++ strip (default [] (explanations !! code item));
                 []])). }
  change ([?a; []] ++ ?l) with (a :: [] :: l).
  rewrite join_cons_cons, join_report_blocks. reflexivity.
Qed.

(** X21: the layout of the report for any scores: the first line is the
    total, the sum of the scores found for the items (zero for an item
    without a score) over the sum of the maximum points; then, for every
    item in the order of the list and after an empty line, its line with
    the score found for its code, or zero, over its maximum, and its
    explanation line; the report ends with a single newline after a text
    that has no white space at either end. *)
Theorem format_output_layout items scores explanations :
  (exists rest,
     format_output items scores explanations
     = report_total items scores ++ [LF] ++ rest)
  /\ (forall before it after,
        items = before ++ it :: after ->
        exists rest,
          format_output items scores explanations
          = report_total items scores ++ [LF]
            ++ concat (map (report_block scores explanations) before)
            ++ [LF] ++ report_line scores it ++ [LF]
            ++ lit "Explanation:" ++ rest)
  /\ (forall it, scores !! code it = None ->
        report_line scores it
        = code it ++ lit ": 0/" ++ format_g (max_points it))
  /\ (exists body,
        format_output items scores explanations = body ++ [LF]
        /\ trimmed body).
Proof.
  rewrite (format_output_blocks items scores explanations).
  assert (Hitems : forall before it after,
    items = before ++ it :: after ->
    exists rest,
      strip (report_total items scores ++ [LF]
             ++ concat (map (report_block scores explanations) items)) ++ [LF]
      = report_total items scores ++ [LF]
        ++ concat (map (report_block scores explanations) before)
        ++ [LF] ++ report_line scores it ++ [LF] ++ lit "Explanation:"
        ++ rest).
  { intros before it after E.
    set (X := report_total items scores ++ [LF]
              ++ concat (map (report_block scores explanations) before)
              ++ [LF] ++ report_line scores it ++ [LF] ++ lit "Explanation").
    set (Y := [SPACE] ++ strip (default [] (explanations !! code it)) ++ [LF]
              ++ concat (map (report_block scores explanations) after)).
    assert (W : report_total items scores ++ [LF]
                ++ concat (map (report_block scores explanations) items)
                = X ++ ch ":" :: Y).
    { subst X Y. rewrite E at 2. rewrite List.map_app, concat_app.
      cbn [map concat]. unfold report_block at 2.
      rewrite <- !app_assoc. reflexivity. }
    rewrite W. unfold strip.
    assert (L : lstrip (X ++ ch ":" :: Y) = X ++ ch ":" :: Y).
    { subst X. unfold report_total. rewrite <- !app_assoc. reflexivity. }
    rewrite L, rstrip_app_nonspace by reflexivity.
    exists (rstrip Y ++ [LF]). subst X.
    rewrite <- !app_assoc. reflexivity. }
  split; [|split; [exact Hitems|split]].
  - destruct items as [|it items].
    + exists []. unfold report_total. cbn [map]. vm_compute. reflexivity.
    + destruct (Hitems [] it items eq_refl) as [rest ->].
      eexists. cbn [map concat app]. reflexivity.
  - intros it H. unfold report_line. rewrite H. reflexivity.
  - eexists. split; [reflexivity|apply strip_trimmed].
Qed.

Lemma format_output_layout_witness :
  let i1 := {| code := lit "A1"; description := lit "Thesis";
               max_points := float_of_Z 5; details := [] |} in
  let i2 := {| code := lit "A2"; description := lit "Evidence";
               max_points := float_of_ratio 5 2; details := [] |} in
  let scores : gmap str float := <[lit "A1" := float_of_Z 3]> ∅ in
  let explanations : gmap str str := <[lit "A1" := lit " late "]> ∅ in
  (exists rest,
     format_output [i1; i2] scores explanations
     = lit "Total: 3/7.5" ++ [LF]
       ++ ([LF] ++ lit "A1: 3/5" ++ [LF] ++ lit "Explanation: late" ++ [LF])
       ++ [LF] ++ lit "A2: 0/2.5" ++ [LF] ++ lit "Explanation:" ++ rest)
  /\ report_line scores i2 = lit "A2: 0/2.5".
Proof.
  intros i1 i2 scores explanations.
  destruct (format_output_layout [i1; i2] scores explanations)
    as (_ & H & Hnone & _).
  split.
  - destruct (H [i1] i2 [] eq_refl) as [rest Hr].
    exists rest. rewrite Hr. reflexivity.
  - rewrite Hnone; reflexivity.
Defined.

(** ** Loading an upload *)

Lemma _decode_bytes_returns raw : exists s, _decode_bytes raw = Ok s.
Proof.
  unfold _decode_bytes. cbn [decode_first decode].
  destruct (decode_utf8_strict_outcome (length raw) raw (le_n _))
    as [[s ->]| ->]; [eauto|].
  destruct (decode_cp1252_outcome raw) as [[s ->]| ->]; [eauto|].
  eexists. reflexivity.
Qed.

(** X22: [load_rubric_from_upload] decodes the bytes, which never fails,
    and parses the text, which never fails: for a name that does not end
    with [.rtf] it returns the items of the decoded text as it is, and
    for a name that ends with [.rtf], in either case of the letters, it
    returns the items of what [rtf_to_text] makes of the text and raises
    when, and what, [rtf_to_text] raises. *)
Theorem load_rubric_from_upload_outcome raw name :
  exists content,
    _decode_bytes raw = Ok content
    /\ (is_rtf_name name = false ->
        exists r, parse_rubric_items content = Ok r
                  /\ load_rubric_from_upload raw name = Ok (p_items r))
    /\ (is_rtf_name name = true ->
        (forall text, rtf_to_text content = Ok text ->
           exists r, parse_rubric_items text = Ok r
                     /\ load_rubric_from_upload raw name = Ok (p_items r))
        /\ (forall e, rtf_to_text content = Raise e ->
              load_rubric_from_upload raw name = Raise e)).
Proof.
  destruct (_decode_bytes_returns raw) as [content Hc].
  exists content. split; [exact Hc|]. unfold load_rubric_from_upload.
  rewrite Hc. cbn [bind]. split.
  - intros ->. cbn [bind]. destruct (parse_rubric_items_ok content) as [r Hr].
    exists r. rewrite Hr. split; reflexivity.
  - intros ->. split.
    + intros text Ht. rewrite Ht. cbn [bind].
      destruct (parse_rubric_items_ok text) as [r Hr].
      exists r. rewrite Hr. split; reflexivity.
    + intros e He. rewrite He. reflexivity.
Qed.

Lemma load_rubric_from_upload_outcome_witness :
  (exists r,
     load_rubric_from_upload
       [x41; x31; x29; x20; x54; x20; x28; x35; x29] (lit "rubric.txt")
     = Ok (p_items r)
     /\ map code (p_items r) = [lit "A1"])
  /\ (exists r,
        load_rubric_from_upload
          [x7b; x5c; x62; x20; x41; x31; x29; x20; x54; x20; x28; x35; x29;
           x7d] (lit "Rubric.RTF")
        = Ok (p_items r)
        /\ map code (p_items r) = [lit "A1"])
  /\ load_rubric_from_upload [x5c; x75; x2d; x31] (lit "x.rtf")
     = Raise ValueError.
Proof.
  split; [|split].
  - destruct (load_rubric_from_upload_outcome
                [x41; x31; x29; x20; x54; x20; x28; x35; x29]
                (lit "rubric.txt")) as (content & Hc & H & _).
    destruct (H eq_refl) as (r & Hr & Hl). exists r. split; [exact Hl|].
    vm_compute in Hc. injection Hc as <-.
    vm_compute in Hr. injection Hr as <-. reflexivity.
  - destruct (load_rubric_from_upload_outcome
                [x7b; x5c; x62; x20; x41; x31; x29; x20; x54; x20; x28; x35;
                 x29; x7d] (lit "Rubric.RTF")) as (content & Hc & _ & H).
    destruct (H eq_refl) as [H1 _].
    vm_compute in Hc. injection Hc as <-.
    destruct (H1 (lit "A1) T (5)")) as (r & Hr & Hl);
      [vm_compute; reflexivity|].
    exists r. split; [exact Hl|].
    vm_compute in Hr. injection Hr as <-. reflexivity.
  - destruct (load_rubric_from_upload_outcome [x5c; x75; x2d; x31]
                (lit "x.rtf")) as (content & Hc & _ & H).
    destruct (H eq_refl) as [_ H2].
    vm_compute in Hc. injection Hc as <-.
    apply H2. vm_compute. reflexivity.
Defined.

(** ** No item header is missed *)

Lemma header_codes_cons l rest :
  header_codes (l :: rest)
  = (match re_match item_pattern (strip l) with
     | Some (c, _) => [grp 1 c]
     | None => []
     end) ++ header_codes rest.
Proof. reflexivity. Qed.

Lemma header_codes_stop_body body :
  body_lines range_stop body -> header_codes body = [].
Proof.
  induction 1 as [|l body Hl _ IH]; [reflexivity|].
  rewrite header_codes_cons, IH, app_nil_r.
  destruct (re_match item_pattern (strip l)) as [[c t]|] eqn:E;
    [|reflexivity].
  exfalso. destruct Hl as [N|N].
  - apply item_match_nonempty in E. contradiction.
  - unfold range_stop in N. apply orb_false_iff in N as [N _].
    apply orb_false_iff in N as [N _]. apply matches_false in N. congruence.
Qed.

Lemma iteration_codes st l rest st1 rest1 :
  iteration st l rest = Ok (st1, rest1) ->
  exists body,
    rest = body ++ rest1
    /\ header_codes body = []
    /\ map code (items st1) = map code (items st) ++ header_codes [l].
Proof.
  intros Hit. rewrite header_codes_cons. cbn [header_codes flat_map].
  rewrite app_nil_r.
  destruct (iteration_cases st l rest)
    as [[N H]|[(_ & c & r & _ & Hi & H)|[(_ & c & r & Hr & H)|
        [(_ & c & r & Hi & H)|(_ & _ & _ & Hi & H)]]]];
    rewrite H in Hit; clear H.
  - injection Hit as <- <-. exists [].
    destruct (re_match item_pattern (strip l)) as [[c t]|] eqn:E.
    + apply item_match_nonempty in E. contradiction.
    + rewrite app_nil_r. auto.
  - injection Hit as <- <-. exists []. rewrite Hi, app_nil_r. auto.
  - destruct (take_details_reads_body range_stop rest)
      as (body & rest' & E & Hb & _ & Htd).
    rewrite Htd in Hit. cbn [fst snd] in Hit. injection Hit as <- <-.
    exists body. split; [exact E|].
    split; [apply header_codes_stop_body, Hb|].
    destruct (re_match item_pattern (strip l)) as [[c' t']|] eqn:Ei.
    + apply item_not_range in Ei. congruence.
    + rewrite app_nil_r. reflexivity.
  - destruct (record_item_ok (claim_pending st) _ _ _
                (fst (take_details item_stop [] rest)) Hi) as (pts & _ & Hrec).
    rewrite Hrec in Hit. cbn [bind] in Hit.
    destruct (take_details_reads_body item_stop rest)
      as (body & rest' & E & Hb & _ & Htd).
    rewrite Htd in Hit. cbn [fst snd] in Hit. injection Hit as <- <-.
    exists body. split; [exact E|].
    split; [apply header_codes_body, Hb|].
    rewrite Hi. cbn [add_item items]. rewrite claim_pending_items.
    rewrite List.map_app. reflexivity.
  - injection Hit as <- <-. exists []. rewrite Hi, app_nil_r.
    rewrite absorb_line_items. auto.
Qed.

Lemma items_are_the_header_lines lines st st' :
  parse_lines st lines = Ok st' ->
  map code (items st') = map code (items st) ++ header_codes lines.
Proof.
  revert lines st st'.
  apply (parse_lines_ind (fun st lines st' =>
    map code (items st') = map code (items st) ++ header_codes lines)).
  - intros st. cbn [header_codes flat_map]. rewrite app_nil_r. reflexivity.
  - intros st l rest st1 rest1 st' Hit _ _ IH.
    apply iteration_codes in Hit as (body & -> & Hb & Hc).
    rewrite IH, Hc, <- app_assoc. f_equal.
    change (l :: body ++ rest1) with ([l] ++ body ++ rest1).
    rewrite !header_codes_app, Hb. reflexivity.
Qed.

(** X23: no item header is missed and none is made up: the items that
    [parse_rubric_items] returns are, one for one and in their order, the
    lines of the text that match the item pattern once stripped, wherever
    they stand. *)
Theorem items_are_the_lines_that_match text :
  exists r,
    parse_rubric_items text = Ok r
    /\ map code (p_items r) = header_codes (text_lines text)
    /\ length (p_items r)
       = length (List.filter (fun l => matches item_pattern (strip l))
                   (text_lines text)).
Proof.
  unfold parse_rubric_items.
  destruct (parse_lines_ok (text_lines text) initial) as [st H].
  rewrite H. eexists. split; [reflexivity|]. cbn [result_of p_items].
  pose proof (items_are_the_header_lines _ _ _ H) as E.
  cbn [initial items map app] in E. split; [exact E|].
  rewrite <- (length_map code), E. clear.
  induction (text_lines text) as [|l ls IH]; [reflexivity|].
  rewrite header_codes_cons, length_app, IH. cbn [List.filter].
  unfold matches. destruct (re_match item_pattern (strip l)) as [[c t]|];
    reflexivity.
Qed.

(** ** No section header is missed *)

Lemma section_match_letter l c t :
  re_match section_pattern (strip l) = Some (c, t) ->
  grp 1 c = firstn 1 (strip l).
Proof.
  intros H. apply section_shape in H as (u & w2 & tl & -> & -> & _).
  reflexivity.
Qed.

Lemma section_is_kept k v lines st st' :
  parse_lines st lines = Ok st' ->
  Forall (fun l => ~ (section_header (strip l) /\ firstn 1 (strip l) = k))
         lines ->
  sections st !! k = Some v -> sections st' !! k = Some v.
Proof.
  revert lines st st'.
  apply (parse_lines_ind (fun st lines st' =>
    Forall (fun l => ~ (section_header (strip l) /\ firstn 1 (strip l) = k))
           lines ->
    sections st !! k = Some v -> sections st' !! k = Some v)).
  - auto.
  - intros st l rest st1 rest1 st' Hit Hin _ IH Hall Hst.
    apply List.Forall_cons_iff in Hall as [Hl Hrest].
    apply IH.
    { rewrite List.Forall_forall in *. intros x Hx. apply Hrest, Hin, Hx. }
    destruct (iteration_cases st l rest)
      as [[N H]|[(_ & c & r & Hs & Hi & H)|[(_ & c & r & Hr & H)|
          [(_ & c & r & Hi & H)|(_ & _ & _ & Hi & H)]]]];
      rewrite H in Hit; clear H.
    + injection Hit as <- _. exact Hst.
    + injection Hit as <- _. cbn [enter_section sections reset_groups].
      rewrite lookup_insert_ne; [exact Hst|].
      intros E. apply Hl. split.
      * split; [apply matches_true; eauto|apply matches_false, Hi].
      * rewrite <- (section_match_letter _ _ _ Hs). exact E.
    + destruct (take_details range_stop [] rest).
      injection Hit as <- _. exact Hst.
    + destruct (record_item_ok (claim_pending st) _ _ _
                  (fst (take_details item_stop [] rest)) Hi)
        as (pts & _ & Hrec).
      rewrite Hrec in Hit. cbn [bind] in Hit. injection Hit as <- _.
      cbn [add_item sections]. rewrite claim_pending_sections. exact Hst.
    + injection Hit as <- _. unfold absorb_line.
      destruct (seen_any_item st); exact Hst.
Qed.

(** X24: no section header is missed: a line that matches the section
    pattern and not the item pattern is recorded wherever it stands, and
    its title, stripped, is what [parse_rubric_items] returns for its
    letter unless a later section header has the same letter. *)
Theorem section_headers_are_recorded text pre sec rest :
  text_lines text = pre ++ sec :: rest ->
  section_header (strip sec) ->
  Forall (fun l => ~ (section_header (strip l)
                      /\ firstn 1 (strip l) = firstn 1 (strip sec))) rest ->
  exists r c t,
    parse_rubric_items text = Ok r
    /\ re_match section_pattern (strip sec) = Some (c, t)
    /\ grp 1 c = firstn 1 (strip sec)
    /\ p_sections r !! grp 1 c = Some (strip (grp 2 c)).
Proof.
  intros Ht Hsec Hrest. unfold parse_rubric_items. rewrite Ht.
  assert (Hm : matches section_pattern (strip sec) = true) by apply Hsec.
  assert (Hne : strip sec <> []).
  { apply matches_true in Hm as (c & t & Hm).
    eapply section_match_nonempty, Hm. }
  destruct (parse_lines_reaches_section sec rest Hne Hm pre initial)
    as (st0 & ->).
  destruct (parse_lines_cons st0 sec rest) as (st1 & r1 & Hit & _ & _ & ->).
  destruct (iteration_section st0 sec rest Hsec) as (c & t & Hc & Hit').
  rewrite Hit' in Hit. injection Hit as <- <-.
  destruct (parse_lines_ok rest (enter_section st0 c)) as [st' H'].
  rewrite H'. exists (result_of st'), c, t. split; [reflexivity|].
  split; [exact Hc|]. pose proof (section_match_letter _ _ _ Hc) as El.
  split; [exact El|]. cbn [result_of p_sections].
  eapply section_is_kept; [exact H'| |].
  - rewrite El. exact Hrest.
  - cbn [enter_section sections reset_groups]. apply lookup_insert_eq.
Qed.

Lemma section_headers_are_recorded_witness :
  exists r,
    parse_rubric_items
      (join [LF] [lit "A1) Thesis (5 points)"; lit "detail";
                  lit "B)  Style "; lit "B1) Tone (2)";
                  lit "A) Clarity"]) = Ok r
    /\ p_sections r !! lit "B" = Some (lit "Style").
Proof.
  destruct (section_headers_are_recorded
              (join [LF] [lit "A1) Thesis (5 points)"; lit "detail";
                          lit "B)  Style "; lit "B1) Tone (2)";
                          lit "A) Clarity"])
              [lit "A1) Thesis (5 points)"; lit "detail"] (lit "B)  Style")
              [lit "B1) Tone (2)"; lit "A) Clarity"])
    as (r & c & t & Hr & Hc & _ & Hs).
  - vm_compute. reflexivity.
  - split; vm_compute; reflexivity.
  - repeat (constructor;
            [intros [[H1 H2] H3]; vm_compute in H1, H2, H3;
             first [discriminate H1|discriminate H2|discriminate H3]|]).
    constructor.
  - exists r. split; [exact Hr|].
    vm_compute in Hc. injection Hc as <- _. exact Hs.
Defined.
